(** * SmartCafe admin client: state orchestration and error mapping

    A shallow embedding of the client's form error mapper
    ([FormErrorMapperService]), its two signal stores ([CafeStore],
    [MenuStore]), the two form submission handlers and the two price
    computations, followed by the properties established about them.

    Conventions of the embedding:
    - a JavaScript object used as a dictionary is an association list of
      its own properties in insertion order ([Js.object]);
    - strings are ASCII strings; [null] and [undefined] are [None];
    - an [async] method is a function from the environment (store state,
      server, log of requests) to the environment it leaves and the way
      its promise settles: it runs from its first statement to its last
      with no other method of the store in between;
    - Angular's reactive forms are a tree of controls; the library calls
      the sources make ([get], [at], [setErrors], [markAsTouched],
      [markAllAsTouched]) are embedded after Angular 20. *)

From Stdlib Require Import ZArith QArith Ascii String List Bool Lia Sorted.
From stdpp Require Import base list strings.

Local Open Scope string_scope.
Local Open Scope Z_scope.

(* ================================================================== *)
(** ** JavaScript values, objects and completions *)

Module Js.

(** The values that occur as entries of a [ValidationErrors] object:
    [required: true], [maxlength: {requiredLength, actualLength}],
    [backend: "message"] or [backend: ["m1", "m2"]]. *)
Inductive value : Type :=
| VUndefined
| VNull
| VBool (b : bool)
| VNum (n : Z)
| VStr (s : string)
| VArr (items : list string)
| VObj (fields : list (string * Z)).

(** ToBoolean. *)
Definition truthy (v : value) : bool :=
  match v with
  | VUndefined | VNull => false
  | VBool b => b
  | VNum n => negb (n =? 0)
  | VStr s => negb (String.eqb s "")
  | VArr _ | VObj _ => true
  end.

(** ToBoolean of an optional string ([undefined] and [""] are falsy). *)
Definition truthyString (s : option string) : bool :=
  match s with
  | Some s => negb (String.eqb s "")
  | None => false
  end.

(** Own enumerable string-keyed properties, in insertion order. *)
Definition object (A : Type) : Type := list (string * A).

(** [o.hasOwnProperty(k) ? o[k] : undefined]. *)
Fixpoint get {A} (o : object A) (k : string) : option A :=
  match o with
  | [] => None
  | (k', v) :: rest => if String.eqb k' k then Some v else get rest k
  end.

(** [o[k] = v]: overwrites in place, or appends a new property. *)
Fixpoint set {A} (o : object A) (k : string) (v : A) : object A :=
  match o with
  | [] => [(k, v)]
  | (k', v') :: rest =>
      if String.eqb k' k then (k', v) :: rest else (k', v') :: set rest k v
  end.

(** [delete o[k]]. *)
Definition delete {A} (o : object A) (k : string) : object A :=
  List.filter (fun p => negb (String.eqb (fst p) k)) o.

(** [Object.keys(o)]. *)
Definition keys {A} (o : object A) : list string := map fst o.

(** The members every object literal inherits from [Object.prototype];
    each of them is a function or an object, hence truthy. *)
Definition objectPrototypeMembers : list string :=
  [ "constructor"; "__defineGetter__"; "__defineSetter__";
    "hasOwnProperty"; "__lookupGetter__"; "__lookupSetter__";
    "isPrototypeOf"; "propertyIsEnumerable"; "toString"; "valueOf";
    "__proto__"; "toLocaleString" ].

Definition inherited (k : string) : bool :=
  existsb (String.eqb k) objectPrototypeMembers.

(** What a [throw] or a rejected promise carries: an instance of
    [Error] with its message, or any other value (Angular's
    [HttpErrorResponse] is not an [Error] instance). *)
Inductive thrown : Type :=
| ErrorInstance (name message : string)
| OtherValue (description : string).

(** How a call or a promise ends. *)
Inductive completion (A : Type) : Type :=
| Normal (a : A)
| Throw (e : thrown).
Arguments Normal {A} a.
Arguments Throw {A} e.

(** *** String primitives used by the mapper *)

Definition isDigit (c : ascii) : bool :=
  let n := nat_of_ascii c in (48 <=? n)%nat && (n <=? 57)%nat.

(** [c.toLowerCase()] on one ASCII character. *)
Definition toLowerCase (c : ascii) : ascii :=
  let n := nat_of_ascii c in
  if (65 <=? n)%nat && (n <=? 90)%nat then ascii_of_nat (n + 32) else c.

(** The longest prefix of decimal digits, and what follows it. *)
Fixpoint takeDigits (s : string) : string * string :=
  match s with
  | String c rest =>
      if isDigit c
      then let (ds, tail) := takeDigits rest in (String c ds, tail)
      else (EmptyString, s)
  | EmptyString => (EmptyString, EmptyString)
  end.

(** A match of [/\[(\d+)\]/] anchored at the start of [s]: the digits
    captured by the group. *)
Definition bracketIndex (s : string) : option string :=
  match s with
  | String "["%char rest =>
      match takeDigits rest with
      | (String d ds, String "]"%char _) => Some (String d ds)
      | _ => None
      end
  | _ => None
  end.

(** [s.replace(/\[(\d+)\]/g, '.$1')]. The scan goes left to right;
    [skip] counts the characters of the current match still to pass. *)
Fixpoint replaceBracketIndices (skip : nat) (s : string) : string :=
  match s with
  | EmptyString => EmptyString
  | String c rest =>
      match skip with
      | S k => replaceBracketIndices k rest
      | O =>
          match bracketIndex s with
          | Some ds =>
              String "."%char
                (ds ++ replaceBracketIndices (S (String.length ds)) rest)
          | None => String c (replaceBracketIndices 0 rest)
          end
      end
  end.

(** [s.split('.')], with the piece being read in [cur]. Never empty. *)
Fixpoint splitDots (cur : string) (s : string) : list string :=
  match s with
  | EmptyString => [cur]
  | String c rest =>
      if Ascii.eqb c "."%char
      then cur :: splitDots EmptyString rest
      else splitDots (cur ++ String c EmptyString) rest
  end.

Definition split (s : string) : list string := splitDots EmptyString s.

(** White space skipped by [parseInt] (the ASCII part of it). *)
Definition isWhiteSpace (c : ascii) : bool :=
  let n := nat_of_ascii c in
  ((9 <=? n)%nat && (n <=? 13)%nat) || (n =? 32)%nat.

Fixpoint trimStart (s : string) : string :=
  match s with
  | String c rest => if isWhiteSpace c then trimStart rest else s
  | EmptyString => EmptyString
  end.

Fixpoint digitsValue (acc : Z) (ds : string) : Z :=
  match ds with
  | String c rest => digitsValue (10 * acc + (Z.of_nat (nat_of_ascii c) - 48)) rest
  | EmptyString => acc
  end.

(** [parseInt(s, 10)]; [None] is [NaN]. The integer is exact, where
    JavaScript rounds beyond 2^53: no array is that long, so the two
    agree wherever the result is used as an index. *)
Definition parseInt (s : string) : option Z :=
  let s1 := trimStart s in
  let '(negative, s2) :=
    match s1 with
    | String "-"%char r => (true, r)
    | String "+"%char r => (false, r)
    | _ => (false, s1)
    end in
  match fst (takeDigits s2) with
  | EmptyString => None
  | ds => Some (if negative then - digitsValue 0 ds else digitsValue 0 ds)
  end.

(** An array index as property key: a canonical decimal numeral below
    2^32 - 1. *)
Definition isArrayIndex (k : string) : bool :=
  match k with
  | EmptyString => false
  | String c _ =>
      String.eqb (snd (takeDigits k)) ""
      && (String.eqb k "0" || negb (Ascii.eqb c "0"%char))
      && (digitsValue 0 k <=? 4294967294)
  end.

Fixpoint insertByIndex {A} (p : string * A) (l : list (string * A))
  : list (string * A) :=
  match l with
  | [] => [p]
  | q :: rest =>
      if digitsValue 0 (fst p) <? digitsValue 0 (fst q)
      then p :: q :: rest
      else q :: insertByIndex p rest
  end.

(** [Object.entries(o)]: array-index keys first, in ascending numeric
    order, then the other keys in insertion order. *)
Definition entries {A} (o : object A) : list (string * A) :=
  (fold_right insertByIndex [] (List.filter (fun p => isArrayIndex (fst p)) o)
   ++ List.filter (fun p => negb (isArrayIndex (fst p))) o)%list.

End Js.

(* ================================================================== *)
(** ** Angular reactive forms *)

Module Forms.

(** [ValidationErrors = { [key: string]: any }]. *)
Definition ValidationErrors : Type := Js.object Js.value.

(** A control tree. Every node has [errors] ([null] is [None]) and its
    [touched] flag; a group owns named controls, an array indexed
    ones. The status a node derives from its errors is not stored in
    the tree: the mapper never reads it. *)
#[warnings="-register-all"]
Inductive AbstractControl : Type :=
| FormControl (errors : option ValidationErrors) (touched : bool)
| FormGroup (errors : option ValidationErrors) (touched : bool)
    (controls : list (string * AbstractControl))
| FormArray (errors : option ValidationErrors) (touched : bool)
    (controls : list AbstractControl).

Definition errors (c : AbstractControl) : option ValidationErrors :=
  match c with
  | FormControl e _ | FormGroup e _ _ | FormArray e _ _ => e
  end.

Definition touched (c : AbstractControl) : bool :=
  match c with
  | FormControl _ t | FormGroup _ t _ | FormArray _ t _ => t
  end.

(** [control.errors?.[key]]. *)
Definition errorAt (c : AbstractControl) (key : string) : option Js.value :=
  match errors c with
  | Some e => Js.get e key
  | None => None
  end.

(** [control.setErrors(errs)]: replaces the node's errors wholesale. *)
Definition setErrors (errs : option ValidationErrors) (c : AbstractControl)
  : AbstractControl :=
  match c with
  | FormControl _ t => FormControl errs t
  | FormGroup _ t cs => FormGroup errs t cs
  | FormArray _ t cs => FormArray errs t cs
  end.

(** The node's own part of [markAsTouched]. *)
Definition setTouched (c : AbstractControl) : AbstractControl :=
  match c with
  | FormControl e _ => FormControl e true
  | FormGroup e _ cs => FormGroup e true cs
  | FormArray e _ cs => FormArray e true cs
  end.

(** [form.markAllAsTouched()]: the node and all its descendants. *)
Fixpoint markAllAsTouched (c : AbstractControl) : AbstractControl :=
  match c with
  | FormControl e _ => FormControl e true
  | FormGroup e _ cs =>
      FormGroup e true (map (fun kc => (fst kc, markAllAsTouched (snd kc))) cs)
  | FormArray e _ cs => FormArray e true (map markAllAsTouched cs)
  end.

(** Every node of the tree is touched. *)
Fixpoint allTouched (c : AbstractControl) : bool :=
  match c with
  | FormControl _ t => t
  | FormGroup _ t cs => t && forallb (fun kc => allTouched (snd kc)) cs
  | FormArray _ t cs => t && forallb allTouched cs
  end.

(** [FormGroup._find(name)]: an own property of [controls], or null. *)
Definition find (controls : list (string * AbstractControl)) (name : string)
  : option AbstractControl :=
  Js.get controls name.

(** [FormArray._adjustIndex]: a negative index counts from the end. *)
Definition adjustIndex (index : Z) (len : nat) : Z :=
  if index <? 0 then index + Z.of_nat len else index.

(** [FormArray.at(index)]; [None] is [controls[NaN]] or a slot that
    does not exist. *)
Definition at_ (controls : list AbstractControl) (index : option Z)
  : option AbstractControl :=
  match index with
  | None => None
  | Some i =>
      let j := adjustIndex i (length controls) in
      if j <? 0 then None else controls !! Z.to_nat j
  end.

(** The slot [at_] reads, for writing through the reference it gave. *)
Definition slot (controls : list AbstractControl) (index : option Z)
  : option nat :=
  match index with
  | None => None
  | Some i =>
      let j := adjustIndex i (length controls) in
      if j <? 0 then None
      else if (Z.to_nat j <? length controls)%nat then Some (Z.to_nat j)
      else None
  end.

(** [control.status]; [invalid] and [valid] compare it with one value
    each, so a pending or disabled form is neither. *)
Inductive FormStatus : Type := VALID | INVALID | PENDING | DISABLED.

Definition invalid (s : FormStatus) : bool :=
  match s with INVALID => true | _ => false end.

Definition valid (s : FormStatus) : bool :=
  match s with VALID => true | _ => false end.

End Forms.

(* ================================================================== *)
(** ** FormErrorMapperService *)

Module FormErrorMapperService.
Import Forms.

Record ValidationError : Type := {
  message : string;
  code : option string;
  field : option string;  (* backend field name (PascalCase) *)
}.

(** [toFormFieldName]: bracket indices become dot segments, then the
    first character of the whole path is lower-cased. *)
Definition toFormFieldName (backendField : string) : string :=
  if String.eqb backendField "" then ""
  else
    let withDotNotation := Js.replaceBracketIndices 0 backendField in
    match withDotNotation with
    | String c rest => String (Js.toLowerCase c) rest
    | EmptyString => EmptyString
    end.

(** One step of the [reduce] in [groupErrorsByField]. [acc] is an
    object literal: [acc[f]] also finds what [Object.prototype]
    provides, which is truthy and has no [push]. *)
Definition groupStep (acc : Js.object (list ValidationError))
    (error : ValidationError)
  : Js.completion (Js.object (list ValidationError)) :=
  match field error with
  | Some f =>
      if Js.truthyString (Some f) then
        match Js.get acc f with
        | Some group => Js.Normal (Js.set acc f (group ++ [error])%list)
        | None =>
            if Js.inherited f
            then Js.Throw (Js.ErrorInstance "TypeError"
                             "acc[error.field].push is not a function")
            else Js.Normal (Js.set acc f [error])
        end
      else Js.Normal acc
  | None => Js.Normal acc
  end.

Fixpoint groupFrom (acc : Js.object (list ValidationError))
    (errors : list ValidationError)
  : Js.completion (Js.object (list ValidationError)) :=
  match errors with
  | [] => Js.Normal acc
  | error :: rest =>
      match groupStep acc error with
      | Js.Normal acc' => groupFrom acc' rest
      | Js.Throw e => Js.Throw e
      end
  end.

Definition groupErrorsByField (errors : list ValidationError)
  : Js.completion (Js.object (list ValidationError)) :=
  groupFrom [] errors.

(** The loop of [getControl] over the remaining [parts]; [None] is a
    null or undefined [control]. *)
Fixpoint walk (control : option AbstractControl) (parts : list string)
  : option AbstractControl :=
  match parts with
  | [] => control
  | part :: rest =>
      match control with
      | None => None
      | Some (FormGroup _ _ cs) => walk (find cs part) rest
      | Some (FormArray _ _ cs) => walk (at_ cs (Js.parseInt part)) rest
      | Some (FormControl _ _) => None
      end
  end.

Definition getControl (form : AbstractControl) (path : string)
  : option AbstractControl :=
  walk (Some form) (Js.split path).

(** A call on the control [getControl] returned changes that node
    inside the tree. [writeAt target up parts c] follows [parts] as
    [walk] does, applies [target] to the node reached and [up] to each
    node passed on the way (a call that bubbles to the parents);
    [None] when the path does not resolve. *)
Fixpoint writeAt (target up : AbstractControl -> AbstractControl)
    (parts : list string) (c : AbstractControl) : option AbstractControl :=
  match parts with
  | [] => Some (target c)
  | part :: rest =>
      match c with
      | FormGroup e t cs =>
          match find cs part with
          | Some child =>
              match writeAt target up rest child with
              | Some child' => Some (up (FormGroup e t (Js.set cs part child')))
              | None => None
              end
          | None => None
          end
      | FormArray e t cs =>
          match slot cs (Js.parseInt part) with
          | Some i =>
              match cs !! i with
              | Some child =>
                  match writeAt target up rest child with
                  | Some child' => Some (up (FormArray e t (<[i := child']> cs)))
                  | None => None
                  end
              | None => None
              end
          | None => None
          end
      | FormControl _ _ => None
      end
  end.

(** [control.setErrors(errs)] on the control at [path]. *)
Definition setErrorsAt (path : string) (errs : ValidationErrors)
    (form : AbstractControl) : AbstractControl :=
  match writeAt (setErrors (Some errs)) id (Js.split path) form with
  | Some form' => form'
  | None => form
  end.

(** [control.markAsTouched()] on the control at [path]: the control
    and every ancestor up to the root become touched. *)
Definition markAsTouchedAt (path : string) (form : AbstractControl)
  : AbstractControl :=
  match writeAt setTouched setTouched (Js.split path) form with
  | Some form' => form'
  | None => form
  end.

(** What the guard and the two branches of [clearFormErrors] do to one
    node's errors: a truthy [backend] entry is deleted, and an object
    left empty becomes [null]. The form-level branch deletes in the
    errors object itself and the control-level branch in a copy of it,
    which gives the node the same errors either way. *)
Definition withoutBackend (errs : option ValidationErrors)
  : option ValidationErrors :=
  match errs with
  | Some e =>
      match Js.get e "backend" with
      | Some v =>
          if Js.truthy v then
            let rest := Js.delete e "backend" in
            if (0 <? length (Js.keys rest))%nat then Some rest else None
          else Some e
      | None => Some e
      end
  | None => None
  end.

(** [clearFormErrors]. The parameter is a group, or an array passed as
    one; plain controls are handled by the parent's [forEach]. *)
Fixpoint clearFormErrors (form : AbstractControl) : AbstractControl :=
  match form with
  | FormGroup e t cs =>
      FormGroup (withoutBackend e) t
        ((fix each (cs : list (string * AbstractControl)) :=
            match cs with
            | [] => []
            | (k, control) :: rest =>
                (k, match control with
                    | FormGroup _ _ _ | FormArray _ _ _ => clearFormErrors control
                    | FormControl e t => FormControl (withoutBackend e) t
                    end) :: each rest
            end) cs)
  | FormArray e t cs =>
      FormArray (withoutBackend e) t
        ((fix each (cs : list AbstractControl) :=
            match cs with
            | [] => []
            | control :: rest =>
                match control with
                | FormGroup _ _ _ | FormArray _ _ _ => clearFormErrors control
                | FormControl e t => FormControl (withoutBackend e) t
                end :: each rest
            end) cs)
  | FormControl e t => FormControl e t
  end.

(** The body of the [for ... of Object.entries(errorsByField)] loop. *)
Definition applyFieldErrors (form : AbstractControl)
    (entry : string * list ValidationError) : AbstractControl :=
  let '(backendField, fieldErrors) := entry in
  let formField := toFormFieldName backendField in
  match getControl form formField with
  | Some _ =>
      let errorMessages := map message fieldErrors in
      let backend :=
        match errorMessages with
        | [m] => Js.VStr m
        | _ => Js.VArr errorMessages
        end in
      markAsTouchedAt formField
        (setErrorsAt formField [("backend", backend)] form)
  | None => form
  end.

(** [applyToForm]: the form as the call leaves it, and how the call
    ends. *)
Definition applyToForm (form : AbstractControl) (errors : list ValidationError)
  : AbstractControl * Js.completion unit :=
  (* Clear previous errors *)
  let form := clearFormErrors form in
  (* Group errors by field *)
  match groupErrorsByField errors with
  | Js.Throw e => (form, Js.Throw e)
  | Js.Normal errorsByField =>
      (* Apply errors to form controls *)
      let form := fold_left applyFieldErrors (Js.entries errorsByField) form in
      (* Handle general errors (no field specified) *)
      let generalErrors :=
        List.filter (fun e => negb (Js.truthyString (field e))) errors in
      if (0 <? length generalErrors)%nat
      then (setErrors (Some [("backend", Js.VArr (map message generalErrors))]) form,
            Js.Normal tt)
      else (form, Js.Normal tt)
  end.

End FormErrorMapperService.

(* ================================================================== *)
(** ** Models *)

(** Modelled from the spec: the lifecycle of a menu is Draft,
    Published, Active; these are the members that the views of the
    store and the labels of the menu list name. *)
Inductive MenuState : Type := Draft | Published | Active.

Definition MenuState_eqb (a b : MenuState) : bool :=
  match a, b with
  | Draft, Draft | Published, Published | Active, Active => true
  | _, _ => false
  end.

Inductive PriceUnit : Type := PerItem | Per100Grams.

Module CafeDto.
Record t : Type := {
  id : string;
  name : string;
  contactInfo : option string;
  createdAt : string;
  updatedAt : option string;
}.
End CafeDto.

Module PriceDto.
Record t : Type := {
  amount : Q;
  currency : string;
  unit : PriceUnit;
  discount : Q;
}.
End PriceDto.

Module IngredientDto.
Record t : Type := { name : string; isExcludable : bool }.
End IngredientDto.

Module MenuItemImageDto.
Record t : Type := { originalImageUrl : string; thumbnailImageUrl : string }.
End MenuItemImageDto.

Module MenuItemDto.
Record t : Type := {
  id : option string;
  name : string;
  description : option string;
  price : PriceDto.t;
  image : option MenuItemImageDto.t;
  ingredients : list IngredientDto.t;
}.
End MenuItemDto.

Module SectionDto.
Record t : Type := {
  id : option string;
  name : string;
  availableFrom : option string;
  availableTo : option string;
  items : list MenuItemDto.t;
}.
End SectionDto.

Module MenuDto.
Record t : Type := {
  id : string;
  name : string;
  state : MenuState;
  sections : list SectionDto.t;
  createdAt : string;
  updatedAt : string;
}.
End MenuDto.

Module MenuSummaryDto.
Record t : Type := {
  menuId : string;
  name : string;
  state : MenuState;
  createdAt : string;
  updatedAt : string;
}.
End MenuSummaryDto.

Record CreateCafeRequest : Type := {
  cafeName : string;
  cafeContactInfo : option string;
}.

(** [CreateMenuRequest] and [UpdateMenuRequest] have the same shape. *)
Record MenuRequest : Type := {
  menuName : string;
  menuSections : list SectionDto.t;
}.

(* ================================================================== *)
(** ** Promises and the environment of an async method *)

(** The requests the two API services can send. *)
Inductive Request : Type :=
| ListCafes
| GetCafe (cafeId : string)
| CreateCafe (request : CreateCafeRequest)
| DeleteCafe (cafeId : string)
| ListMenus (cafeId : string)
| GetMenu (cafeId menuId : string)
| GetActiveMenu (cafeId : string)
| CreateMenu (cafeId : string) (request : MenuRequest)
| UpdateMenu (cafeId menuId : string) (request : MenuRequest)
| DeleteMenu (cafeId menuId : string)
| CloneMenu (cafeId menuId newName : string)
| PublishMenu (cafeId menuId : string)
| ActivateMenu (cafeId menuId : string).

Module Async.

(** A promise, seen from the instant it was created: the time it takes
    to settle and the way it settles. *)
Record promise (A : Type) : Type := {
  settlesAfter : nat;
  settlement : Js.completion A;
}.
Arguments settlesAfter {A} _.
Arguments settlement {A} _.

Definition fulfilled {A} (c : Js.completion A) : bool :=
  match c with
  | Js.Normal _ => true
  | Js.Throw _ => false
  end.

(** What an async store method runs in: the store's state, the server
    behind the API, and the log of the requests sent so far, each with
    whether it was fulfilled. *)
Record env (S W : Type) : Type := {
  store : S;
  server : W;
  requests : list (Request * bool);
}.
Arguments store {S W} _.
Arguments server {S W} _.
Arguments requests {S W} _.

Definition async (S W A : Type) : Type :=
  env S W -> env S W * Js.completion A.

Section Combinators.
Context {S W : Type}.

Definition ret {A} (a : A) : async S W A :=
  fun e => (e, Js.Normal a).

Definition bind {A B} (m : async S W A) (k : A -> async S W B)
  : async S W B :=
  fun e =>
    match m e with
    | (e', Js.Normal a) => k a e'
    | (e', Js.Throw err) => (e', Js.Throw err)
    end.

(** [try { body } catch (error) { handler(error) }]. *)
Definition tryCatch {A} (body : async S W A)
    (handler : Js.thrown -> async S W A) : async S W A :=
  fun e =>
    match body e with
    | (e', Js.Normal a) => (e', Js.Normal a)
    | (e', Js.Throw err) => handler err e'
    end.

(** [patchState(store, patch)]. *)
Definition patchState (patch : S -> S) : async S W unit :=
  fun e =>
    ({| store := patch (store e); server := server e;
        requests := requests e |}, Js.Normal tt).

(** Reading the store's signals. *)
Definition getState : async S W S :=
  fun e => (e, Js.Normal (store e)).

(** [firstValueFrom(api.call(...))]: the request is sent when the
    observable is subscribed, that is, at once; the server moves on
    and the promise of the response is returned. *)
Definition firstValueFrom {A} (r : Request) (call : W -> W * promise A)
  : async S W (promise A) :=
  fun e =>
    let (w', p) := call (server e) in
    ({| store := store e; server := w';
        requests := (requests e ++ [(r, fulfilled (settlement p))])%list |},
     Js.Normal p).

(** [await p]. *)
Definition await {A} (p : promise A) : async S W A :=
  fun e => (e, settlement p).

(** [try { body } finally { finalizer }]. *)
Definition tryFinally {A} (body : async S W A) (finalizer : async S W unit)
  : async S W A :=
  fun e =>
    let (e', r) := body e in
    match finalizer e' with
    | (e'', Js.Normal _) => (e'', r)
    | (e'', Js.Throw err) => (e'', Js.Throw err)
    end.

End Combinators.

(** A store method called from a component that has state [C] of its
    own. *)
Definition inStore {C S W A} (m : async S W A) : async (C * S) W A :=
  fun e =>
    let (e', r) :=
      m {| store := snd (store e); server := server e;
           requests := requests e |} in
    ({| store := (fst (store e), store e'); server := server e';
        requests := requests e' |}, r).

(** A change of the component's own state. *)
Definition inComponent {C S W} (f : C -> C) : async (C * S) W unit :=
  patchState (fun cs => (f (fst cs), snd cs)).

(** [Promise.all([p, q])]: fulfilled with both values once both are, or
    rejected with the reason of whichever rejects first. *)
Definition all2 {A B} (p : promise A) (q : promise B) : promise (A * B) :=
  match settlement p, settlement q with
  | Js.Normal a, Js.Normal b =>
      {| settlesAfter := Nat.max (settlesAfter p) (settlesAfter q);
         settlement := Js.Normal (a, b) |}
  | Js.Throw e, Js.Normal _ =>
      {| settlesAfter := settlesAfter p; settlement := Js.Throw e |}
  | Js.Normal _, Js.Throw e =>
      {| settlesAfter := settlesAfter q; settlement := Js.Throw e |}
  | Js.Throw e1, Js.Throw e2 =>
      if (settlesAfter q <? settlesAfter p)%nat
      then {| settlesAfter := settlesAfter q; settlement := Js.Throw e2 |}
      else {| settlesAfter := settlesAfter p; settlement := Js.Throw e1 |}
  end.

(** [Promise.all([p, q, r])]. *)
Definition all3 {A B C} (p : promise A) (q : promise B) (r : promise C)
  : promise (A * B * C) := all2 (all2 p q) r.

(** [error instanceof Error ? error.message : fallback]. *)
Definition errorMessage (error : Js.thrown) (fallback : string) : string :=
  match error with
  | Js.ErrorInstance _ message => message
  | Js.OtherValue _ => fallback
  end.

End Async.

Declare Scope async_scope.
Delimit Scope async_scope with async.
Notation "x <- m ;; k" := (Async.bind m (fun x => k))
  (at level 100, m at next level, right associativity) : async_scope.
Notation "m ;;; k" := (Async.bind m (fun _ => k))
  (at level 100, right associativity) : async_scope.

Local Open Scope async_scope.

(* ================================================================== *)
(** ** API services

    Each method of an API service sends one request: the server moves
    from one state to the next and the promise of the response comes
    back. The server type [W] is left open. *)

Module ListCafesResponse.
Record t : Type := { cafes : list CafeDto.t }.
End ListCafesResponse.

Module CreateCafeResponse.
Record t : Type := { cafeId : string }.
End CreateCafeResponse.

Module ListMenusResponse.
Record t : Type := { menus : list MenuSummaryDto.t }.
End ListMenusResponse.

Module CreateMenuResponse.
Record t : Type := { menuId : string }.
End CreateMenuResponse.

Module PublishMenuResponse.
Record t : Type := { menuId : string; state : MenuState }.
End PublishMenuResponse.

Module CafeApiService.
Record t (W : Type) : Type := {
  listCafes : W -> W * Async.promise ListCafesResponse.t;
  getCafe : string -> W -> W * Async.promise CafeDto.t;
  createCafe : CreateCafeRequest -> W -> W * Async.promise CreateCafeResponse.t;
  deleteCafe : string -> W -> W * Async.promise unit;
}.
Arguments listCafes {W} _.
Arguments getCafe {W} _.
Arguments createCafe {W} _.
Arguments deleteCafe {W} _.
End CafeApiService.

Module MenuApiService.
Record t (W : Type) : Type := {
  listMenus : string -> W -> W * Async.promise ListMenusResponse.t;
  getMenu : string -> string -> W -> W * Async.promise MenuDto.t;
  getActiveMenu : string -> W -> W * Async.promise MenuDto.t;
  createMenu : string -> MenuRequest -> W -> W * Async.promise CreateMenuResponse.t;
  updateMenu : string -> string -> MenuRequest -> W -> W * Async.promise unit;
  deleteMenu : string -> string -> W -> W * Async.promise unit;
  cloneMenu : string -> string -> string -> W -> W * Async.promise CreateMenuResponse.t;
  publishMenu : string -> string -> W -> W * Async.promise PublishMenuResponse.t;
  activateMenu : string -> string -> W -> W * Async.promise unit;
}.
Arguments listMenus {W} _.
Arguments getMenu {W} _.
Arguments getActiveMenu {W} _.
Arguments createMenu {W} _.
Arguments updateMenu {W} _.
Arguments deleteMenu {W} _.
Arguments cloneMenu {W} _.
Arguments publishMenu {W} _.
Arguments activateMenu {W} _.
End MenuApiService.

(* ================================================================== *)
(** ** CafeStore *)

Module CafeStore.
Import Async.

Record CafeState : Type := {
  cafes : list CafeDto.t;
  selectedCafe : option CafeDto.t;
  loading : bool;
  error : option string;
}.

Definition initialState : CafeState :=
  {| cafes := []; selectedCafe := None; loading := false; error := None |}.

(** Partial states as [patchState] merges them. *)
Definition withCafes (v : list CafeDto.t) (s : CafeState) : CafeState :=
  {| cafes := v; selectedCafe := selectedCafe s;
     loading := loading s; error := error s |}.
Definition withSelectedCafe (v : option CafeDto.t) (s : CafeState) : CafeState :=
  {| cafes := cafes s; selectedCafe := v;
     loading := loading s; error := error s |}.
Definition withLoading (v : bool) (s : CafeState) : CafeState :=
  {| cafes := cafes s; selectedCafe := selectedCafe s;
     loading := v; error := error s |}.
Definition withError (v : option string) (s : CafeState) : CafeState :=
  {| cafes := cafes s; selectedCafe := selectedCafe s;
     loading := loading s; error := v |}.

(** Computed signals. *)
Definition cafeCount (s : CafeState) : nat := length (cafes s).
Definition hasCafes (s : CafeState) : bool := (0 <? length (cafes s))%nat.

Section Methods.
Context {W : Type} (cafeApi : CafeApiService.t W).

Definition loadCafes : async CafeState W unit :=
  patchState (fun s => withLoading true (withError None s)) ;;;
  tryCatch
    (p <- firstValueFrom ListCafes (CafeApiService.listCafes cafeApi) ;;
     response <- await p ;;
     patchState (fun s =>
       withCafes (ListCafesResponse.cafes response) (withLoading false s)))
    (fun error =>
       let errorMessage := errorMessage error "Failed to load cafes" in
       patchState (fun s => withError (Some errorMessage) (withLoading false s))).

Definition selectCafe (cafeId : string) : async CafeState W unit :=
  patchState (fun s => withLoading true (withError None s)) ;;;
  tryCatch
    (p <- firstValueFrom (GetCafe cafeId) (CafeApiService.getCafe cafeApi cafeId) ;;
     cafe <- await p ;;
     patchState (fun s => withSelectedCafe (Some cafe) (withLoading false s)))
    (fun error =>
       let errorMessage := errorMessage error "Failed to load cafe" in
       patchState (fun s => withError (Some errorMessage) (withLoading false s))).

Definition createCafe (request : CreateCafeRequest)
  : async CafeState W (option string) :=
  patchState (fun s => withLoading true (withError None s)) ;;;
  tryCatch
    (p <- firstValueFrom (CreateCafe request)
            (CafeApiService.createCafe cafeApi request) ;;
     response <- await p ;;
     (* Reload the list after creating *)
     q <- firstValueFrom ListCafes (CafeApiService.listCafes cafeApi) ;;
     list <- await q ;;
     patchState (fun s =>
       withCafes (ListCafesResponse.cafes list) (withLoading false s)) ;;;
     ret (Some (CreateCafeResponse.cafeId response)))
    (fun error =>
       let errorMessage := errorMessage error "Failed to create cafe" in
       patchState (fun s => withError (Some errorMessage) (withLoading false s)) ;;;
       ret None).

Definition deleteCafe (cafeId : string) : async CafeState W bool :=
  patchState (fun s => withLoading true (withError None s)) ;;;
  tryCatch
    (p <- firstValueFrom (DeleteCafe cafeId)
            (CafeApiService.deleteCafe cafeApi cafeId) ;;
     _ <- await p ;;
     (* Remove from local state *)
     patchState (fun s =>
       withCafes
         (List.filter (fun c => negb (String.eqb (CafeDto.id c) cafeId)) (cafes s))
         (withSelectedCafe
            (match selectedCafe s with
             | Some c => if String.eqb (CafeDto.id c) cafeId then None
                         else selectedCafe s
             | None => selectedCafe s
             end)
            (withLoading false s))) ;;;
     ret true)
    (fun error =>
       let errorMessage := errorMessage error "Failed to delete cafe" in
       patchState (fun s => withError (Some errorMessage) (withLoading false s)) ;;;
       ret false).

Definition clearSelectedCafe : async CafeState W unit :=
  patchState (withSelectedCafe None).

End Methods.
End CafeStore.

(* ================================================================== *)
(** ** MenuStore *)

Module MenuStore.
Import Async.

Record MenuStoreState : Type := {
  menus : list MenuSummaryDto.t;
  selectedMenu : option MenuDto.t;
  activeMenu : option MenuDto.t;
  currentCafeId : option string;
  loading : bool;
  error : option string;
}.

Definition initialState : MenuStoreState :=
  {| menus := []; selectedMenu := None; activeMenu := None;
     currentCafeId := None; loading := false; error := None |}.

Definition withMenus (v : list MenuSummaryDto.t) (s : MenuStoreState) :=
  {| menus := v; selectedMenu := selectedMenu s; activeMenu := activeMenu s;
     currentCafeId := currentCafeId s; loading := loading s; error := error s |}.
Definition withSelectedMenu (v : option MenuDto.t) (s : MenuStoreState) :=
  {| menus := menus s; selectedMenu := v; activeMenu := activeMenu s;
     currentCafeId := currentCafeId s; loading := loading s; error := error s |}.
Definition withActiveMenu (v : option MenuDto.t) (s : MenuStoreState) :=
  {| menus := menus s; selectedMenu := selectedMenu s; activeMenu := v;
     currentCafeId := currentCafeId s; loading := loading s; error := error s |}.
Definition withCurrentCafeId (v : option string) (s : MenuStoreState) :=
  {| menus := menus s; selectedMenu := selectedMenu s; activeMenu := activeMenu s;
     currentCafeId := v; loading := loading s; error := error s |}.
Definition withLoading (v : bool) (s : MenuStoreState) :=
  {| menus := menus s; selectedMenu := selectedMenu s; activeMenu := activeMenu s;
     currentCafeId := currentCafeId s; loading := v; error := error s |}.
Definition withError (v : option string) (s : MenuStoreState) :=
  {| menus := menus s; selectedMenu := selectedMenu s; activeMenu := activeMenu s;
     currentCafeId := currentCafeId s; loading := loading s; error := v |}.

(** Computed signals. *)
Definition inState (st : MenuState) (m : MenuSummaryDto.t) : bool :=
  MenuState_eqb (MenuSummaryDto.state m) st.
Definition menuCount (s : MenuStoreState) : nat := length (menus s).
Definition hasMenus (s : MenuStoreState) : bool := (0 <? length (menus s))%nat.
Definition draftMenus (s : MenuStoreState) := List.filter (inState Draft) (menus s).
Definition publishedMenus (s : MenuStoreState) := List.filter (inState Published) (menus s).
Definition activeMenus (s : MenuStoreState) := List.filter (inState Active) (menus s).

Section Methods.
Context {W : Type} (menuApi : MenuApiService.t W).

(** The [catch] block shared, up to its message, by every method but
    [loadActiveMenu]; what it logs to the console is left out. *)
Definition failWith {A} (fallback : string) (result : A) (error : Js.thrown)
  : async MenuStoreState W A :=
  let errorMessage := errorMessage error fallback in
  patchState (fun s => withError (Some errorMessage) (withLoading false s)) ;;;
  ret result.

Definition loadMenus (cafeId : string) : async MenuStoreState W unit :=
  patchState (fun s =>
    withLoading true (withError None (withCurrentCafeId (Some cafeId) s))) ;;;
  tryCatch
    (p <- firstValueFrom (ListMenus cafeId) (MenuApiService.listMenus menuApi cafeId) ;;
     response <- await p ;;
     patchState (fun s =>
       withMenus (ListMenusResponse.menus response) (withLoading false s)))
    (failWith "Failed to load menus" tt).

Definition selectMenu (cafeId menuId : string) : async MenuStoreState W unit :=
  patchState (fun s => withLoading true (withError None s)) ;;;
  tryCatch
    (p <- firstValueFrom (GetMenu cafeId menuId)
            (MenuApiService.getMenu menuApi cafeId menuId) ;;
     menu <- await p ;;
     patchState (fun s => withSelectedMenu (Some menu) (withLoading false s)))
    (failWith "Failed to load menu" tt).

(** Alias for [selectMenu]. *)
Definition loadMenu (cafeId menuId : string) : async MenuStoreState W unit :=
  selectMenu cafeId menuId.

Definition loadActiveMenu (cafeId : string) : async MenuStoreState W unit :=
  patchState (fun s => withLoading true (withError None s)) ;;;
  tryCatch
    (p <- firstValueFrom (GetActiveMenu cafeId)
            (MenuApiService.getActiveMenu menuApi cafeId) ;;
     menu <- await p ;;
     patchState (fun s => withActiveMenu (Some menu) (withLoading false s)))
    (fun error =>
       (* console.info: no active menu found *)
       patchState (fun s => withActiveMenu None (withLoading false s))).

Definition createMenu (cafeId : string) (request : MenuRequest)
  : async MenuStoreState W (option string) :=
  patchState (fun s => withLoading true (withError None s)) ;;;
  tryCatch
    (p <- firstValueFrom (CreateMenu cafeId request)
            (MenuApiService.createMenu menuApi cafeId request) ;;
     response <- await p ;;
     (* Reload the list after creating *)
     q <- firstValueFrom (ListMenus cafeId) (MenuApiService.listMenus menuApi cafeId) ;;
     listResponse <- await q ;;
     patchState (fun s =>
       withMenus (ListMenusResponse.menus listResponse) (withLoading false s)) ;;;
     ret (Some (CreateMenuResponse.menuId response)))
    (failWith "Failed to create menu" None).

Definition updateMenu (cafeId menuId : string) (request : MenuRequest)
  : async MenuStoreState W bool :=
  patchState (fun s => withLoading true (withError None s)) ;;;
  tryCatch
    (p <- firstValueFrom (UpdateMenu cafeId menuId request)
            (MenuApiService.updateMenu menuApi cafeId menuId request) ;;
     _ <- await p ;;
     (* Reload the menu and list *)
     p1 <- firstValueFrom (GetMenu cafeId menuId)
             (MenuApiService.getMenu menuApi cafeId menuId) ;;
     p2 <- firstValueFrom (ListMenus cafeId) (MenuApiService.listMenus menuApi cafeId) ;;
     both <- await (all2 p1 p2) ;;
     let '(menu, listResponse) := both in
     patchState (fun s =>
       withSelectedMenu (Some menu)
         (withMenus (ListMenusResponse.menus listResponse) (withLoading false s))) ;;;
     ret true)
    (failWith "Failed to update menu" false).

Definition deleteMenu (cafeId menuId : string) : async MenuStoreState W bool :=
  patchState (fun s => withLoading true (withError None s)) ;;;
  tryCatch
    (p <- firstValueFrom (DeleteMenu cafeId menuId)
            (MenuApiService.deleteMenu menuApi cafeId menuId) ;;
     _ <- await p ;;
     (* Remove from local state *)
     patchState (fun s =>
       withMenus
         (List.filter (fun m => negb (String.eqb (MenuSummaryDto.menuId m) menuId))
            (menus s))
         (withSelectedMenu
            (match selectedMenu s with
             | Some m => if String.eqb (MenuDto.id m) menuId then None
                         else selectedMenu s
             | None => selectedMenu s
             end)
            (withLoading false s))) ;;;
     ret true)
    (failWith "Failed to delete menu" false).

Definition cloneMenu (cafeId menuId newName : string)
  : async MenuStoreState W (option string) :=
  patchState (fun s => withLoading true (withError None s)) ;;;
  tryCatch
    (p <- firstValueFrom (CloneMenu cafeId menuId newName)
            (MenuApiService.cloneMenu menuApi cafeId menuId newName) ;;
     response <- await p ;;
     (* Reload the list *)
     q <- firstValueFrom (ListMenus cafeId) (MenuApiService.listMenus menuApi cafeId) ;;
     listResponse <- await q ;;
     patchState (fun s =>
       withMenus (ListMenusResponse.menus listResponse) (withLoading false s)) ;;;
     ret (Some (CreateMenuResponse.menuId response)))
    (failWith "Failed to clone menu" None).

Definition publishMenu (cafeId menuId : string) : async MenuStoreState W bool :=
  patchState (fun s => withLoading true (withError None s)) ;;;
  tryCatch
    (p <- firstValueFrom (PublishMenu cafeId menuId)
            (MenuApiService.publishMenu menuApi cafeId menuId) ;;
     _ <- await p ;;
     (* Reload the menu and list *)
     p1 <- firstValueFrom (GetMenu cafeId menuId)
             (MenuApiService.getMenu menuApi cafeId menuId) ;;
     p2 <- firstValueFrom (ListMenus cafeId) (MenuApiService.listMenus menuApi cafeId) ;;
     both <- await (all2 p1 p2) ;;
     let '(menu, listResponse) := both in
     patchState (fun s =>
       withSelectedMenu (Some menu)
         (withMenus (ListMenusResponse.menus listResponse) (withLoading false s))) ;;;
     ret true)
    (failWith "Failed to publish menu" false).

Definition activateMenu (cafeId menuId : string) : async MenuStoreState W bool :=
  patchState (fun s => withLoading true (withError None s)) ;;;
  tryCatch
    (p <- firstValueFrom (ActivateMenu cafeId menuId)
            (MenuApiService.activateMenu menuApi cafeId menuId) ;;
     _ <- await p ;;
     (* Reload the menu, active menu, and list *)
     p1 <- firstValueFrom (GetMenu cafeId menuId)
             (MenuApiService.getMenu menuApi cafeId menuId) ;;
     p2 <- firstValueFrom (GetActiveMenu cafeId)
             (MenuApiService.getActiveMenu menuApi cafeId) ;;
     p3 <- firstValueFrom (ListMenus cafeId) (MenuApiService.listMenus menuApi cafeId) ;;
     triple <- await (all3 p1 p2 p3) ;;
     let '(menu, activeMenu, listResponse) := triple in
     patchState (fun s =>
       withSelectedMenu (Some menu)
         (withActiveMenu (Some activeMenu)
            (withMenus (ListMenusResponse.menus listResponse)
               (withLoading false s)))) ;;;
     ret true)
    (failWith "Failed to activate menu" false).

Definition clearSelectedMenu : async MenuStoreState W unit :=
  patchState (withSelectedMenu None).

Definition clearMenus : async MenuStoreState W unit :=
  patchState (fun _ => initialState).

End Methods.
End MenuStore.

(* ================================================================== *)
(** ** Form submission handlers *)

Module MenuFormPageComponent.
Import Async Forms.

(** The component's state: the form with the status Angular last
    computed for it, the route parameters, and the navigations asked
    of the router. *)
Record t : Type := {
  menuForm : AbstractControl;
  menuFormStatus : FormStatus;
  isSubmitting : bool;
  cafeId : option string;
  menuId : option string;
  navigations : list (list string);
}.

(** [computed(() => !!this.menuId())]. *)
Definition isEditMode (c : t) : bool := Js.truthyString (menuId c).

Definition withMenuForm (v : AbstractControl) (c : t) : t :=
  {| menuForm := v; menuFormStatus := menuFormStatus c;
     isSubmitting := isSubmitting c; cafeId := cafeId c; menuId := menuId c;
     navigations := navigations c |}.
Definition withSubmitting (v : bool) (c : t) : t :=
  {| menuForm := menuForm c; menuFormStatus := menuFormStatus c;
     isSubmitting := v; cafeId := cafeId c; menuId := menuId c;
     navigations := navigations c |}.
Definition navigate (commands : list string) (c : t) : t :=
  {| menuForm := menuForm c; menuFormStatus := menuFormStatus c;
     isSubmitting := isSubmitting c; cafeId := cafeId c; menuId := menuId c;
     navigations := (navigations c ++ [commands])%list |}.

Section OnSubmit.
Context {W : Type} (menuApi : MenuApiService.t W).
(** The payload built from [menuForm.value]. *)
Context (menuData : AbstractControl -> MenuRequest).

Definition onSubmit : async (t * MenuStore.MenuStoreState) W unit :=
  this <- (cs <- getState ;; ret (fst cs)) ;;
  if invalid (menuFormStatus this) || isSubmitting this then
    inComponent (fun c => withMenuForm (markAllAsTouched (menuForm c)) c)
  else
    match cafeId this with
    | None => ret tt
    | Some cafeId =>
        if negb (Js.truthyString (Some cafeId)) then ret tt
        else
          inComponent (withSubmitting true) ;;;
          tryFinally
            (let menuData := menuData (menuForm this) in
             let afterSave : async (t * MenuStore.MenuStoreState) W unit :=
               cs <- getState ;;
               if negb (Js.truthyString (MenuStore.error (snd cs)))
               then inComponent (navigate ["/cafes"; cafeId; "menus"])
               else ret tt in
             if isEditMode this then
               match menuId this with
               | None => ret tt
               | Some menuId =>
                   if negb (Js.truthyString (Some menuId)) then ret tt
                   else
                     _ <- inStore (MenuStore.updateMenu menuApi cafeId menuId menuData) ;;
                     afterSave
               end
             else
               _ <- inStore (MenuStore.createMenu menuApi cafeId menuData) ;;
               afterSave)
            (inComponent (withSubmitting false))
    end.

End OnSubmit.
End MenuFormPageComponent.

Module CafeFormDialogComponent.
Import Async Forms.

(** The dialog's state: the form with its status and value, and the
    results the dialog was closed with. *)
Record t : Type := {
  cafeForm : AbstractControl;
  cafeFormStatus : FormStatus;
  nameValue : option string;
  contactInfoValue : option string;
  closedWith : list string;
}.

Definition close (result : string) (c : t) : t :=
  {| cafeForm := cafeForm c; cafeFormStatus := cafeFormStatus c;
     nameValue := nameValue c; contactInfoValue := contactInfoValue c;
     closedWith := (closedWith c ++ [result])%list |}.

Section OnSubmit.
Context {W : Type} (cafeApi : CafeApiService.t W).

Definition onSubmit : async (t * CafeStore.CafeState) W unit :=
  this <- (cs <- getState ;; ret (fst cs)) ;;
  if valid (cafeFormStatus this) then
    match nameValue this with
    | None => ret tt
    | Some name =>
        if negb (Js.truthyString (Some name)) then ret tt
        else
          result <- inStore (CafeStore.createCafe cafeApi
                      {| cafeName := name;
                         cafeContactInfo :=
                           if Js.truthyString (contactInfoValue this)
                           then contactInfoValue this else None |}) ;;
          if Js.truthyString result
          then match result with
               | Some id => inComponent (close id)
               | None => ret tt
               end
          else ret tt
    end
  else ret tt.

End OnSubmit.
End CafeFormDialogComponent.

(* ================================================================== *)
(** ** Price computations *)

Module MenuPreviewPageComponent.

(** The [finalPrice] that [getFormattedPrice] formats. *)
Definition finalPrice (price : PriceDto.t) : Q :=
  (PriceDto.amount price * (1 - PriceDto.discount price / 100))%Q.

(** [getFormattedPrice], with the locale's currency formatter given. *)
Definition getFormattedPrice (format : Q -> string) (price : PriceDto.t) : string :=
  format (finalPrice price).

End MenuPreviewPageComponent.

Module MenuItemComponent.

(** [value || 0] on the value of a numeric control; a control that is
    absent or empty has no value. *)
Definition orZero (value : option Q) : Q :=
  match value with
  | Some v => if Qeq_bool v 0 then 0%Q else v
  | None => 0%Q
  end.

(** The [finalPrice] signal, from the values of the [priceAmount] and
    [priceDiscount] controls. *)
Definition finalPrice (priceAmount priceDiscount : option Q) : Q :=
  let price := orZero priceAmount in
  let discount := orZero priceDiscount in
  (price - (price * discount / 100))%Q.

End MenuItemComponent.

(* ================================================================== *)
(** ** Vocabulary of the properties *)

Import Async.

(** The requests a method sent: what it added to the log. *)
Definition sent {S W} (e e' : env S W) : list (Request * bool) :=
  drop (length (requests e)) (requests e').

Definition anyRejected (l : list (Request * bool)) : bool :=
  existsb (fun rb => negb (snd rb)) l.

(** The value a request is answered with, when it is fulfilled, and the
    server after the request. *)
Definition answer {W A} (call : W -> W * promise A) (w : W) : option A :=
  match settlement (snd (call w)) with
  | Js.Normal a => Some a
  | Js.Throw _ => None
  end.

Definition after {W A} (call : W -> W * promise A) (w : W) : W := fst (call w).

(** Everything in a store's state but [loading] and [error]. *)
Definition cafeFrame (s s' : CafeStore.CafeState) : Prop :=
  CafeStore.cafes s' = CafeStore.cafes s
  /\ CafeStore.selectedCafe s' = CafeStore.selectedCafe s.

Definition menuFrame (s s' : MenuStore.MenuStoreState) : Prop :=
  MenuStore.menus s' = MenuStore.menus s
  /\ MenuStore.selectedMenu s' = MenuStore.selectedMenu s
  /\ MenuStore.activeMenu s' = MenuStore.activeMenu s
  /\ MenuStore.currentCafeId s' = MenuStore.currentCafeId s.

(** A mutating method that never throws and, when a request of its own
    was rejected, resolves to [failure] having patched [loading] and
    [error] only. *)
Definition failsCleanly {S W A} (frame : S -> S -> Prop) (loading : S -> bool)
    (error : S -> option string) (failure : A) (m : async S W A) : Prop :=
  forall e, exists e' v,
    m e = (e', Js.Normal v)
    /\ (anyRejected (sent e e') = true ->
        v = failure /\ frame (store e) (store e')
        /\ loading (store e') = false
        /\ exists msg, error (store e') = Some msg).

(** A load method that returns nothing, never throws, and leaves a
    message in [error] when its request was rejected. *)
Definition reportsFailure {S W} (error : S -> option string)
    (m : async S W unit) : Prop :=
  forall e, exists e',
    m e = (e', Js.Normal tt)
    /\ (anyRejected (sent e e') = true -> exists msg, error (store e') = Some msg).

(** The server's single-active invariant, on a list of menus. *)
Definition atMostOneActive (menus : list MenuSummaryDto.t) : Prop :=
  (length (List.filter (MenuStore.inState Active) menus) <= 1)%nat.

(** How often an id occurs in a collection. *)
Definition occurrences {A} (id_of : A -> string) (id : string) (l : list A) : nat :=
  length (List.filter (fun x => String.eqb (id_of x) id) l).

(* ================================================================== *)
(** ** Example data *)

Module Examples.
Import Forms FormErrorMapperService.

Definition cafe (id name : string) : CafeDto.t :=
  {| CafeDto.id := id; CafeDto.name := name; CafeDto.contactInfo := None;
     CafeDto.createdAt := "2024-01-01T00:00:00Z"; CafeDto.updatedAt := None |}.

Definition summary (id name : string) (st : MenuState) : MenuSummaryDto.t :=
  {| MenuSummaryDto.menuId := id; MenuSummaryDto.name := name;
     MenuSummaryDto.state := st;
     MenuSummaryDto.createdAt := "2024-01-01T00:00:00Z";
     MenuSummaryDto.updatedAt := "2024-01-01T00:00:00Z" |}.

Definition menu (id name : string) (st : MenuState) : MenuDto.t :=
  {| MenuDto.id := id; MenuDto.name := name; MenuDto.state := st;
     MenuDto.sections := [];
     MenuDto.createdAt := "2024-01-01T00:00:00Z";
     MenuDto.updatedAt := "2024-01-01T00:00:00Z" |}.

Definition now {A} (a : A) : promise A :=
  {| settlesAfter := 1; settlement := Js.Normal a |}.

Definition failed {A} (message : string) : promise A :=
  {| settlesAfter := 1;
     settlement := Js.Throw (Js.ErrorInstance "Error" message) |}.

(** A server, without state of its own, on which another client has
    meanwhile added cafe "c" and on which menu "m2" is the active one. *)
Definition cafeApi : CafeApiService.t unit :=
  {| CafeApiService.listCafes := fun w =>
       (w, now {| ListCafesResponse.cafes := [cafe "b" "Bistro"; cafe "c" "Corner"] |});
     CafeApiService.getCafe := fun id w => (w, now (cafe id "Bistro"));
     CafeApiService.createCafe := fun _ w =>
       (w, now {| CreateCafeResponse.cafeId := "c" |});
     CafeApiService.deleteCafe := fun _ w => (w, now tt) |}.

Definition menuApi : MenuApiService.t unit :=
  {| MenuApiService.listMenus := fun _ w =>
       (w, now {| ListMenusResponse.menus :=
                    [summary "m1" "Lunch" Published; summary "m2" "Dinner" Active] |});
     MenuApiService.getMenu := fun _ id w => (w, now (menu id "Dinner" Active));
     MenuApiService.getActiveMenu := fun _ w => (w, now (menu "m2" "Dinner" Active));
     MenuApiService.createMenu := fun _ _ w =>
       (w, now {| CreateMenuResponse.menuId := "m3" |});
     MenuApiService.updateMenu := fun _ _ _ w => (w, now tt);
     MenuApiService.deleteMenu := fun _ _ w => (w, now tt);
     MenuApiService.cloneMenu := fun _ _ _ w =>
       (w, now {| CreateMenuResponse.menuId := "m4" |});
     MenuApiService.publishMenu := fun _ id w =>
       (w, now {| PublishMenuResponse.menuId := id;
                  PublishMenuResponse.state := Published |});
     MenuApiService.activateMenu := fun _ _ w => (w, now tt) |}.

(** A server that is down: every request is rejected. *)
Definition cafeApiDown : CafeApiService.t unit :=
  {| CafeApiService.listCafes := fun w => (w, failed "API Error");
     CafeApiService.getCafe := fun _ w => (w, failed "API Error");
     CafeApiService.createCafe := fun _ w => (w, failed "Creation failed");
     CafeApiService.deleteCafe := fun _ w => (w, failed "Deletion failed") |}.

Definition menuApiDown : MenuApiService.t unit :=
  {| MenuApiService.listMenus := fun _ w => (w, failed "API Error");
     MenuApiService.getMenu := fun _ _ w => (w, failed "API Error");
     MenuApiService.getActiveMenu := fun _ w => (w, failed "Not Found");
     MenuApiService.createMenu := fun _ _ w => (w, failed "API Error");
     MenuApiService.updateMenu := fun _ _ _ w => (w, failed "API Error");
     MenuApiService.deleteMenu := fun _ _ w => (w, failed "API Error");
     MenuApiService.cloneMenu := fun _ _ _ w => (w, failed "API Error");
     MenuApiService.publishMenu := fun _ _ w => (w, failed "API Error");
     MenuApiService.activateMenu := fun _ _ w => (w, failed "API Error") |}.

Definition start {S} (s : S) : env S unit :=
  {| store := s; server := tt; requests := [] |}.

(** A cafe store holding cafes "a" and "b". *)
Definition cafeState : CafeStore.CafeState :=
  {| CafeStore.cafes := [cafe "a" "Atrium"; cafe "b" "Bistro"];
     CafeStore.selectedCafe := Some (cafe "a" "Atrium");
     CafeStore.loading := false; CafeStore.error := None |}.

(** A menu store whose local copy is stale: it shows two active
    menus. *)
Definition menuState : MenuStore.MenuStoreState :=
  {| MenuStore.menus := [summary "m1" "Lunch" Active; summary "m2" "Dinner" Active];
     MenuStore.selectedMenu := None;
     MenuStore.activeMenu := Some (menu "m1" "Lunch" Active);
     MenuStore.currentCafeId := Some "a";
     MenuStore.loading := false; MenuStore.error := None |}.

(** The menu form with one section, whose name is still empty. *)
Definition menuForm : AbstractControl :=
  FormGroup None false
    [("name", FormControl None false);
     ("sections", FormArray None false
        [FormGroup None false
           [("name", FormControl (Some [("required", Js.VBool true)]) false);
            ("items", FormArray None false [])]])].

(** The cafe dialog as it opens: an empty, untouched form, invalid
    because the name is required. *)
Definition cafeDialog : CafeFormDialogComponent.t :=
  {| CafeFormDialogComponent.cafeForm :=
       FormGroup None false
         [("name", FormControl (Some [("required", Js.VBool true)]) false);
          ("contactInfo", FormControl None false)];
     CafeFormDialogComponent.cafeFormStatus := INVALID;
     CafeFormDialogComponent.nameValue := Some "";
     CafeFormDialogComponent.contactInfoValue := Some "";
     CafeFormDialogComponent.closedWith := [] |}.

(** The menu form page on a new menu of cafe "a", the form invalid. *)
Definition menuPage : MenuFormPageComponent.t :=
  {| MenuFormPageComponent.menuForm := menuForm;
     MenuFormPageComponent.menuFormStatus := INVALID;
     MenuFormPageComponent.isSubmitting := false;
     MenuFormPageComponent.cafeId := Some "a";
     MenuFormPageComponent.menuId := None;
     MenuFormPageComponent.navigations := [] |}.

Definition menuData (form : AbstractControl) : MenuRequest :=
  {| menuName := "Lunch"; menuSections := [] |}.

Definition fieldError (field message : string) : ValidationError :=
  {| FormErrorMapperService.message := message; code := None;
     FormErrorMapperService.field := Some field |}.

End Examples.

(* ================================================================== *)
(** ** Vocabulary of the form properties *)

Import Forms FormErrorMapperService.

(** The controls a node owns, in order. *)
Definition children (c : AbstractControl) : list AbstractControl :=
  match c with
  | FormControl _ _ => []
  | FormGroup _ _ cs => map snd cs
  | FormArray _ _ cs => cs
  end.

(** The node reached from [c] by going down to the child at each
    position of [path] in turn: every node of the tree has such a
    path. *)
Fixpoint nodeAt (path : list nat) (c : AbstractControl) : option AbstractControl :=
  match path with
  | [] => Some c
  | i :: rest =>
      match children c !! i with
      | Some child => nodeAt rest child
      | None => None
      end
  end.

(** An error whose field, if it has one, is not the name of a member
    of [Object.prototype]. *)
Definition plainField (e : ValidationError) : bool :=
  match field e with
  | Some f => negb (Js.inherited f)
  | None => true
  end.

(** [errs?.[key]]. *)
Definition lookupError (errs : option ValidationErrors) (key : string)
  : option Js.value :=
  match errs with
  | Some e => Js.get e key
  | None => None
  end.

(** What [clearFormErrors] does to a node below the one it is called
    on. *)
Definition clearNode (c : AbstractControl) : AbstractControl :=
  match c with
  | FormControl e t => FormControl (withoutBackend e) t
  | FormGroup _ _ _ | FormArray _ _ _ => clearFormErrors c
  end.


(** The tree with its errors and touched flags erased: which paths
    resolve depends on this alone. *)
Fixpoint shape (c : AbstractControl) : AbstractControl :=
  match c with
  | FormControl _ _ => FormControl None false
  | FormGroup _ _ cs =>
      FormGroup None false (map (fun kc => (fst kc, shape (snd kc))) cs)
  | FormArray _ _ cs => FormArray None false (map shape cs)
  end.

(** The backend field [k] names a control of [form]. *)
Definition resolves (form : AbstractControl) (k : string) : bool :=
  match getControl form (toFormFieldName k) with
  | Some _ => true
  | None => false
  end.

(** The step of [groupErrorsByField] when it does not throw. *)
Definition groupStepPlain (acc : Js.object (list ValidationError))
    (error : ValidationError) : Js.object (list ValidationError) :=
  match field error with
  | Some f =>
      if Js.truthyString (Some f) then
        match Js.get acc f with
        | Some group => Js.set acc f (group ++ [error])%list
        | None => Js.set acc f [error]
        end
      else acc
  | None => acc
  end.

(** The properties of an object whose key satisfies [P]. *)
Definition selected {A} (P : string -> bool) (p : string * A) : bool := P (fst p).

(** The order [Object.entries] puts array-index keys in. *)
Definition indexOrder {A} (p q : string * A) : Prop :=
  Js.digitsValue 0 (fst p) <= Js.digitsValue 0 (fst q).

(** A function on controls that leaves the kind of a node and the
    controls it owns as they are. *)
Definition keepsChildren (up : AbstractControl -> AbstractControl) : Prop :=
  forall c,
    match c, up c with
    | FormControl _ _, FormControl _ _ => True
    | FormGroup _ _ cs, FormGroup _ _ cs' => cs = cs'
    | FormArray _ _ cs, FormArray _ _ cs' => cs = cs'
    | _, _ => False
    end.

(** A group or an array: what [clearFormErrors] is called on. *)
Definition isContainer (c : AbstractControl) : bool :=
  match c with
  | FormControl _ _ => false
  | FormGroup _ _ _ | FormArray _ _ _ => true
  end.

(* ================================================================== *)
(** ** Further vocabulary for the stores *)

(** After a call [loading] is off, and [error] is null exactly when
    none of the requests the call sent was rejected. *)
Definition settles {S W A} (loading : S -> bool) (error : S -> option string)
    (m : async S W A) : Prop :=
  forall e,
    loading (store (fst (m e))) = false
    /\ (error (store (fst (m e))) = None <-> anyRejected (sent e (fst (m e))) = false).

(** What a call that refreshes after a mutation sends: the mutation
    alone when it is rejected, else the mutation and every one of the
    [refresh] requests. *)
Definition sendsThenRefreshes (mutation : Request) (refresh : list Request)
    (l : list (Request * bool)) : Prop :=
  l = [(mutation, false)]
  \/ exists outcomes,
       length outcomes = length refresh
       /\ l = (mutation, true) :: zip refresh outcomes.

(** The selection after deleting [id]. *)
Definition unlessDeleted {A} (id_of : A -> string) (id : string)
    (selected : option A) : option A :=
  match selected with
  | Some x => if String.eqb (id_of x) id then None else Some x
  | None => None
  end.

Module MoreExamples.
Import Forms.

(** The menu form page on the menu "m1" of cafe "a", its form valid. *)
Definition editPage : MenuFormPageComponent.t :=
  {| MenuFormPageComponent.menuForm := Examples.menuForm;
     MenuFormPageComponent.menuFormStatus := VALID;
     MenuFormPageComponent.isSubmitting := false;
     MenuFormPageComponent.cafeId := Some "a";
     MenuFormPageComponent.menuId := Some "m1";
     MenuFormPageComponent.navigations := [] |}.

(** The cafe dialog filled in with a name and no contact. *)
Definition filledDialog : CafeFormDialogComponent.t :=
  {| CafeFormDialogComponent.cafeForm :=
       FormGroup None true
         [("name", FormControl None true);
          ("contactInfo", FormControl None false)];
     CafeFormDialogComponent.cafeFormStatus := VALID;
     CafeFormDialogComponent.nameValue := Some "Corner";
     CafeFormDialogComponent.contactInfoValue := Some "";
     CafeFormDialogComponent.closedWith := [] |}.

(** Servers that accept every mutation and reject the requests for a
    list. *)
Definition cafeApiListDown : CafeApiService.t unit :=
  {| CafeApiService.listCafes := fun w => (w, Examples.failed "API Error");
     CafeApiService.getCafe := CafeApiService.getCafe Examples.cafeApi;
     CafeApiService.createCafe := CafeApiService.createCafe Examples.cafeApi;
     CafeApiService.deleteCafe := CafeApiService.deleteCafe Examples.cafeApi |}.

Definition menuApiListDown : MenuApiService.t unit :=
  {| MenuApiService.listMenus := fun _ w => (w, Examples.failed "API Error");
     MenuApiService.getMenu := MenuApiService.getMenu Examples.menuApi;
     MenuApiService.getActiveMenu := MenuApiService.getActiveMenu Examples.menuApi;
     MenuApiService.createMenu := MenuApiService.createMenu Examples.menuApi;
     MenuApiService.updateMenu := MenuApiService.updateMenu Examples.menuApi;
     MenuApiService.deleteMenu := MenuApiService.deleteMenu Examples.menuApi;
     MenuApiService.cloneMenu := MenuApiService.cloneMenu Examples.menuApi;
     MenuApiService.publishMenu := MenuApiService.publishMenu Examples.menuApi;
     MenuApiService.activateMenu := MenuApiService.activateMenu Examples.menuApi |}.

End MoreExamples.

(* ================================================================== *)
(** ** Sections of the menu form and their expansion *)

(** A [Set<number>]: its elements in insertion order. *)
Module JsSet.

Definition t : Type := list nat.

Definition has (s : t) (x : nat) : bool := existsb (Nat.eqb x) s.

Definition add (s : t) (x : nat) : t := if has s x then s else (s ++ [x])%list.

Definition delete (s : t) (x : nat) : t :=
  List.filter (fun y => negb (Nat.eqb y x)) s.

End JsSet.

(** [moveItemInArray] of the CDK: both indices are clamped to the
    array, and the element at the first is taken out and put back at
    the second, the elements in between moving by one place. *)
Definition moveItemInArray {A} (array : list A) (fromIndex toIndex : nat) : list A :=
  let from := Nat.min fromIndex (length array - 1) in
  let to := Nat.min toIndex (length array - 1) in
  if (from =? to)%nat then array
  else
    match array !! from with
    | Some target =>
        let others := delete from array in
        (take to others ++ target :: drop to others)%list
    | None => array
    end.

(** The part of [MenuFormPageComponent] that holds the sections of the
    form, the controls of the array [menuForm.get('sections')], and
    the set of the indices of the expanded ones. *)
Module MenuFormSections.
Section Sections.
Context {A : Type}.

Record t : Type := {
  sections : list A;
  expandedSectionsSet : JsSet.t;
}.

(** [addSection], given the group [createSectionGroup] builds. *)
Definition addSection (section : A) (c : t) : t :=
  let sections := (sections c ++ [section])%list in
  (* Expand new section by default *)
  let newIndex := (length sections - 1)%nat in
  {| sections := sections;
     expandedSectionsSet := JsSet.add (expandedSectionsSet c) newIndex |}.

(** [removeSection]: [removeAt] takes the control out when there is
    one at [index]; the set is rebuilt from the indices on either side
    of [index]. *)
Definition removeSection (index : nat) (c : t) : t :=
  {| sections := delete index (sections c);
     (* Remove from expanded set and update indices *)
     expandedSectionsSet :=
       fold_left
         (fun newSet i =>
            if (index <? i)%nat then JsSet.add newSet (i - 1)
            else if (i <? index)%nat then JsSet.add newSet i
            else newSet)
         (expandedSectionsSet c) [] |}.

Definition toggleSection (index : nat) (c : t) : t :=
  {| sections := sections c;
     expandedSectionsSet :=
       if JsSet.has (expandedSectionsSet c) index
       then JsSet.delete (expandedSectionsSet c) index
       else JsSet.add (expandedSectionsSet c) index |}.

Definition isSectionExpanded (index : nat) (c : t) : bool :=
  JsSet.has (expandedSectionsSet c) index.

(** [dropSection]: the controls are reordered; the set is not touched. *)
Definition dropSection (previousIndex currentIndex : nat) (c : t) : t :=
  {| sections := moveItemInArray (sections c) previousIndex currentIndex;
     expandedSectionsSet := expandedSectionsSet c |}.

(** What the template can ask for: it renders one section component
    per control, so an index it passes is the index of a section. *)
Inductive action : Type :=
| AddSection (section : A)
| RemoveSection (index : nat)
| ToggleSection (index : nat)
| DropSection (previousIndex currentIndex : nat).

Definition offered (a : action) (c : t) : bool :=
  match a with
  | AddSection _ => true
  | RemoveSection index | ToggleSection index => (index <? length (sections c))%nat
  | DropSection previousIndex currentIndex =>
      (previousIndex <? length (sections c))%nat
      && (currentIndex <? length (sections c))%nat
  end.

Definition perform (a : action) (c : t) : t :=
  match a with
  | AddSection section => addSection section c
  | RemoveSection index => removeSection index c
  | ToggleSection index => toggleSection index c
  | DropSection previousIndex currentIndex => dropSection previousIndex currentIndex c
  end.

(** A run of actions, each offered by the state it acts on. *)
Fixpoint performAll (actions : list action) (c : t) : option t :=
  match actions with
  | [] => Some c
  | a :: rest => if offered a c then performAll rest (perform a c) else None
  end.

End Sections.
Arguments t : clear implicits.
Arguments action : clear implicits.
End MenuFormSections.

(* ================================================================== *)
(** ** LoadingService *)

Module LoadingService.

Record t : Type := {
  loadingCount : Z;
  isLoading : bool;
}.

Definition initial : t := {| loadingCount := 0; isLoading := false |}.

Definition show (s : t) : t :=
  let count := loadingCount s + 1 in
  {| loadingCount := count; isLoading := 0 <? count |}.

Definition hide (s : t) : t :=
  let count := Z.max 0 (loadingCount s - 1) in
  {| loadingCount := count; isLoading := 0 <? count |}.

Inductive call : Type := Show | Hide.

Definition perform (c : call) (s : t) : t :=
  match c with
  | Show => show s
  | Hide => hide s
  end.

Definition performAll (calls : list call) (s : t) : t :=
  fold_left (fun s c => perform c s) calls s.


End LoadingService.

(* ================================================================== *)
(** ** The retry interceptor *)

Module RetryInterceptor.

Definition MAX_RETRIES : nat := 2.
Definition RETRY_DELAY_MS : Z := 1000.

(** What one attempt of a request ends with: a response, or an
    [HttpErrorResponse] with its status. *)
Inductive attempt (A : Type) : Type :=
| Responded (a : A)
| Failed (status : Z).
Arguments Responded {A} a.
Arguments Failed {A} status.

(** What the caller of the interceptor sees, with the number of
    attempts made and the time spent waiting between them. *)
Record outcome (A : Type) : Type := {
  result : attempt A;
  attempts : nat;
  waited : Z;
}.
Arguments result {A} _.
Arguments attempts {A} _.
Arguments waited {A} _.

(** Only retry on network errors or 5xx server errors. *)
Definition retryable (status : Z) : bool := (status =? 0) || (500 <=? status).

(** [retry({count, delay})] around [next(req)]: every subscription
    sends the request again, and [next n] is what the attempt after
    [n] failed ones ends with. [soFar] counts the errors seen,
    [remaining] the retries left. *)
Fixpoint retry {A} (next : nat -> attempt A) (remaining soFar : nat) (waited : Z)
  : outcome A :=
  match next soFar with
  | Responded a =>
      {| result := Responded a; attempts := S soFar; waited := waited |}
  | Failed status =>
      match remaining with
      | O => {| result := Failed status; attempts := S soFar; waited := waited |}
      | S k =>
          let retryCount := S soFar in
          if retryable status
          then retry next k retryCount (waited + RETRY_DELAY_MS * Z.of_nat retryCount)
          else {| result := Failed status; attempts := S soFar; waited := waited |}
      end
  end.

(** [s.includes(needle)]. *)
Fixpoint includes (needle s : string) : bool :=
  String.prefix needle s
  || match s with
     | String _ rest => includes needle rest
     | EmptyString => false
     end.

Definition retryInterceptor {A} (url : string) (next : nat -> attempt A) : outcome A :=
  (* Don't retry translation file requests *)
  if includes "/i18n/" url
  then {| result := next O; attempts := 1; waited := 0 |}
  else retry next MAX_RETRIES 0 0.

End RetryInterceptor.

(* ================================================================== *)
(** ** Vocabulary of the further mapper properties *)

(** An error the form has a place for: one without a field, which
    goes to the form itself, or one whose field names a control. *)
Definition addressesControl (form : AbstractControl) (e : ValidationError) : bool :=
  match field e with
  | Some f => if Js.truthyString (Some f) then resolves form f else true
  | None => true
  end.

(** The errors [applyToForm] puts on the form itself. *)
Definition generalErrors (errors : list ValidationError) : list ValidationError :=
  List.filter (fun e => negb (Js.truthyString (field e))) errors.

(** The own keys of an object are no names of members of
    [Object.prototype]. *)
Definition plainKeys {A} (o : Js.object A) : bool :=
  forallb (fun p => negb (Js.inherited (fst p))) o.

(* ================================================================== *)
(** ** The value of the menu form: loading a menu and building the
       request *)

Module FormIngredient.
Record t : Type := { name : string; isExcludable : bool }.
End FormIngredient.

(** The value of an item group. The amount and the names are
    required, and the payload is built from a valid form only, so they
    have a value; the controls that may be empty hold [null] as
    [None]. *)
Module FormItem.
Record t : Type := {
  name : string;
  description : option string;
  priceAmount : Q;
  priceCurrency : string;
  priceUnit : PriceUnit;
  priceDiscount : option Q;
  ingredients : list FormIngredient.t;
}.
End FormItem.

Module FormSection.
Record t : Type := {
  name : string;
  availableFrom : option string;
  availableTo : option string;
  items : list FormItem.t;
}.
End FormSection.

Module MenuFormValue.
Import Async.

(** [menuForm.value] with the set of expanded sections. *)
Record t : Type := {
  name : string;
  sections : MenuFormSections.t FormSection.t;
}.

(** [value || null] on a string. *)
Definition orNull (value : option string) : option string :=
  if Js.truthyString value then value else None.

(** The group [loadMenu] pushes for an item: [createItemGroup] with
    every one of its controls patched, and an ingredient group pushed
    for each ingredient. *)
Definition itemGroup (item : MenuItemDto.t) : FormItem.t :=
  {| FormItem.name := MenuItemDto.name item;
     FormItem.description := MenuItemDto.description item;
     FormItem.priceAmount := PriceDto.amount (MenuItemDto.price item);
     FormItem.priceCurrency := PriceDto.currency (MenuItemDto.price item);
     FormItem.priceUnit := PriceDto.unit (MenuItemDto.price item);
     FormItem.priceDiscount := Some (PriceDto.discount (MenuItemDto.price item));
     FormItem.ingredients :=
       map (fun ingredient =>
              {| FormIngredient.name := IngredientDto.name ingredient;
                 FormIngredient.isExcludable := IngredientDto.isExcludable ingredient |})
         (MenuItemDto.ingredients item) |}.

(** The group [loadMenu] pushes for a section. *)
Definition sectionGroup (section : SectionDto.t) : FormSection.t :=
  {| FormSection.name := SectionDto.name section;
     FormSection.availableFrom := SectionDto.availableFrom section;
     FormSection.availableTo := SectionDto.availableTo section;
     FormSection.items := map itemGroup (SectionDto.items section) |}.

(** The [forEach] of [loadMenu] from position [index] on: the section
    group is pushed and its index expanded. *)
Fixpoint pushSections (index : nat) (sections : list SectionDto.t)
    (c : MenuFormSections.t FormSection.t) : MenuFormSections.t FormSection.t :=
  match sections with
  | [] => c
  | section :: rest =>
      pushSections (S index) rest
        {| MenuFormSections.sections :=
             (MenuFormSections.sections c ++ [sectionGroup section])%list;
           MenuFormSections.expandedSectionsSet :=
             JsSet.add (MenuFormSections.expandedSectionsSet c) index |}
  end.

(** What [loadMenu] does with the menu it finds selected. *)
Definition populate (menu : MenuDto.t) (c : t) : t :=
  {| name := MenuDto.name menu;
     (* Clear existing sections and populate from loaded menu *)
     sections :=
       pushSections 0 (MenuDto.sections menu)
         {| MenuFormSections.sections := [];
            MenuFormSections.expandedSectionsSet := [] |} |}.

Section LoadMenu.
Context {W : Type} (menuApi : MenuApiService.t W).

Definition loadMenu (cafeId menuId : string)
  : async (t * MenuStore.MenuStoreState) W unit :=
  inStore (MenuStore.loadMenu menuApi cafeId menuId) ;;;
  cs <- getState ;;
  match MenuStore.selectedMenu (snd cs) with
  | Some menu => inComponent (populate menu)
  | None => ret tt
  end.

End LoadMenu.

(** The [menuData] of [onSubmit]. The objects it builds have no [id];
    a missing [id] is [None], as a null one. *)
Definition menuData (formValue : t) : MenuRequest :=
  {| menuName := name formValue;
     menuSections :=
       map (fun section =>
              {| SectionDto.id := None;
                 SectionDto.name := FormSection.name section;
                 SectionDto.availableFrom := orNull (FormSection.availableFrom section);
                 SectionDto.availableTo := orNull (FormSection.availableTo section);
                 SectionDto.items :=
                   map (fun item =>
                          {| MenuItemDto.id := None;
                             MenuItemDto.name := FormItem.name item;
                             MenuItemDto.description := orNull (FormItem.description item);
                             MenuItemDto.price :=
                               {| PriceDto.amount := FormItem.priceAmount item;
                                  PriceDto.currency := FormItem.priceCurrency item;
                                  PriceDto.unit := FormItem.priceUnit item;
                                  PriceDto.discount :=
                                    MenuItemComponent.orZero (FormItem.priceDiscount item) |};
                             MenuItemDto.image := None;
                             MenuItemDto.ingredients :=
                               map (fun ing =>
                                      {| IngredientDto.name := FormIngredient.name ing;
                                         IngredientDto.isExcludable :=
                                           FormIngredient.isExcludable ing |})
                                 (FormItem.ingredients item) |})
                     (FormSection.items section) |})
         (MenuFormSections.sections (sections formValue)) |}.

End MenuFormValue.

(** What is left of an item, and of a section, that went into the
    form and came back in the request: no [id] and no [image], the
    empty string as [null], and everything else as it was. *)
Definition sentAs_item (item sentItem : MenuItemDto.t) : Prop :=
  MenuItemDto.id sentItem = None
  /\ MenuItemDto.image sentItem = None
  /\ MenuItemDto.name sentItem = MenuItemDto.name item
  /\ MenuItemDto.description sentItem
     = MenuFormValue.orNull (MenuItemDto.description item)
  /\ PriceDto.amount (MenuItemDto.price sentItem) = PriceDto.amount (MenuItemDto.price item)
  /\ PriceDto.currency (MenuItemDto.price sentItem)
     = PriceDto.currency (MenuItemDto.price item)
  /\ PriceDto.unit (MenuItemDto.price sentItem) = PriceDto.unit (MenuItemDto.price item)
  /\ (PriceDto.discount (MenuItemDto.price sentItem)
      == PriceDto.discount (MenuItemDto.price item))%Q
  /\ MenuItemDto.ingredients sentItem = MenuItemDto.ingredients item.

Definition sentAs_section (section sentSection : SectionDto.t) : Prop :=
  SectionDto.id sentSection = None
  /\ SectionDto.name sentSection = SectionDto.name section
  /\ SectionDto.availableFrom sentSection
     = MenuFormValue.orNull (SectionDto.availableFrom section)
  /\ SectionDto.availableTo sentSection
     = MenuFormValue.orNull (SectionDto.availableTo section)
  /\ Forall2 sentAs_item (SectionDto.items section) (SectionDto.items sentSection).

(* ================================================================== *)
(** ** ThemeService, in a browser *)

Module ThemeService.

Inductive Theme : Type := light | dark.

Definition STORAGE_KEY : string := "smartcafe-theme".

(** What the service reads and writes of the browser: the local
    storage, whether the root element has the class [dark-theme], and
    whether the system prefers dark. *)
Record Browser : Type := {
  localStorage : Js.object string;
  darkClass : bool;
  prefersDark : bool;
}.

Definition themeString (theme : Theme) : string :=
  match theme with
  | light => "light"
  | dark => "dark"
  end.

Definition loadTheme (b : Browser) : Theme :=
  match Js.get (localStorage b) STORAGE_KEY with
  | Some "light" => light
  | Some "dark" => dark
  | _ =>
      (* Check system preference *)
      if prefersDark b then dark else light
  end.

Definition applyTheme (theme : Theme) (b : Browser) : Browser :=
  {| localStorage := localStorage b;
     darkClass := match theme with dark => true | light => false end;
     prefersDark := prefersDark b |}.

Definition saveTheme (theme : Theme) (b : Browser) : Browser :=
  {| localStorage := Js.set (localStorage b) STORAGE_KEY (themeString theme);
     darkClass := darkClass b;
     prefersDark := prefersDark b |}.

(** The service with the browser it runs in. *)
Record t : Type := {
  currentTheme : Theme;
  browser : Browser;
}.

(** A run of the effect of the constructor. *)
Definition runEffect (s : t) : t :=
  {| currentTheme := currentTheme s;
     browser := saveTheme (currentTheme s) (applyTheme (currentTheme s) (browser s)) |}.

(** The constructor, with the first run of its effect. *)
Definition create (b : Browser) : t :=
  let theme := loadTheme b in
  runEffect {| currentTheme := theme; browser := applyTheme theme b |}.

Definition toggleTheme (s : t) : t :=
  {| currentTheme := match currentTheme s with light => dark | dark => light end;
     browser := browser s |}.

Definition setTheme (theme : Theme) (s : t) : t :=
  {| currentTheme := theme; browser := browser s |}.

(** The calls made between two runs of the effect. *)
Inductive call : Type := ToggleTheme | SetTheme (theme : Theme).

Definition perform (c : call) (s : t) : t :=
  match c with
  | ToggleTheme => toggleTheme s
  | SetTheme theme => setTheme theme s
  end.

Definition performAll (calls : list call) (s : t) : t :=
  fold_left (fun s c => perform c s) calls s.

End ThemeService.

(* ================================================================== *)
(** ** Proofs: running an async method *)

Lemma sent_app {S W} (e e' : env S W) l :
  requests e' = (requests e ++ l)%list -> sent e e' = l.
Proof. intros H. unfold sent. rewrite H. apply drop_app_length. Qed.

(** Unfolds the combinators of a method's body. *)
Ltac run_async :=
  unfold MenuStore.failWith,
    tryCatch, tryFinally, bind, ret, patchState, getState, firstValueFrom, await,
    inStore, inComponent, all3, all2;
  simpl.

(** Cases on the answer to each request and on which of two rejections
    came first. *)
Ltac split_calls :=
  repeat match goal with
    | |- context [let (_, _) := ?call ?w in _] =>
        let w' := fresh "w" in
        let n := fresh "n" in let c := fresh "c" in
        destruct (call w) as [w' [n [c|c]]] eqn:?; simpl
    | |- context [if (?a <? ?b)%nat then _ else _] =>
        destruct (a <? b)%nat; simpl
    end.

Ltac sent_simpl :=
  repeat match goal with
    | |- context [sent ?e ?e'] =>
        erewrite (sent_app e e')
          by (simpl; rewrite <- ?app_assoc; reflexivity); simpl
    | H : context [sent ?e ?e'] |- _ =>
        erewrite (sent_app e e') in H
          by (simpl; rewrite <- ?app_assoc; reflexivity); simpl in H
    end.

Ltac fails_cleanly :=
  intros e; run_async; split_calls;
  do 2 eexists; (split; [reflexivity|]); sent_simpl; intros Hrej;
  try discriminate Hrej;
  unfold cafeFrame, menuFrame; simpl; eauto 10.

Ltac reports_failure :=
  intros e; run_async; split_calls;
  eexists; (split; [reflexivity|]); sent_simpl; intros Hrej;
  try discriminate Hrej; simpl; eauto.

(** From [H : method e = (e', Normal success)]: the run that succeeded. *)
Ltac on_success H :=
  revert H; run_async; unfold answer, after; split_calls; intros H;
  try discriminate H; simplify_eq; sent_simpl.

(* ================================================================== *)
(** ** Proofs: the stores *)

Section StoreProperties.
Context {W : Type} (cafeApi : CafeApiService.t W) (menuApi : MenuApiService.t W).

(** C2. After [activateMenu] resolves to [true], the store's [menus]
    are the list the server returned to the refresh; so, when every
    list the server returns for the cafe has at most one Active menu,
    at most one menu of the store is Active, whatever the store held
    before. *)
Theorem activateMenu_at_most_one_active (cafeId menuId : string)
    (e e' : env MenuStore.MenuStoreState W) :
  (forall w response,
      answer (MenuApiService.listMenus menuApi cafeId) w = Some response ->
      atMostOneActive (ListMenusResponse.menus response)) ->
  MenuStore.activateMenu menuApi cafeId menuId e = (e', Js.Normal true) ->
  atMostOneActive (MenuStore.menus (store e'))
  /\ (length (MenuStore.activeMenus (store e')) <= 1)%nat.
Proof.
  intros Hserver H.
  assert (Hmenus : exists w response,
             answer (MenuApiService.listMenus menuApi cafeId) w = Some response
             /\ MenuStore.menus (store e') = ListMenusResponse.menus response).
  { unfold MenuStore.activateMenu in H. revert H. run_async. split_calls.
    all: intros H; try discriminate H; simplify_eq.
    eexists w1, _. unfold answer. rewrite Heqp2. simpl. eauto. }
  destruct Hmenus as (w & response & Hanswer & Hmenus).
  unfold MenuStore.activeMenus. rewrite Hmenus.
  split; eapply Hserver; eassumption.
Qed.

(** C3 (amended). Once its mutation request is fulfilled, each of the
    create, update, clone, publish and activate methods sends every one
    of the requests that re-fetch its slices before it resolves. When
    all of them are fulfilled it stores what they returned and resolves
    to the id or to [true]; when one of them is rejected it resolves to
    null or [false] and the slices are as they were. [deleteCafe] and
    [deleteMenu] send the delete request only and, once it is
    fulfilled, filter the collection they hold. *)
Theorem mutations_refetch_except_delete :
  (forall request e response,
      answer (CafeApiService.createCafe cafeApi request) (server e) = Some response ->
      let run := CafeStore.createCafe cafeApi request e in
      let w1 := after (CafeApiService.createCafe cafeApi request) (server e) in
      sent e (fst run)
      = [(CreateCafe request, true);
         (ListCafes, fulfilled (settlement (snd (CafeApiService.listCafes cafeApi w1))))]
      /\ match answer (CafeApiService.listCafes cafeApi) w1 with
         | Some list =>
             snd run = Js.Normal (Some (CreateCafeResponse.cafeId response))
             /\ CafeStore.cafes (store (fst run)) = ListCafesResponse.cafes list
         | None =>
             snd run = Js.Normal None
             /\ CafeStore.cafes (store (fst run)) = CafeStore.cafes (store e)
         end)
  /\ (forall cafeId request e response,
      answer (MenuApiService.createMenu menuApi cafeId request) (server e)
      = Some response ->
      let run := MenuStore.createMenu menuApi cafeId request e in
      let w1 := after (MenuApiService.createMenu menuApi cafeId request) (server e) in
      sent e (fst run)
      = [(CreateMenu cafeId request, true);
         (ListMenus cafeId,
          fulfilled (settlement (snd (MenuApiService.listMenus menuApi cafeId w1))))]
      /\ match answer (MenuApiService.listMenus menuApi cafeId) w1 with
         | Some list =>
             snd run = Js.Normal (Some (CreateMenuResponse.menuId response))
             /\ MenuStore.menus (store (fst run)) = ListMenusResponse.menus list
         | None =>
             snd run = Js.Normal None
             /\ MenuStore.menus (store (fst run)) = MenuStore.menus (store e)
         end)
  /\ (forall cafeId menuId request e,
      answer (MenuApiService.updateMenu menuApi cafeId menuId request) (server e)
      = Some tt ->
      let run := MenuStore.updateMenu menuApi cafeId menuId request e in
      let w1 := after (MenuApiService.updateMenu menuApi cafeId menuId request) (server e) in
      let w2 := after (MenuApiService.getMenu menuApi cafeId menuId) w1 in
      sent e (fst run)
      = [(UpdateMenu cafeId menuId request, true);
         (GetMenu cafeId menuId,
          fulfilled (settlement (snd (MenuApiService.getMenu menuApi cafeId menuId w1))));
         (ListMenus cafeId,
          fulfilled (settlement (snd (MenuApiService.listMenus menuApi cafeId w2))))]
      /\ match answer (MenuApiService.getMenu menuApi cafeId menuId) w1,
               answer (MenuApiService.listMenus menuApi cafeId) w2 with
         | Some menu, Some list =>
             snd run = Js.Normal true
             /\ MenuStore.selectedMenu (store (fst run)) = Some menu
             /\ MenuStore.menus (store (fst run)) = ListMenusResponse.menus list
         | _, _ =>
             snd run = Js.Normal false
             /\ MenuStore.selectedMenu (store (fst run)) = MenuStore.selectedMenu (store e)
             /\ MenuStore.menus (store (fst run)) = MenuStore.menus (store e)
         end)
  /\ (forall cafeId menuId newName e response,
      answer (MenuApiService.cloneMenu menuApi cafeId menuId newName) (server e)
      = Some response ->
      let run := MenuStore.cloneMenu menuApi cafeId menuId newName e in
      let w1 := after (MenuApiService.cloneMenu menuApi cafeId menuId newName) (server e) in
      sent e (fst run)
      = [(CloneMenu cafeId menuId newName, true);
         (ListMenus cafeId,
          fulfilled (settlement (snd (MenuApiService.listMenus menuApi cafeId w1))))]
      /\ match answer (MenuApiService.listMenus menuApi cafeId) w1 with
         | Some list =>
             snd run = Js.Normal (Some (CreateMenuResponse.menuId response))
             /\ MenuStore.menus (store (fst run)) = ListMenusResponse.menus list
         | None =>
             snd run = Js.Normal None
             /\ MenuStore.menus (store (fst run)) = MenuStore.menus (store e)
         end)
  /\ (forall cafeId menuId e response,
      answer (MenuApiService.publishMenu menuApi cafeId menuId) (server e)
      = Some response ->
      let run := MenuStore.publishMenu menuApi cafeId menuId e in
      let w1 := after (MenuApiService.publishMenu menuApi cafeId menuId) (server e) in
      let w2 := after (MenuApiService.getMenu menuApi cafeId menuId) w1 in
      sent e (fst run)
      = [(PublishMenu cafeId menuId, true);
         (GetMenu cafeId menuId,
          fulfilled (settlement (snd (MenuApiService.getMenu menuApi cafeId menuId w1))));
         (ListMenus cafeId,
          fulfilled (settlement (snd (MenuApiService.listMenus menuApi cafeId w2))))]
      /\ match answer (MenuApiService.getMenu menuApi cafeId menuId) w1,
               answer (MenuApiService.listMenus menuApi cafeId) w2 with
         | Some menu, Some list =>
             snd run = Js.Normal true
             /\ MenuStore.selectedMenu (store (fst run)) = Some menu
             /\ MenuStore.menus (store (fst run)) = ListMenusResponse.menus list
         | _, _ =>
             snd run = Js.Normal false
             /\ MenuStore.selectedMenu (store (fst run)) = MenuStore.selectedMenu (store e)
             /\ MenuStore.menus (store (fst run)) = MenuStore.menus (store e)
         end)
  /\ (forall cafeId menuId e,
      answer (MenuApiService.activateMenu menuApi cafeId menuId) (server e) = Some tt ->
      let run := MenuStore.activateMenu menuApi cafeId menuId e in
      let w1 := after (MenuApiService.activateMenu menuApi cafeId menuId) (server e) in
      let w2 := after (MenuApiService.getMenu menuApi cafeId menuId) w1 in
      let w3 := after (MenuApiService.getActiveMenu menuApi cafeId) w2 in
      sent e (fst run)
      = [(ActivateMenu cafeId menuId, true);
         (GetMenu cafeId menuId,
          fulfilled (settlement (snd (MenuApiService.getMenu menuApi cafeId menuId w1))));
         (GetActiveMenu cafeId,
          fulfilled (settlement (snd (MenuApiService.getActiveMenu menuApi cafeId w2))));
         (ListMenus cafeId,
          fulfilled (settlement (snd (MenuApiService.listMenus menuApi cafeId w3))))]
      /\ match answer (MenuApiService.getMenu menuApi cafeId menuId) w1,
               answer (MenuApiService.getActiveMenu menuApi cafeId) w2,
               answer (MenuApiService.listMenus menuApi cafeId) w3 with
         | Some menu, Some activeMenu, Some list =>
             snd run = Js.Normal true
             /\ MenuStore.selectedMenu (store (fst run)) = Some menu
             /\ MenuStore.activeMenu (store (fst run)) = Some activeMenu
             /\ MenuStore.menus (store (fst run)) = ListMenusResponse.menus list
         | _, _, _ =>
             snd run = Js.Normal false
             /\ MenuStore.selectedMenu (store (fst run)) = MenuStore.selectedMenu (store e)
             /\ MenuStore.activeMenu (store (fst run)) = MenuStore.activeMenu (store e)
             /\ MenuStore.menus (store (fst run)) = MenuStore.menus (store e)
         end)
  /\ (forall cafeId e,
      answer (CafeApiService.deleteCafe cafeApi cafeId) (server e) = Some tt ->
      let run := CafeStore.deleteCafe cafeApi cafeId e in
      sent e (fst run) = [(DeleteCafe cafeId, true)]
      /\ snd run = Js.Normal true
      /\ CafeStore.cafes (store (fst run))
         = List.filter (fun c => negb (String.eqb (CafeDto.id c) cafeId))
             (CafeStore.cafes (store e)))
  /\ (forall cafeId menuId e,
      answer (MenuApiService.deleteMenu menuApi cafeId menuId) (server e) = Some tt ->
      let run := MenuStore.deleteMenu menuApi cafeId menuId e in
      sent e (fst run) = [(DeleteMenu cafeId menuId, true)]
      /\ snd run = Js.Normal true
      /\ MenuStore.menus (store (fst run))
         = List.filter (fun m => negb (String.eqb (MenuSummaryDto.menuId m) menuId))
             (MenuStore.menus (store e))).
Proof.
  repeat apply conj; intros.
  all: repeat match goal with x := _ |- _ => subst x end.
  all: match goal with H : answer _ _ = Some _ |- _ => revert H end.
  all: unfold CafeStore.createCafe, CafeStore.deleteCafe, MenuStore.createMenu,
         MenuStore.updateMenu, MenuStore.deleteMenu, MenuStore.cloneMenu,
         MenuStore.publishMenu, MenuStore.activateMenu, answer, after.
  all: run_async; split_calls; intros H; try discriminate H; simplify_eq.
  all: sent_simpl; repeat apply conj; reflexivity.
Qed.

(** C4 (amended). Every load method resolves to nothing and never
    throws. [loadCafes], [selectCafe], [loadMenus], [selectMenu] and
    [loadMenu] leave a message in [error] when the request was
    rejected; [loadActiveMenu] instead sets [activeMenu] to null and
    leaves [error] null. *)
Theorem load_methods_never_throw :
  reportsFailure CafeStore.error (CafeStore.loadCafes cafeApi)
  /\ (forall cafeId,
        reportsFailure CafeStore.error (CafeStore.selectCafe cafeApi cafeId))
  /\ (forall cafeId,
        reportsFailure MenuStore.error (MenuStore.loadMenus menuApi cafeId))
  /\ (forall cafeId menuId,
        reportsFailure MenuStore.error (MenuStore.selectMenu menuApi cafeId menuId))
  /\ (forall cafeId menuId,
        reportsFailure MenuStore.error (MenuStore.loadMenu menuApi cafeId menuId))
  /\ (forall cafeId e, exists e',
        MenuStore.loadActiveMenu menuApi cafeId e = (e', Js.Normal tt)
        /\ (anyRejected (sent e e') = true ->
            MenuStore.activeMenu (store e') = None
            /\ MenuStore.error (store e') = None
            /\ MenuStore.loading (store e') = false)).
Proof.
  repeat split; intros.
  - unfold CafeStore.loadCafes. reports_failure.
  - unfold CafeStore.selectCafe. reports_failure.
  - unfold MenuStore.loadMenus. reports_failure.
  - unfold MenuStore.selectMenu. reports_failure.
  - unfold MenuStore.loadMenu, MenuStore.selectMenu. reports_failure.
  - unfold MenuStore.loadActiveMenu. run_async; split_calls;
      eexists; (split; [reflexivity|]); sent_simpl; intros Hrej;
      try discriminate Hrej; simpl; eauto.
Qed.

(** C10. Each mutating method of the two stores never throws, and
    when one of the requests it sent was rejected it resolves to
    null/false having changed [loading] and [error] only. *)
Theorem mutations_fail_cleanly :
  (forall request,
      failsCleanly cafeFrame CafeStore.loading CafeStore.error None
        (CafeStore.createCafe cafeApi request))
  /\ (forall cafeId,
      failsCleanly cafeFrame CafeStore.loading CafeStore.error false
        (CafeStore.deleteCafe cafeApi cafeId))
  /\ (forall cafeId request,
      failsCleanly menuFrame MenuStore.loading MenuStore.error None
        (MenuStore.createMenu menuApi cafeId request))
  /\ (forall cafeId menuId request,
      failsCleanly menuFrame MenuStore.loading MenuStore.error false
        (MenuStore.updateMenu menuApi cafeId menuId request))
  /\ (forall cafeId menuId,
      failsCleanly menuFrame MenuStore.loading MenuStore.error false
        (MenuStore.deleteMenu menuApi cafeId menuId))
  /\ (forall cafeId menuId newName,
      failsCleanly menuFrame MenuStore.loading MenuStore.error None
        (MenuStore.cloneMenu menuApi cafeId menuId newName))
  /\ (forall cafeId menuId,
      failsCleanly menuFrame MenuStore.loading MenuStore.error false
        (MenuStore.publishMenu menuApi cafeId menuId))
  /\ (forall cafeId menuId,
      failsCleanly menuFrame MenuStore.loading MenuStore.error false
        (MenuStore.activateMenu menuApi cafeId menuId)).
Proof.
  repeat split; intros.
  - unfold CafeStore.createCafe. fails_cleanly.
  - unfold CafeStore.deleteCafe. fails_cleanly.
  - unfold MenuStore.createMenu. fails_cleanly.
  - unfold MenuStore.updateMenu. fails_cleanly.
  - unfold MenuStore.deleteMenu. fails_cleanly.
  - unfold MenuStore.cloneMenu. fails_cleanly.
  - unfold MenuStore.publishMenu. fails_cleanly.
  - unfold MenuStore.activateMenu. fails_cleanly.
Qed.

End StoreProperties.

(** A collection in which an id occurs once splits around that entity,
    and filtering the id out keeps the rest in order. *)
Lemma filter_out_single {A} (id_of : A -> string) (id : string) (l : list A) :
  occurrences id_of id l = 1%nat ->
  exists before x rest,
    l = (before ++ x :: rest)%list
    /\ id_of x = id
    /\ List.filter (fun y => negb (String.eqb (id_of y) id)) l = (before ++ rest)%list
    /\ Forall (fun y => id_of y <> id) (before ++ rest)%list.
Proof.
  unfold occurrences. induction l as [|a l IH]; simpl; [discriminate|].
  destruct (String.eqb_spec (id_of a) id) as [Heq|Hne]; simpl.
  - intros Hlen. injection Hlen as Hlen.
    exists [], a, l. simpl. split; [reflexivity|]. split; [assumption|].
    assert (Hnone : Forall (fun y => id_of y <> id) l).
    { clear IH. induction l as [|b l IHl]; [constructor|].
      simpl in Hlen.
      destruct (String.eqb_spec (id_of b) id); simpl in Hlen; [discriminate|].
      constructor; auto. }
    split; [|assumption].
    clear Hlen IH. induction Hnone as [|b l Hb _ IHl]; [reflexivity|].
    simpl. destruct (String.eqb_spec (id_of b) id); [contradiction|].
    simpl. f_equal. exact IHl.
  - intros Hlen. destruct (IH Hlen) as (before & x & rest & -> & Hx & Hfilter & Hall).
    exists (a :: before), x, rest. simpl. repeat split; auto.
    f_equal. exact Hfilter.
Qed.

Section DeleteProperties.
Context {W : Type} (cafeApi : CafeApiService.t W) (menuApi : MenuApiService.t W).

(** C8. When the id of the deleted cafe (respectively menu) occurs
    exactly once in the store's collection and the delete resolves to
    [true], the collection afterwards is the previous one with that one
    entity taken out: the others are all there, unchanged and in the
    same order, and none of them has the deleted id. The delete
    resolves to [true] exactly when the delete request is fulfilled. *)
Theorem delete_removes_exactly_that_entity :
  (forall cafeId e e',
      occurrences CafeDto.id cafeId (CafeStore.cafes (store e)) = 1%nat ->
      CafeStore.deleteCafe cafeApi cafeId e = (e', Js.Normal true) ->
      exists before cafe rest,
        CafeStore.cafes (store e) = (before ++ cafe :: rest)%list
        /\ CafeDto.id cafe = cafeId
        /\ CafeStore.cafes (store e') = (before ++ rest)%list
        /\ Forall (fun c => CafeDto.id c <> cafeId) (before ++ rest)%list)
  /\ (forall cafeId menuId e e',
      occurrences MenuSummaryDto.menuId menuId (MenuStore.menus (store e)) = 1%nat ->
      MenuStore.deleteMenu menuApi cafeId menuId e = (e', Js.Normal true) ->
      exists before menu rest,
        MenuStore.menus (store e) = (before ++ menu :: rest)%list
        /\ MenuSummaryDto.menuId menu = menuId
        /\ MenuStore.menus (store e') = (before ++ rest)%list
        /\ Forall (fun m => MenuSummaryDto.menuId m <> menuId) (before ++ rest)%list)
  /\ (forall cafeId e,
      snd (CafeStore.deleteCafe cafeApi cafeId e)
      = Js.Normal
          (fulfilled
             (settlement (snd (CafeApiService.deleteCafe cafeApi cafeId (server e))))))
  /\ (forall cafeId menuId e,
      snd (MenuStore.deleteMenu menuApi cafeId menuId e)
      = Js.Normal
          (fulfilled
             (settlement
                (snd (MenuApiService.deleteMenu menuApi cafeId menuId (server e)))))).
Proof.
  repeat apply conj.
  - intros cafeId e e' Honce H.
    destruct (filter_out_single _ _ _ Honce) as (before & x & rest & Hl & Hx & Hf & Hall).
    exists before, x, rest. repeat split; try assumption.
    unfold CafeStore.deleteCafe in H. on_success H. exact Hf.
  - intros cafeId menuId e e' Honce H.
    destruct (filter_out_single _ _ _ Honce) as (before & x & rest & Hl & Hx & Hf & Hall).
    exists before, x, rest. repeat split; try assumption.
    unfold MenuStore.deleteMenu in H. on_success H. exact Hf.
  - intros cafeId e. unfold CafeStore.deleteCafe. run_async. split_calls; reflexivity.
  - intros cafeId menuId e. unfold MenuStore.deleteMenu. run_async.
    split_calls; reflexivity.
Qed.

End DeleteProperties.

(** *** Concrete runs *)

(** C2, at a store whose stale local copy shows two active menus: after
    activating "m2" on the example server one menu is active. *)
Lemma activateMenu_at_most_one_active_witness :
  let e' := fst (MenuStore.activateMenu Examples.menuApi "a" "m2"
                   (Examples.start Examples.menuState)) in
  atMostOneActive (MenuStore.menus (store e'))
  /\ (length (MenuStore.activeMenus (store e')) <= 1)%nat.
Proof.
  apply (activateMenu_at_most_one_active Examples.menuApi "a" "m2"
           (Examples.start Examples.menuState)).
  - intros w response Hanswer. injection Hanswer as <-.
    unfold atMostOneActive. simpl. lia.
  - reflexivity.
Defined.

(** C3 as stated fails: deleting cafe "a" succeeds with the delete
    request as the only one sent, and the store then holds its own
    filtered copy, not the list the server would return. *)
Lemma deleteCafe_sends_no_refetch :
  let e0 := Examples.start Examples.cafeState in
  let e' := fst (CafeStore.deleteCafe Examples.cafeApi "a" e0) in
  snd (CafeStore.deleteCafe Examples.cafeApi "a" e0) = Js.Normal true
  /\ sent e0 e' = [(DeleteCafe "a", true)]
  /\ CafeStore.cafes (store e') = [Examples.cafe "b" "Bistro"]
  /\ answer (CafeApiService.listCafes Examples.cafeApi) (server e')
     = Some {| ListCafesResponse.cafes :=
                 [Examples.cafe "b" "Bistro"; Examples.cafe "c" "Corner"] |}.
Proof. repeat split; reflexivity. Qed.

(** C3 (amended), at each of the eight methods on the example server,
    where every request is fulfilled, and at [createCafe] and
    [updateMenu] on the servers that reject the requests for a list. *)
Lemma mutations_refetch_except_delete_witness :
  let cafes0 := Examples.start Examples.cafeState in
  let menus0 := Examples.start Examples.menuState in
  let cafeRequest := {| cafeName := "Corner"; cafeContactInfo := None |} in
  let menuRequest := {| menuName := "Lunch"; menuSections := [] |} in
  let listedCafes := [Examples.cafe "b" "Bistro"; Examples.cafe "c" "Corner"] in
  let listedMenus :=
    [Examples.summary "m1" "Lunch" Published; Examples.summary "m2" "Dinner" Active] in
  (let run := CafeStore.createCafe Examples.cafeApi cafeRequest cafes0 in
   sent cafes0 (fst run) = [(CreateCafe cafeRequest, true); (ListCafes, true)]
   /\ snd run = Js.Normal (Some "c")
   /\ CafeStore.cafes (store (fst run)) = listedCafes)
  /\ (let run := MenuStore.createMenu Examples.menuApi "a" menuRequest menus0 in
      sent menus0 (fst run)
      = [(CreateMenu "a" menuRequest, true); (ListMenus "a", true)]
      /\ snd run = Js.Normal (Some "m3")
      /\ MenuStore.menus (store (fst run)) = listedMenus)
  /\ (let run := MenuStore.updateMenu Examples.menuApi "a" "m1" menuRequest menus0 in
      sent menus0 (fst run)
      = [(UpdateMenu "a" "m1" menuRequest, true); (GetMenu "a" "m1", true);
         (ListMenus "a", true)]
      /\ snd run = Js.Normal true
      /\ MenuStore.selectedMenu (store (fst run))
         = Some (Examples.menu "m1" "Dinner" Active)
      /\ MenuStore.menus (store (fst run)) = listedMenus)
  /\ (let run := MenuStore.cloneMenu Examples.menuApi "a" "m1" "Brunch" menus0 in
      sent menus0 (fst run)
      = [(CloneMenu "a" "m1" "Brunch", true); (ListMenus "a", true)]
      /\ snd run = Js.Normal (Some "m4")
      /\ MenuStore.menus (store (fst run)) = listedMenus)
  /\ (let run := MenuStore.publishMenu Examples.menuApi "a" "m1" menus0 in
      sent menus0 (fst run)
      = [(PublishMenu "a" "m1", true); (GetMenu "a" "m1", true); (ListMenus "a", true)]
      /\ snd run = Js.Normal true
      /\ MenuStore.selectedMenu (store (fst run))
         = Some (Examples.menu "m1" "Dinner" Active)
      /\ MenuStore.menus (store (fst run)) = listedMenus)
  /\ (let run := MenuStore.activateMenu Examples.menuApi "a" "m2" menus0 in
      sent menus0 (fst run)
      = [(ActivateMenu "a" "m2", true); (GetMenu "a" "m2", true);
         (GetActiveMenu "a", true); (ListMenus "a", true)]
      /\ snd run = Js.Normal true
      /\ MenuStore.selectedMenu (store (fst run))
         = Some (Examples.menu "m2" "Dinner" Active)
      /\ MenuStore.activeMenu (store (fst run))
         = Some (Examples.menu "m2" "Dinner" Active)
      /\ MenuStore.menus (store (fst run)) = listedMenus)
  /\ (let run := CafeStore.deleteCafe Examples.cafeApi "a" cafes0 in
      sent cafes0 (fst run) = [(DeleteCafe "a", true)]
      /\ snd run = Js.Normal true
      /\ CafeStore.cafes (store (fst run)) = [Examples.cafe "b" "Bistro"])
  /\ (let run := MenuStore.deleteMenu Examples.menuApi "a" "m1" menus0 in
      sent menus0 (fst run) = [(DeleteMenu "a" "m1", true)]
      /\ snd run = Js.Normal true
      /\ MenuStore.menus (store (fst run)) = [Examples.summary "m2" "Dinner" Active])
  /\ (let run := CafeStore.createCafe MoreExamples.cafeApiListDown cafeRequest cafes0 in
      sent cafes0 (fst run) = [(CreateCafe cafeRequest, true); (ListCafes, false)]
      /\ snd run = Js.Normal None
      /\ CafeStore.cafes (store (fst run)) = CafeStore.cafes Examples.cafeState)
  /\ (let run :=
        MenuStore.updateMenu MoreExamples.menuApiListDown "a" "m1" menuRequest menus0 in
      sent menus0 (fst run)
      = [(UpdateMenu "a" "m1" menuRequest, true); (GetMenu "a" "m1", true);
         (ListMenus "a", false)]
      /\ snd run = Js.Normal false
      /\ MenuStore.selectedMenu (store (fst run)) = None
      /\ MenuStore.menus (store (fst run)) = MenuStore.menus Examples.menuState).
Proof.
  cbv zeta.
  destruct (mutations_refetch_except_delete Examples.cafeApi Examples.menuApi)
    as (HcreateCafe & HcreateMenu & HupdateMenu & HcloneMenu & HpublishMenu
        & HactivateMenu & HdeleteCafe & HdeleteMenu).
  destruct (mutations_refetch_except_delete MoreExamples.cafeApiListDown
              MoreExamples.menuApiListDown)
    as (HcreateCafeDown & _ & HupdateMenuDown & _).
  split; [exact (HcreateCafe {| cafeName := "Corner"; cafeContactInfo := None |}
                   (Examples.start Examples.cafeState)
                   {| CreateCafeResponse.cafeId := "c" |} eq_refl)|].
  split; [exact (HcreateMenu "a" {| menuName := "Lunch"; menuSections := [] |}
                   (Examples.start Examples.menuState)
                   {| CreateMenuResponse.menuId := "m3" |} eq_refl)|].
  split; [exact (HupdateMenu "a" "m1" {| menuName := "Lunch"; menuSections := [] |}
                   (Examples.start Examples.menuState) eq_refl)|].
  split; [exact (HcloneMenu "a" "m1" "Brunch" (Examples.start Examples.menuState)
                   {| CreateMenuResponse.menuId := "m4" |} eq_refl)|].
  split; [exact (HpublishMenu "a" "m1" (Examples.start Examples.menuState)
                   {| PublishMenuResponse.menuId := "m1";
                      PublishMenuResponse.state := Published |} eq_refl)|].
  split; [exact (HactivateMenu "a" "m2" (Examples.start Examples.menuState) eq_refl)|].
  split; [exact (HdeleteCafe "a" (Examples.start Examples.cafeState) eq_refl)|].
  split; [exact (HdeleteMenu "a" "m1" (Examples.start Examples.menuState) eq_refl)|].
  split; [exact (HcreateCafeDown {| cafeName := "Corner"; cafeContactInfo := None |}
                   (Examples.start Examples.cafeState)
                   {| CreateCafeResponse.cafeId := "c" |} eq_refl)|].
  exact (HupdateMenuDown "a" "m1" {| menuName := "Lunch"; menuSections := [] |}
           (Examples.start Examples.menuState) eq_refl).
Defined.

(** C4 as stated fails: with the server down, [loadActiveMenu] resolves
    normally and the rejected request leaves [error] null. *)
Lemma loadActiveMenu_failure_leaves_error_null :
  let e0 := Examples.start Examples.menuState in
  let e' := fst (MenuStore.loadActiveMenu Examples.menuApiDown "a" e0) in
  snd (MenuStore.loadActiveMenu Examples.menuApiDown "a" e0) = Js.Normal tt
  /\ anyRejected (sent e0 e') = true
  /\ MenuStore.error (store e') = None
  /\ MenuStore.activeMenu (store e') = None.
Proof. repeat split; reflexivity. Qed.

(** C4 (amended), with the server down: [loadCafes] leaves the
    message of the rejection in [error]. *)
Lemma load_methods_never_throw_witness :
  exists msg,
    CafeStore.error
      (store (fst (CafeStore.loadCafes Examples.cafeApiDown
                     (Examples.start Examples.cafeState)))) = Some msg.
Proof.
  destruct (proj1 (load_methods_never_throw Examples.cafeApiDown Examples.menuApiDown)
              (Examples.start Examples.cafeState)) as (e' & Hrun & Hreport).
  rewrite Hrun. simpl. apply Hreport.
  vm_compute in Hrun. injection Hrun as <-. reflexivity.
Defined.

(** C8, at the deletion of cafe "a" from the store holding "a" and
    "b", and of menu "m1" from the store holding "m1" and "m2": each
    delete resolves to [true] and takes that one entity out. *)
Lemma delete_removes_exactly_that_entity_witness :
  let cafes0 := Examples.start Examples.cafeState in
  let menus0 := Examples.start Examples.menuState in
  (let run := CafeStore.deleteCafe Examples.cafeApi "a" cafes0 in
   snd run = Js.Normal true
   /\ exists before cafe rest,
        CafeStore.cafes (store cafes0) = (before ++ cafe :: rest)%list
        /\ CafeDto.id cafe = "a"
        /\ CafeStore.cafes (store (fst run)) = (before ++ rest)%list
        /\ Forall (fun c => CafeDto.id c <> "a") (before ++ rest)%list)
  /\ (let run := MenuStore.deleteMenu Examples.menuApi "a" "m1" menus0 in
      snd run = Js.Normal true
      /\ MenuStore.menus (store (fst run)) = [Examples.summary "m2" "Dinner" Active]
      /\ exists before menu rest,
           MenuStore.menus (store menus0) = (before ++ menu :: rest)%list
           /\ MenuSummaryDto.menuId menu = "m1"
           /\ MenuStore.menus (store (fst run)) = (before ++ rest)%list
           /\ Forall (fun m => MenuSummaryDto.menuId m <> "m1") (before ++ rest)%list).
Proof.
  cbv zeta.
  destruct (delete_removes_exactly_that_entity Examples.cafeApi Examples.menuApi)
    as (Hcafe & Hmenu & HcafeResult & HmenuResult).
  split; [split|split; [|split]].
  - exact (HcafeResult "a" (Examples.start Examples.cafeState)).
  - apply Hcafe; reflexivity.
  - exact (HmenuResult "a" "m1" (Examples.start Examples.menuState)).
  - reflexivity.
  - apply (Hmenu "a"); reflexivity.
Defined.

(** C10, with the server down: [activateMenu] resolves to [false] and
    the menus, the selection and the active menu are as before. *)
Lemma mutations_fail_cleanly_witness :
  let e0 := Examples.start Examples.menuState in
  let run := MenuStore.activateMenu Examples.menuApiDown "a" "m2" e0 in
  snd run = Js.Normal false
  /\ menuFrame (store e0) (store (fst run))
  /\ MenuStore.loading (store (fst run)) = false
  /\ exists msg, MenuStore.error (store (fst run)) = Some msg.
Proof.
  cbv zeta.
  destruct (proj2 (proj2 (proj2 (proj2 (proj2 (proj2 (proj2
              (mutations_fail_cleanly Examples.cafeApiDown Examples.menuApiDown)))))))
              "a" "m2" (Examples.start Examples.menuState))
    as (e' & v & Hrun & Hfail).
  rewrite Hrun. simpl.
  destruct Hfail as (-> & Hframe & Hloading & Herror).
  - vm_compute in Hrun. injection Hrun as <- _. reflexivity.
  - auto.
Defined.

(* ================================================================== *)
(** ** Proofs: prices *)

Lemma orZero_eq (v : Q) : (MenuItemComponent.orZero (Some v) == v)%Q.
Proof.
  unfold MenuItemComponent.orZero. destruct (Qeq_bool v 0) eqn:Hv.
  - apply Qeq_bool_eq in Hv. symmetry. exact Hv.
  - reflexivity.
Qed.

(** C9. For an amount that is not negative and a discount between 0
    and 100, in exact arithmetic, the price of the preview page and the
    price of the menu item component are equal, and each equals
    amount x (1 - discount/100). *)
Theorem final_price_computations_agree (price : PriceDto.t) :
  (0 <= PriceDto.amount price)%Q ->
  (0 <= PriceDto.discount price)%Q ->
  (PriceDto.discount price <= 100)%Q ->
  let amount := PriceDto.amount price in
  let discount := PriceDto.discount price in
  (MenuPreviewPageComponent.finalPrice price
   == MenuItemComponent.finalPrice (Some amount) (Some discount))%Q
  /\ (MenuPreviewPageComponent.finalPrice price
      == amount * (1 - discount / 100))%Q
  /\ (MenuItemComponent.finalPrice (Some amount) (Some discount)
      == amount * (1 - discount / 100))%Q.
Proof.
  intros _ _ _ amount discount.
  assert (Hitem : (MenuItemComponent.finalPrice (Some amount) (Some discount)
                   == amount * (1 - discount / 100))%Q).
  { unfold MenuItemComponent.finalPrice. cbv zeta.
    rewrite !orZero_eq. field. }
  unfold MenuPreviewPageComponent.finalPrice. fold amount discount.
  split; [|split]; try assumption; try reflexivity.
  symmetry. exact Hitem.
Qed.

(** C9, at 12.50 with a discount of 20 percent. *)
Lemma final_price_computations_agree_witness :
  let price := {| PriceDto.amount := 25 # 2; PriceDto.currency := "EUR";
                  PriceDto.unit := PerItem; PriceDto.discount := 20 |} in
  (MenuPreviewPageComponent.finalPrice price
   == MenuItemComponent.finalPrice (Some (25 # 2)) (Some 20))%Q
  /\ (MenuPreviewPageComponent.finalPrice price == (25 # 2) * (1 - 20 / 100))%Q
  /\ (MenuItemComponent.finalPrice (Some (25 # 2)) (Some 20)
      == (25 # 2) * (1 - 20 / 100))%Q.
Proof.
  cbv zeta.
  apply (final_price_computations_agree
           {| PriceDto.amount := 25 # 2; PriceDto.currency := "EUR";
              PriceDto.unit := PerItem; PriceDto.discount := 20 |});
    unfold Qle; simpl; lia.
Defined.

(* ================================================================== *)
(** ** Proofs: form submission *)

(** Induction on a control tree, with the property known of every
    child. *)
Lemma AbstractControl_tree_ind (P : Forms.AbstractControl -> Prop) :
  (forall e t, P (Forms.FormControl e t)) ->
  (forall e t cs, Forall (fun kc => P (snd kc)) cs -> P (Forms.FormGroup e t cs)) ->
  (forall e t cs, Forall P cs -> P (Forms.FormArray e t cs)) ->
  forall c, P c.
Proof.
  intros Hcontrol Hgroup Harray.
  fix IH 1. intros [e t|e t cs|e t cs].
  - apply Hcontrol.
  - apply Hgroup. induction cs as [|[k c] cs IHcs]; constructor; [apply IH|exact IHcs].
  - apply Harray. induction cs as [|c cs IHcs]; constructor; [apply IH|exact IHcs].
Qed.

Lemma markAllAsTouched_allTouched (c : Forms.AbstractControl) :
  Forms.allTouched (Forms.markAllAsTouched c) = true.
Proof.
  induction c as [e t|e t cs IH|e t cs IH] using AbstractControl_tree_ind; simpl.
  - reflexivity.
  - induction IH as [|[k c] cs Hc _ IHcs]; simpl in *; [reflexivity|].
    rewrite Hc. exact IHcs.
  - induction IH as [|c cs Hc _ IHcs]; simpl in *; [reflexivity|].
    rewrite Hc. exact IHcs.
Qed.

Section SubmitProperties.
Context {W : Type} (cafeApi : CafeApiService.t W) (menuApi : MenuApiService.t W).
Context (menuData : Forms.AbstractControl -> MenuRequest).

(** The menu form page on an invalid form: every control is marked
    touched, and nothing is sent. *)
Lemma menu_onSubmit_invalid (e : env (MenuFormPageComponent.t * MenuStore.MenuStoreState) W) :
  Forms.invalid (MenuFormPageComponent.menuFormStatus (fst (store e))) = true ->
  exists e',
    MenuFormPageComponent.onSubmit menuApi menuData e = (e', Js.Normal tt)
    /\ Forms.allTouched (MenuFormPageComponent.menuForm (fst (store e'))) = true
    /\ requests e' = requests e /\ server e' = server e
    /\ snd (store e') = snd (store e).
Proof.
  intros Hinvalid. unfold MenuFormPageComponent.onSubmit. run_async.
  rewrite Hinvalid. simpl. eexists. split; [reflexivity|]. simpl.
  repeat split. apply markAllAsTouched_allTouched.
Qed.

(** The cafe dialog on a form that is not valid: nothing is sent, and
    nothing else happens either. *)
Lemma cafe_onSubmit_not_valid (e : env (CafeFormDialogComponent.t * CafeStore.CafeState) W) :
  Forms.valid (CafeFormDialogComponent.cafeFormStatus (fst (store e))) = false ->
  CafeFormDialogComponent.onSubmit cafeApi e = (e, Js.Normal tt).
Proof.
  intros Hvalid. unfold CafeFormDialogComponent.onSubmit. run_async.
  rewrite Hvalid. reflexivity.
Qed.

End SubmitProperties.

(** C5, at the cafe dialog as it opens, its required name empty: the
    submission is dropped and no request is sent, but no control of the
    form has been marked touched. The menu form page, on its invalid
    form, does both. *)
Theorem cafe_dialog_onSubmit_invalid_marks_nothing :
  let e0 := Examples.start (Examples.cafeDialog, CafeStore.initialState) in
  let e' := fst (CafeFormDialogComponent.onSubmit Examples.cafeApi e0) in
  Forms.invalid (CafeFormDialogComponent.cafeFormStatus Examples.cafeDialog) = true
  /\ snd (CafeFormDialogComponent.onSubmit Examples.cafeApi e0) = Js.Normal tt
  /\ requests e' = []
  /\ Forms.allTouched (CafeFormDialogComponent.cafeForm (fst (store e'))) = false
  /\ CafeFormDialogComponent.cafeForm (fst (store e'))
     = CafeFormDialogComponent.cafeForm Examples.cafeDialog
  /\ (let m0 := Examples.start (Examples.menuPage, MenuStore.initialState) in
      let m' := fst (MenuFormPageComponent.onSubmit Examples.menuApi Examples.menuData m0) in
      requests m' = []
      /\ Forms.allTouched (MenuFormPageComponent.menuForm (fst (store m'))) = true).
Proof. repeat split; reflexivity. Qed.

(* ================================================================== *)
(** ** Proofs: clearing mapped errors *)

Lemma get_delete_other {A} (o : Js.object A) (k key : string) :
  key <> k -> Js.get (Js.delete o k) key = Js.get o key.
Proof.
  intros Hne. unfold Js.delete. induction o as [|[k' v] o IH]; [reflexivity|].
  simpl.
  destruct (String.eqb_spec k' k) as [->|Hk]; simpl.
  - destruct (String.eqb_spec k key) as [->|_]; [contradiction|]. exact IH.
  - destruct (String.eqb k' key); [reflexivity|exact IH].
Qed.

Lemma get_delete_same {A} (o : Js.object A) (k : string) :
  Js.get (Js.delete o k) k = None.
Proof.
  unfold Js.delete. induction o as [|[k' v] o IH]; [reflexivity|].
  simpl.
  destruct (String.eqb_spec k' k) as [->|Hk]; simpl; [exact IH|].
  destruct (String.eqb_spec k' k); [contradiction|exact IH].
Qed.

(** Deleting the [backend] entry keeps every other entry. *)
Lemma withoutBackend_other (errs : option ValidationErrors) (key : string) :
  key <> "backend" ->
  lookupError (withoutBackend errs) key = lookupError errs key.
Proof.
  intros Hne. destruct errs as [e|]; [|reflexivity]. simpl.
  destruct (Js.get e "backend") as [v|]; [|reflexivity].
  destruct (Js.truthy v); [|reflexivity].
  pose proof (get_delete_other e "backend" key Hne) as Hget.
  destruct (Js.delete e "backend") as [|p rest] eqn:Hrest; simpl.
  - rewrite <- Hget. reflexivity.
  - exact Hget.
Qed.

(** A [backend] entry that is left was falsy, and nothing changed. *)
Lemma withoutBackend_backend (errs : option ValidationErrors) :
  withoutBackend errs = errs
  \/ lookupError (withoutBackend errs) "backend" = None.
Proof.
  destruct errs as [e|]; [|left; reflexivity]. simpl.
  destruct (Js.get e "backend") as [v|]; [|left; reflexivity].
  destruct (Js.truthy v); [|left; reflexivity].
  right. pose proof (get_delete_same e "backend") as Hget.
  destruct (Js.delete e "backend") as [|p rest]; simpl; [reflexivity|exact Hget].
Qed.

(** The two loops of [clearFormErrors], as maps over the children. *)
Lemma clearFormErrors_group e t cs :
  clearFormErrors (FormGroup e t cs)
  = FormGroup (withoutBackend e) t (map (fun kc => (fst kc, clearNode (snd kc))) cs).
Proof.
  simpl. f_equal. induction cs as [|[k c] cs IH]; [reflexivity|].
  rewrite IH. simpl. destruct c; reflexivity.
Qed.

Lemma clearFormErrors_array e t cs :
  clearFormErrors (FormArray e t cs) = FormArray (withoutBackend e) t (map clearNode cs).
Proof. reflexivity. Qed.

Lemma clearFormErrors_children (c : AbstractControl) :
  children (clearFormErrors c) = map clearNode (children c).
Proof.
  destruct c as [e t|e t cs|e t cs]; [reflexivity| |].
  - rewrite clearFormErrors_group. simpl. rewrite !map_map. reflexivity.
  - rewrite clearFormErrors_array. reflexivity.
Qed.

Lemma clearNode_children (c : AbstractControl) :
  children (clearNode c) = map clearNode (children c).
Proof.
  destruct c as [e t|e t cs|e t cs]; [reflexivity| |];
    apply clearFormErrors_children.
Qed.

Lemma clearNode_errors (c : AbstractControl) :
  errors (clearNode c) = withoutBackend (errors c).
Proof. destruct c; reflexivity. Qed.

Lemma clearNode_touched (c : AbstractControl) : touched (clearNode c) = touched c.
Proof. destruct c; reflexivity. Qed.

Lemma nodeAt_clearNode (path : list nat) (c : AbstractControl) :
  nodeAt path (clearNode c) = clearNode <$> nodeAt path c.
Proof.
  revert c. induction path as [|i path IH]; intros c; simpl; [reflexivity|].
  rewrite clearNode_children, list_lookup_fmap.
  destruct (children c !! i) as [child|]; simpl; [apply IH|reflexivity].
Qed.

(** A truthy [backend] entry is deleted. *)
Lemma withoutBackend_truthy (errs : option ValidationErrors) (v : Js.value) :
  lookupError errs "backend" = Some v -> Js.truthy v = true ->
  lookupError (withoutBackend errs) "backend" = None.
Proof.
  destruct errs as [e|]; [|discriminate]. simpl. intros -> ->.
  pose proof (get_delete_same e "backend") as Hget.
  destruct (Js.delete e "backend") as [|p rest]; simpl; [reflexivity|exact Hget].
Qed.

(** Every node but the root is cleared as [clearNode] says; the root is
    cleared the same way when it is a group or an array. *)
Lemma nodeAt_clearFormErrors (path : list nat) (form node : AbstractControl) :
  nodeAt path form = Some node ->
  exists node',
    nodeAt path (clearFormErrors form) = Some node'
    /\ (node' = clearNode node \/ node' = node)
    /\ (path <> [] \/ isContainer form = true -> node' = clearNode node).
Proof.
  destruct path as [|i path]; simpl.
  - intros [= <-]. eexists. split; [reflexivity|].
    destruct form; simpl; (split; [auto|]); intros [Hpath|Hroot];
      congruence.
  - rewrite clearFormErrors_children, list_lookup_fmap.
    destruct (children form !! i) as [child|]; simpl; [|discriminate].
    intros Hnode. rewrite nodeAt_clearNode, Hnode. simpl. eauto.
Qed.

(** C6. At every node of the form, clearing the mapped errors changes
    nothing but the node's [backend] entry: each entry under another
    key is still there with its value, the [backend] entry is either
    gone or the node's errors are exactly as before, and the touched
    flag and the children stay. On the group or array the clearing is
    called on and on every node below it, a truthy [backend] entry is
    gone. Applying an empty list of errors is this clearing and nothing
    more. *)
Theorem clearFormErrors_removes_backend_only
    (form : AbstractControl) (path : list nat) (node : AbstractControl) :
  nodeAt path form = Some node ->
  exists node',
    nodeAt path (clearFormErrors form) = Some node'
    /\ (forall key, key <> "backend" -> errorAt node' key = errorAt node key)
    /\ (errors node' = errors node \/ errorAt node' "backend" = None)
    /\ (path <> [] \/ isContainer form = true ->
        forall v, errorAt node "backend" = Some v -> Js.truthy v = true ->
                  errorAt node' "backend" = None)
    /\ touched node' = touched node
    /\ length (children node') = length (children node)
    /\ applyToForm form [] = (clearFormErrors form, Js.Normal tt).
Proof.
  intros Hnode.
  destruct (nodeAt_clearFormErrors path form node Hnode)
    as (node' & Hnode' & Hcases & Hbelow).
  exists node'. split; [exact Hnode'|].
  assert (Htruthy : path <> [] \/ isContainer form = true ->
            forall v, errorAt node "backend" = Some v -> Js.truthy v = true ->
                      errorAt node' "backend" = None).
  { intros Hwhere v Hv Htrue. rewrite (Hbelow Hwhere).
    unfold errorAt. rewrite clearNode_errors.
    apply (withoutBackend_truthy (errors node) v Hv Htrue). }
  clear Hbelow. destruct Hcases as [-> | ->].
  - unfold errorAt at 1 3 4. rewrite clearNode_errors, clearNode_touched, clearNode_children,
      length_map.
    repeat split; try exact Htruthy.
    + intros key Hkey. apply (withoutBackend_other (errors node) key Hkey).
    + apply withoutBackend_backend.
  - repeat split; try exact Htruthy. left. reflexivity.
Qed.

(** C6, at a section name that carries a required error next to a
    mapped one: the mapped one goes, the required one stays. *)
Lemma clearFormErrors_removes_backend_only_witness :
  let form :=
    FormGroup (Some [("backend", Js.VArr ["Menu is locked"])]) true
      [("name", FormControl None false);
       ("sections", FormArray None true
          [FormGroup None true
             [("name", FormControl
                         (Some [("required", Js.VBool true);
                                ("backend", Js.VStr "Section name required")]) true)]])] in
  exists node',
    nodeAt [1; 0; 0]%nat (clearFormErrors form) = Some node'
    /\ errorAt node' "required" = Some (Js.VBool true)
    /\ errorAt node' "backend" = None
    /\ touched node' = true.
Proof.
  cbv zeta.
  match goal with |- context [clearFormErrors ?f] => set (form := f) end.
  destruct (clearFormErrors_removes_backend_only form [1; 0; 0]%nat
              (FormControl
                 (Some [("required", Js.VBool true);
                        ("backend", Js.VStr "Section name required")]) true)
              eq_refl)
    as (node' & Hnode' & Hother & Hbackend & _ & Htouched & _).
  exists node'. split; [exact Hnode'|].
  split; [apply (Hother "required"); discriminate|].
  split; [|exact Htouched].
  vm_compute in Hnode'. injection Hnode' as <-. reflexivity.
Defined.

(* ================================================================== *)
(** ** Proofs: applying server errors *)

(** C1, at the error of the documented example: the field
    "Sections[0].Name" becomes the path "sections.0.Name", which names
    no control of the section group, so the control at
    "sections.0.name" gets no error and is not touched: the form is
    left as it was. A field without nested names, "Name", is mapped. *)
Theorem nested_field_error_is_not_applied :
  let form := Examples.menuForm in
  let errors := [Examples.fieldError "Sections[0].Name" "Section name required"] in
  let form' := fst (applyToForm form errors) in
  snd (applyToForm form errors) = Js.Normal tt
  /\ toFormFieldName "Sections[0].Name" = "sections.0.Name"
  /\ getControl form "sections.0.Name" = None
  /\ getControl form' "sections.0.name"
     = Some (FormControl (Some [("required", Js.VBool true)]) false)
  /\ form' = form
  /\ getControl (fst (applyToForm form [Examples.fieldError "Name" "Name is required"])) "name"
     = Some (FormControl (Some [("backend", Js.VStr "Name is required")]) true).
Proof. repeat split; reflexivity. Qed.

(** C7, at an error whose field is "constructor": the path resolves to
    no control, and the call throws a TypeError while grouping, after
    the earlier errors were cleared and before any error of the list is
    applied; without that error the other one is applied. *)
Theorem unresolved_inherited_field_throws :
  let form := Examples.menuForm in
  let dropped := Examples.fieldError "constructor" "Invalid" in
  let other := Examples.fieldError "Name" "Name is required" in
  getControl form (toFormFieldName "constructor") = None
  /\ snd (applyToForm form [other; dropped])
     = Js.Throw (Js.ErrorInstance "TypeError" "acc[error.field].push is not a function")
  /\ getControl (fst (applyToForm form [other; dropped])) "name"
     = Some (FormControl None false)
  /\ applyToForm form [other]
     = (FormGroup None true
          [("name", FormControl (Some [("backend", Js.VStr "Name is required")]) true);
           ("sections", FormArray None false
              [FormGroup None false
                 [("name", FormControl (Some [("required", Js.VBool true)]) false);
                  ("items", FormArray None false [])]])],
        Js.Normal tt).
Proof. repeat split; reflexivity. Qed.

(** *** Which paths resolve depends on the shape of the tree *)

Lemma find_shape (cs : list (string * AbstractControl)) (name : string) :
  find (map (fun kc => (fst kc, shape (snd kc))) cs) name = shape <$> find cs name.
Proof.
  unfold find. induction cs as [|[k c] cs IH]; simpl; [reflexivity|].
  destruct (String.eqb k name); [reflexivity|exact IH].
Qed.

Lemma at_shape (cs : list AbstractControl) (index : option Z) :
  at_ (map shape cs) index = shape <$> at_ cs index.
Proof.
  unfold at_. destruct index as [i|]; [|reflexivity].
  rewrite length_map. destruct (_ <? 0); [reflexivity|].
  apply list_lookup_fmap.
Qed.

Lemma walk_shape (parts : list string) (control : option AbstractControl) :
  walk (shape <$> control) parts = shape <$> walk control parts.
Proof.
  revert control. induction parts as [|part rest IH]; intros control; [reflexivity|].
  destruct control as [[e t|e t cs|e t cs]|]; simpl; try reflexivity.
  - rewrite find_shape. apply IH.
  - rewrite at_shape. apply IH.
Qed.

Lemma resolves_shape (form form' : AbstractControl) (k : string) :
  shape form = shape form' -> resolves form k = resolves form' k.
Proof.
  intros Hshape. unfold resolves, getControl.
  pose proof (walk_shape (Js.split (toFormFieldName k)) (Some form)) as H1.
  pose proof (walk_shape (Js.split (toFormFieldName k)) (Some form')) as H2.
  simpl in H1, H2. rewrite Hshape in H1. rewrite H1 in H2.
  destruct (walk (Some form) _), (walk (Some form') _); simpl in H2;
    congruence.
Qed.

Lemma shape_clearFormErrors (c : AbstractControl) : shape (clearFormErrors c) = shape c.
Proof.
  induction c as [e t|e t cs IH|e t cs IH] using AbstractControl_tree_ind;
    [reflexivity| |].
  - rewrite clearFormErrors_group. simpl. f_equal. rewrite map_map. simpl.
    induction IH as [|[k c] cs Hc _ IHcs]; [reflexivity|].
    simpl in *. rewrite IHcs. destruct c; simpl in *; congruence.
  - rewrite clearFormErrors_array. simpl. f_equal. rewrite map_map.
    induction IH as [|c cs Hc _ IHcs]; [reflexivity|].
    simpl in *. rewrite IHcs. destruct c; simpl in *; congruence.
Qed.

Lemma shape_setErrors errs c : shape (setErrors errs c) = shape c.
Proof. destruct c; reflexivity. Qed.

Lemma shape_setTouched c : shape (setTouched c) = shape c.
Proof. destruct c; reflexivity. Qed.

Lemma shape_set_child (cs : list (string * AbstractControl)) name child child' :
  find cs name = Some child -> shape child' = shape child ->
  map (fun kc => (fst kc, shape (snd kc))) (Js.set cs name child')
  = map (fun kc => (fst kc, shape (snd kc))) cs.
Proof.
  unfold find. intros Hfind Hshape.
  induction cs as [|[k c] cs IH]; simpl in *; [discriminate|].
  destruct (String.eqb k name); simpl.
  - injection Hfind as ->. rewrite Hshape. reflexivity.
  - f_equal. apply IH. exact Hfind.
Qed.

Lemma shape_writeAt target up parts c c' :
  (forall x, shape (target x) = shape x) ->
  (forall x, shape (up x) = shape x) ->
  writeAt target up parts c = Some c' -> shape c' = shape c.
Proof.
  intros Htarget Hup. revert c c'.
  induction parts as [|part rest IH]; intros c c'; simpl.
  - intros [= <-]. apply Htarget.
  - destruct c as [e t|e t cs|e t cs]; [discriminate| |].
    + destruct (find cs part) as [child|] eqn:Hfind; [|discriminate].
      destruct (writeAt target up rest child) as [child'|] eqn:Hw; [|discriminate].
      intros [= <-]. rewrite Hup. simpl. f_equal.
      apply (shape_set_child cs part child child' Hfind). eapply IH; eassumption.
    + destruct (slot cs (Js.parseInt part)) as [i|]; [|discriminate].
      destruct (cs !! i) as [child|] eqn:Hi; [|discriminate].
      destruct (writeAt target up rest child) as [child'|] eqn:Hw; [|discriminate].
      intros [= <-]. rewrite Hup. simpl. f_equal.
      rewrite list_fmap_insert. apply list_insert_id.
      rewrite list_lookup_fmap, Hi. simpl. f_equal. symmetry. eapply IH; eassumption.
Qed.

Lemma shape_setErrorsAt path errs form : shape (setErrorsAt path errs form) = shape form.
Proof.
  unfold setErrorsAt.
  destruct (writeAt _ _ _ form) as [form'|] eqn:Hw; [|reflexivity].
  eapply shape_writeAt; [| |exact Hw]; intros x; [apply shape_setErrors|reflexivity].
Qed.

Lemma shape_markAsTouchedAt path form : shape (markAsTouchedAt path form) = shape form.
Proof.
  unfold markAsTouchedAt.
  destruct (writeAt _ _ _ form) as [form'|] eqn:Hw; [|reflexivity].
  eapply shape_writeAt; [| |exact Hw]; intros x; apply shape_setTouched.
Qed.

Lemma shape_applyFieldErrors form entry : shape (applyFieldErrors form entry) = shape form.
Proof.
  destruct entry as [backendField fieldErrors]. unfold applyFieldErrors.
  destruct (getControl form _); [|reflexivity].
  rewrite shape_markAsTouchedAt. apply shape_setErrorsAt.
Qed.

(** *** Entries that do not resolve are passed over *)

Lemma applyFieldErrors_unresolved form k group :
  resolves form k = false -> applyFieldErrors form (k, group) = form.
Proof.
  unfold resolves, applyFieldErrors. destruct (getControl form _); [discriminate|reflexivity].
Qed.

Lemma fold_applyFieldErrors_resolved entries form :
  fold_left applyFieldErrors entries form
  = fold_left applyFieldErrors
      (List.filter (fun entry => resolves form (fst entry)) entries) form.
Proof.
  revert form. induction entries as [|[k group] entries IH]; intros form; [reflexivity|].
  simpl. destruct (resolves form k) eqn:Hk; simpl.
  - rewrite IH. f_equal. apply List.filter_ext. intros entry.
    apply resolves_shape. exact (shape_applyFieldErrors form (k, group)).
  - change (fold_left applyFieldErrors entries (applyFieldErrors form (k, group))
            = fold_left applyFieldErrors
                (List.filter (fun entry => resolves form (fst entry)) entries) form).
    rewrite applyFieldErrors_unresolved by exact Hk. apply IH.
Qed.

(** *** Grouping, seen through a selection of the keys *)

Section SelectedKeys.
Context {A : Type} (P : string -> bool).

Abbreviation sel := (@selected A P).

Lemma filter_set_dropped (o : Js.object A) k v :
  P k = false -> List.filter sel (Js.set o k v) = List.filter sel o.
Proof.
  intros Hk. unfold selected. induction o as [|[k' v'] o IH]; simpl.
  - rewrite Hk. reflexivity.
  - destruct (String.eqb_spec k' k) as [->|Hne]; simpl.
    + rewrite Hk. reflexivity.
    + rewrite IH. reflexivity.
Qed.

Lemma filter_set_kept (o : Js.object A) k v :
  P k = true -> List.filter sel (Js.set o k v) = Js.set (List.filter sel o) k v.
Proof.
  intros Hk. unfold selected. induction o as [|[k' v'] o IH]; simpl.
  - rewrite Hk. reflexivity.
  - destruct (String.eqb_spec k' k) as [->|Hne]; simpl.
    + rewrite Hk. simpl. rewrite String.eqb_refl. reflexivity.
    + destruct (P k'); simpl.
      * destruct (String.eqb_spec k' k); [contradiction|]. rewrite IH. reflexivity.
      * exact IH.
Qed.

Lemma get_filter_kept (o : Js.object A) k :
  P k = true -> Js.get (List.filter sel o) k = Js.get o k.
Proof.
  intros Hk. unfold selected. induction o as [|[k' v'] o IH]; simpl; [reflexivity|].
  destruct (String.eqb_spec k' k) as [->|Hne].
  - rewrite Hk. simpl. rewrite String.eqb_refl. reflexivity.
  - destruct (P k'); simpl; [|exact IH].
    destruct (String.eqb_spec k' k); [contradiction|exact IH].
Qed.

End SelectedKeys.

Lemma groupFrom_plain (errors : list ValidationError) acc :
  forallb plainField errors = true ->
  groupFrom acc errors = Js.Normal (fold_left groupStepPlain errors acc).
Proof.
  revert acc. induction errors as [|error errors IH]; intros acc; simpl; [reflexivity|].
  intros Hplain. apply andb_prop in Hplain as [Herror Hrest].
  assert (Hstep : groupStep acc error = Js.Normal (groupStepPlain acc error)).
  { unfold groupStep, groupStepPlain, plainField in *.
    destruct (field error) as [f|]; [|reflexivity].
    destruct (Js.truthyString (Some f)); [|reflexivity].
    destruct (Js.get acc f); [reflexivity|].
    destruct (Js.inherited f); [discriminate|reflexivity]. }
  rewrite Hstep. apply IH. exact Hrest.
Qed.

Section GroupingSelected.
Context (P : string -> bool).
Abbreviation keep := (@selected (list ValidationError) P).

Lemma groupStepPlain_related G G' error :
  List.filter keep G = List.filter keep G' ->
  List.filter keep (groupStepPlain G error) = List.filter keep (groupStepPlain G' error).
Proof.
  intros HG. unfold groupStepPlain.
  destruct (field error) as [f|]; [|exact HG].
  destruct (Js.truthyString (Some f)); [|exact HG].
  destruct (P f) eqn:Hf.
  - assert (Hget : Js.get G f = Js.get G' f).
    { rewrite <- (get_filter_kept P G f Hf), <- (get_filter_kept P G' f Hf).
      rewrite HG. reflexivity. }
    rewrite Hget. destruct (Js.get G' f);
      rewrite !(filter_set_kept P) by exact Hf; rewrite HG; reflexivity.
  - destruct (Js.get G f), (Js.get G' f);
      rewrite !(filter_set_dropped P) by exact Hf; exact HG.
Qed.

Lemma groupStepPlain_dropped G error f :
  field error = Some f -> P f = false ->
  List.filter keep (groupStepPlain G error) = List.filter keep G.
Proof.
  intros Hfield Hf. unfold groupStepPlain. rewrite Hfield.
  destruct (Js.truthyString (Some f)); [|reflexivity].
  destruct (Js.get G f); apply (filter_set_dropped P); exact Hf.
Qed.

Lemma group_related errors G G' :
  List.filter keep G = List.filter keep G' ->
  List.filter keep (fold_left groupStepPlain errors G)
  = List.filter keep (fold_left groupStepPlain errors G').
Proof.
  revert G G'. induction errors as [|error errors IH]; intros G G' HG; [exact HG|].
  simpl. apply IH. apply groupStepPlain_related. exact HG.
Qed.

Lemma group_without_dropped before error rest f G :
  field error = Some f -> P f = false ->
  List.filter keep (fold_left groupStepPlain (before ++ error :: rest) G)
  = List.filter keep (fold_left groupStepPlain (before ++ rest) G).
Proof.
  intros Hfield Hf. rewrite !fold_left_app. simpl.
  apply group_related. eapply groupStepPlain_dropped; eassumption.
Qed.

End GroupingSelected.

(** *** [Object.entries] of a selection of the keys *)

Section EntriesSelected.
Context {A : Type} (keep : string * A -> bool).

Abbreviation byIndex := (@indexOrder A).

Lemma insertByIndex_first (x : string * A) l :
  Forall (fun y => Js.digitsValue 0 (fst x) < Js.digitsValue 0 (fst y)) l ->
  Js.insertByIndex x l = x :: l.
Proof.
  intros Hall. destruct Hall as [|y l Hy _]; simpl; [reflexivity|].
  apply Z.ltb_lt in Hy. rewrite Hy. reflexivity.
Qed.

Lemma Forall_filter_keep (Q : string * A -> Prop) l :
  Forall Q l -> Forall Q (List.filter keep l).
Proof.
  intros Hall. induction Hall as [|y l Hy _ IH]; simpl; [constructor|].
  destruct (keep y); [constructor; assumption|assumption].
Qed.

Lemma Forall_insertByIndex (Q : string * A -> Prop) (x : string * A) l :
  Q x -> Forall Q l -> Forall Q (Js.insertByIndex x l).
Proof.
  intros Hx Hall. induction Hall as [|y l Hy Hl IH]; simpl.
  - constructor; [exact Hx|constructor].
  - destruct (_ <? _); repeat (constructor; try assumption).
Qed.

Lemma insertByIndex_sorted (x : string * A) l :
  StronglySorted byIndex l -> StronglySorted byIndex (Js.insertByIndex x l).
Proof.
  intros Hsorted. induction Hsorted as [|q l Hl IH Hq]; simpl.
  - repeat constructor.
  - destruct (Z.ltb_spec (Js.digitsValue 0 (fst x)) (Js.digitsValue 0 (fst q))) as [Hlt|Hge].
    + constructor; [constructor; assumption|].
      constructor; [unfold indexOrder; lia|].
      eapply Forall_impl; [exact Hq|]. unfold indexOrder. intros y Hy. simpl in *. lia.
    + constructor; [exact IH|].
      apply Forall_insertByIndex; [exact Hge|exact Hq].
Qed.

Lemma filter_insertByIndex (x : string * A) l :
  StronglySorted byIndex l ->
  List.filter keep (Js.insertByIndex x l)
  = if keep x then Js.insertByIndex x (List.filter keep l) else List.filter keep l.
Proof.
  intros Hsorted. induction Hsorted as [|q l Hl IH Hq]; simpl.
  - destruct (keep x); reflexivity.
  - destruct (Z.ltb_spec (Js.digitsValue 0 (fst x)) (Js.digitsValue 0 (fst q))) as [Hlt|Hge];
      simpl.
    + destruct (keep x) eqn:Hx; [|reflexivity].
      symmetry. apply insertByIndex_first.
      assert (Hall : Forall (fun y => Js.digitsValue 0 (fst x) < Js.digitsValue 0 (fst y))
                       (q :: l)).
      { constructor; [exact Hlt|].
        eapply Forall_impl; [exact Hq|]. unfold indexOrder. intros y Hy. simpl in *. lia. }
      apply Forall_filter_keep in Hall. exact Hall.
    + rewrite IH. destruct (keep q) eqn:Hkq, (keep x) eqn:Hx; simpl; try reflexivity.
      destruct (Z.ltb_spec (Js.digitsValue 0 (fst x)) (Js.digitsValue 0 (fst q)));
        [lia|reflexivity].
Qed.

Lemma sortByIndex_sorted (l : list (string * A)) :
  StronglySorted byIndex (fold_right Js.insertByIndex [] l).
Proof.
  induction l as [|x l IH]; simpl; [constructor|]. apply insertByIndex_sorted, IH.
Qed.

Lemma filter_sortByIndex (l : list (string * A)) :
  List.filter keep (fold_right Js.insertByIndex [] l)
  = fold_right Js.insertByIndex [] (List.filter keep l).
Proof.
  induction l as [|x l IH]; simpl; [reflexivity|].
  rewrite filter_insertByIndex by apply sortByIndex_sorted.
  rewrite IH. destruct (keep x); reflexivity.
Qed.

Lemma filter_swap (f g : string * A -> bool) l :
  List.filter f (List.filter g l) = List.filter g (List.filter f l).
Proof.
  induction l as [|x l IH]; simpl; [reflexivity|].
  destruct (g x) eqn:Hg, (f x) eqn:Hf; simpl; rewrite ?Hg, ?Hf, IH; reflexivity.
Qed.

(** Selecting entries after enumerating them is enumerating the
    selected properties. *)
Lemma filter_entries (o : Js.object A) :
  List.filter keep (Js.entries o) = Js.entries (List.filter keep o).
Proof.
  unfold Js.entries. rewrite List.filter_app, filter_sortByIndex.
  f_equal; [f_equal|]; apply filter_swap.
Qed.

End EntriesSelected.

(** *** An unresolved error is dropped *)

Lemma truthyString_nonempty (f : string) : f <> "" -> Js.truthyString (Some f) = true.
Proof. intros Hf. simpl. destruct (String.eqb_spec f ""); [contradiction|reflexivity]. Qed.

(** Where no field of the list is the name of a member of
    [Object.prototype], an error whose path does not resolve is
    dropped: [applyToForm] returns normally and leaves the form as it
    would without that error. *)
Lemma applyToForm_drops_unresolved (form : AbstractControl)
    (before rest : list ValidationError) (error : ValidationError) (f : string) :
  field error = Some f -> f <> "" ->
  getControl form (toFormFieldName f) = None ->
  forallb plainField (before ++ error :: rest) = true ->
  applyToForm form (before ++ error :: rest) = applyToForm form (before ++ rest)
  /\ snd (applyToForm form (before ++ error :: rest)) = Js.Normal tt.
Proof.
  intros Hfield Hf Hnone Hplain.
  assert (Hplain' : forallb plainField (before ++ rest) = true).
  { rewrite forallb_app in Hplain |- *. simpl in Hplain.
    apply andb_prop in Hplain as [H1 H2]. apply andb_prop in H2 as [_ H2].
    rewrite H1, H2. reflexivity. }
  assert (Hdropped : resolves (clearFormErrors form) f = false).
  { rewrite (resolves_shape _ form) by apply shape_clearFormErrors.
    unfold resolves. rewrite Hnone. reflexivity. }
  assert (Hgeneral :
    List.filter (fun e => negb (Js.truthyString (field e))) (before ++ error :: rest)
    = List.filter (fun e => negb (Js.truthyString (field e))) (before ++ rest)).
  { rewrite !List.filter_app. simpl.
    rewrite Hfield, (truthyString_nonempty f Hf). reflexivity. }
  unfold applyToForm, groupErrorsByField.
  rewrite !groupFrom_plain by assumption.
  rewrite Hgeneral.
  rewrite (fold_applyFieldErrors_resolved (Js.entries (fold_left _ (before ++ error :: rest) _))).
  rewrite (fold_applyFieldErrors_resolved (Js.entries (fold_left _ (before ++ rest) _))).
  change (fun entry : string * list ValidationError =>
            resolves (clearFormErrors form) (fst entry))
    with (@selected (list ValidationError) (resolves (clearFormErrors form))).
  rewrite !filter_entries.
  rewrite (group_without_dropped (resolves (clearFormErrors form)) before error rest f [])
    by assumption.
  split; [reflexivity|].
  destruct (_ <? _)%nat; reflexivity.
Qed.

(** *** A resolved error reaches its control *)

Lemma walk_None parts : walk None parts = None.
Proof. destruct parts; reflexivity. Qed.

Lemma find_set (cs : list (string * AbstractControl)) name child v :
  find cs name = Some child -> find (Js.set cs name v) name = Some v.
Proof.
  unfold find. induction cs as [|[k c] cs IH]; simpl; [discriminate|].
  destruct (String.eqb k name) eqn:Hk; simpl; rewrite Hk; [reflexivity|exact IH].
Qed.

(** [slot] is the position [at_] reads. *)
Lemma at_slot (cs : list AbstractControl) index child :
  at_ cs index = Some child <-> exists i, slot cs index = Some i /\ cs !! i = Some child.
Proof.
  unfold at_, slot. destruct index as [z|]; [|split; [discriminate|intros (i & H & _); discriminate]].
  destruct (_ <? 0); [split; [discriminate|intros (i & H & _); discriminate]|].
  split.
  - intros Hchild. pose proof (lookup_lt_Some _ _ _ Hchild) as Hlt.
    apply Nat.ltb_lt in Hlt. rewrite Hlt. eauto.
  - intros (i & Hi & Hchild). destruct (_ <? _)%nat; [|discriminate].
    injection Hi as <-. exact Hchild.
Qed.

Lemma at_insert (cs : list AbstractControl) index i child v :
  slot cs index = Some i -> cs !! i = Some child ->
  at_ (<[i := v]> cs) index = Some v.
Proof.
  intros Hslot Hchild. apply at_slot. exists i. split.
  - unfold slot in *. rewrite length_insert. exact Hslot.
  - apply list_lookup_insert_eq. eapply lookup_lt_Some. exact Hchild.
Qed.

Lemma keepsChildren_id : keepsChildren id.
Proof. intros [e t|e t cs|e t cs]; reflexivity. Qed.

Lemma keepsChildren_setTouched : keepsChildren setTouched.
Proof. intros [e t|e t cs|e t cs]; reflexivity. Qed.

(** Writing through a path that resolves succeeds. *)
Lemma writeAt_defined target up parts c x :
  walk (Some c) parts = Some x -> exists c', writeAt target up parts c = Some c'.
Proof.
  revert c. induction parts as [|part rest IH]; intros c; simpl; [eauto|].
  destruct c as [e t|e t cs|e t cs]; [discriminate| |].
  - destruct (find cs part) as [child|]; [|rewrite walk_None; discriminate].
    intros Hwalk. destruct (IH child Hwalk) as (child' & ->). eauto.
  - destruct (at_ cs (Js.parseInt part)) as [child|] eqn:Hat;
      [|rewrite walk_None; discriminate].
    apply at_slot in Hat as (i & -> & ->).
    intros Hwalk. destruct (IH child Hwalk) as (child' & ->). eauto.
Qed.

(** After a write, the path leads to the node that was written. *)
Lemma walk_writeAt target up parts c c' :
  keepsChildren up ->
  writeAt target up parts c = Some c' ->
  walk (Some c') parts = target <$> walk (Some c) parts.
Proof.
  intros Hup. revert c c'. induction parts as [|part rest IH]; intros c c'; simpl.
  - intros [= <-]. reflexivity.
  - destruct c as [e t|e t cs|e t cs]; [discriminate| |].
    + destruct (find cs part) as [child|] eqn:Hfind; [|discriminate].
      destruct (writeAt target up rest child) as [child'|] eqn:Hw; [|discriminate].
      intros [= <-]. pose proof (Hup (FormGroup e t (Js.set cs part child'))) as Hkeep.
      simpl in Hkeep.
      destruct (up (FormGroup e t (Js.set cs part child'))) as [e' t'|e' t' cs'|e' t' cs'];
        try contradiction. subst cs'. simpl.
      rewrite (find_set cs part child child' Hfind). apply IH. exact Hw.
    + destruct (slot cs (Js.parseInt part)) as [i|] eqn:Hslot; [|discriminate].
      destruct (cs !! i) as [child|] eqn:Hi; [|discriminate].
      destruct (writeAt target up rest child) as [child'|] eqn:Hw; [|discriminate].
      intros [= <-]. pose proof (Hup (FormArray e t (<[i := child']> cs))) as Hkeep.
      simpl in Hkeep.
      destruct (up (FormArray e t (<[i := child']> cs))) as [e' t'|e' t' cs'|e' t' cs'];
        try contradiction. subst cs'. simpl.
      rewrite (at_insert cs _ i child child' Hslot Hi).
      assert (Hat : at_ cs (Js.parseInt part) = Some child) by (apply at_slot; eauto).
      rewrite Hat. apply IH. exact Hw.
Qed.

Lemma entries_single {A} (k : string) (v : A) : Js.entries [(k, v)] = [(k, v)].
Proof. unfold Js.entries. simpl. destruct (Js.isArrayIndex k); reflexivity. Qed.

(** A single field-scoped error whose path resolves, and whose field
    is not the name of a member of [Object.prototype], ends on the
    control its path addresses: that control then carries the message
    under [backend], as its only error, and is touched. *)
Lemma applied_error_reaches_control (form : AbstractControl)
    (error : ValidationError) (f : string) (c : AbstractControl) :
  field error = Some f -> f <> "" -> Js.inherited f = false ->
  getControl form (toFormFieldName f) = Some c ->
  snd (applyToForm form [error]) = Js.Normal tt
  /\ exists c',
       getControl (fst (applyToForm form [error])) (toFormFieldName f) = Some c'
       /\ errors c' = Some [("backend", Js.VStr (message error))]
       /\ touched c' = true.
Proof.
  intros Hfield Hf Hinherited Hc.
  assert (Hresolves : resolves (clearFormErrors form) f = true).
  { rewrite (resolves_shape _ form) by apply shape_clearFormErrors.
    unfold resolves. rewrite Hc. reflexivity. }
  unfold resolves in Hresolves.
  destruct (getControl (clearFormErrors form) (toFormFieldName f)) as [c1|] eqn:Hc1;
    [clear Hresolves|discriminate].
  unfold applyToForm, groupErrorsByField. simpl.
  unfold groupStep. rewrite Hfield, (truthyString_nonempty f Hf). simpl.
  rewrite Hinherited. rewrite entries_single. simpl.
  rewrite Hc1. destruct (String.eqb_spec f ""); [contradiction|]. simpl.
  split; [reflexivity|].
  unfold getControl in *. set (parts := Js.split (toFormFieldName f)) in *.
  set (errs := [("backend", Js.VStr (message error))] : ValidationErrors).
  unfold markAsTouchedAt, setErrorsAt. fold parts.
  destruct (writeAt_defined (setErrors (Some errs)) id parts _ c1 Hc1) as (form2 & Hw2).
  rewrite Hw2.
  pose proof (walk_writeAt _ _ _ _ _ keepsChildren_id Hw2) as Hwalk2.
  rewrite Hc1 in Hwalk2. simpl in Hwalk2.
  destruct (writeAt_defined setTouched setTouched parts _ _ Hwalk2) as (form3 & Hw3).
  rewrite Hw3.
  pose proof (walk_writeAt _ _ _ _ _ keepsChildren_setTouched Hw3) as Hwalk3.
  rewrite Hwalk2 in Hwalk3. simpl in Hwalk3.
  eexists. split; [exact Hwalk3|]. destruct c1; split; reflexivity.
Qed.

(* ================================================================== *)
(** ** Further properties of the stores *)

Ltac settles_tac :=
  intros e; run_async; split_calls; sent_simpl;
  (split; [reflexivity|]); split; intros H; try reflexivity; try discriminate H.

Section StoreStatus.
Context {W : Type} (cafeApi : CafeApiService.t W) (menuApi : MenuApiService.t W).

(** X1. Every asynchronous method of the two stores but
    [loadActiveMenu] ends with [loading] off and with [error] null
    exactly when none of the requests it sent was rejected. *)
Theorem store_methods_settle :
  settles CafeStore.loading CafeStore.error (CafeStore.loadCafes cafeApi)
  /\ (forall cafeId,
        settles CafeStore.loading CafeStore.error (CafeStore.selectCafe cafeApi cafeId))
  /\ (forall request,
        settles CafeStore.loading CafeStore.error (CafeStore.createCafe cafeApi request))
  /\ (forall cafeId,
        settles CafeStore.loading CafeStore.error (CafeStore.deleteCafe cafeApi cafeId))
  /\ (forall cafeId,
        settles MenuStore.loading MenuStore.error (MenuStore.loadMenus menuApi cafeId))
  /\ (forall cafeId menuId,
        settles MenuStore.loading MenuStore.error
          (MenuStore.selectMenu menuApi cafeId menuId))
  /\ (forall cafeId request,
        settles MenuStore.loading MenuStore.error
          (MenuStore.createMenu menuApi cafeId request))
  /\ (forall cafeId menuId request,
        settles MenuStore.loading MenuStore.error
          (MenuStore.updateMenu menuApi cafeId menuId request))
  /\ (forall cafeId menuId,
        settles MenuStore.loading MenuStore.error
          (MenuStore.deleteMenu menuApi cafeId menuId))
  /\ (forall cafeId menuId newName,
        settles MenuStore.loading MenuStore.error
          (MenuStore.cloneMenu menuApi cafeId menuId newName))
  /\ (forall cafeId menuId,
        settles MenuStore.loading MenuStore.error
          (MenuStore.publishMenu menuApi cafeId menuId))
  /\ (forall cafeId menuId,
        settles MenuStore.loading MenuStore.error
          (MenuStore.activateMenu menuApi cafeId menuId)).
Proof.
  repeat apply conj; intros.
  all: unfold settles, CafeStore.loadCafes, CafeStore.selectCafe, CafeStore.createCafe,
         CafeStore.deleteCafe, MenuStore.loadMenus, MenuStore.selectMenu,
         MenuStore.createMenu, MenuStore.updateMenu, MenuStore.deleteMenu,
         MenuStore.cloneMenu, MenuStore.publishMenu, MenuStore.activateMenu.
  all: settles_tac.
Qed.

End StoreStatus.

Ltac refreshes_tac :=
  intros e; run_async; split_calls; sent_simpl;
  first
    [ left; reflexivity
    | right; exists []; split; reflexivity
    | right; eexists [_]; split; reflexivity
    | right; eexists [_; _]; split; reflexivity
    | right; eexists [_; _; _]; split; reflexivity ].

Section StoreRequests.
Context {W : Type} (cafeApi : CafeApiService.t W) (menuApi : MenuApiService.t W).

(** X2. A mutating method whose first request is rejected sends
    nothing else. When that request is fulfilled, the methods that
    refresh send every one of their refresh requests, in the order of
    the source, also when an earlier refresh is rejected; the two
    delete methods send nothing more. *)
Theorem mutations_send_then_refresh :
  (forall request e,
      sendsThenRefreshes (CreateCafe request) [ListCafes]
        (sent e (fst (CafeStore.createCafe cafeApi request e))))
  /\ (forall cafeId e,
      sendsThenRefreshes (DeleteCafe cafeId) []
        (sent e (fst (CafeStore.deleteCafe cafeApi cafeId e))))
  /\ (forall cafeId request e,
      sendsThenRefreshes (CreateMenu cafeId request) [ListMenus cafeId]
        (sent e (fst (MenuStore.createMenu menuApi cafeId request e))))
  /\ (forall cafeId menuId request e,
      sendsThenRefreshes (UpdateMenu cafeId menuId request)
        [GetMenu cafeId menuId; ListMenus cafeId]
        (sent e (fst (MenuStore.updateMenu menuApi cafeId menuId request e))))
  /\ (forall cafeId menuId e,
      sendsThenRefreshes (DeleteMenu cafeId menuId) []
        (sent e (fst (MenuStore.deleteMenu menuApi cafeId menuId e))))
  /\ (forall cafeId menuId newName e,
      sendsThenRefreshes (CloneMenu cafeId menuId newName) [ListMenus cafeId]
        (sent e (fst (MenuStore.cloneMenu menuApi cafeId menuId newName e))))
  /\ (forall cafeId menuId e,
      sendsThenRefreshes (PublishMenu cafeId menuId)
        [GetMenu cafeId menuId; ListMenus cafeId]
        (sent e (fst (MenuStore.publishMenu menuApi cafeId menuId e))))
  /\ (forall cafeId menuId e,
      sendsThenRefreshes (ActivateMenu cafeId menuId)
        [GetMenu cafeId menuId; GetActiveMenu cafeId; ListMenus cafeId]
        (sent e (fst (MenuStore.activateMenu menuApi cafeId menuId e)))).
Proof.
  repeat apply conj; intros.
  all: unfold sendsThenRefreshes, CafeStore.createCafe,
         CafeStore.deleteCafe, MenuStore.createMenu, MenuStore.updateMenu,
         MenuStore.deleteMenu, MenuStore.cloneMenu, MenuStore.publishMenu,
         MenuStore.activateMenu.
  all: revert e; refreshes_tac.
Qed.

(** X3. A delete that resolves to [true] leaves no entity with the
    deleted id in the collection, whatever the number of its
    occurrences, which is the number the collection shrinks by; the
    selection is cleared exactly when the selected entity has that id;
    and [deleteMenu] leaves [activeMenu] and [currentCafeId] as they
    were, also when the deleted menu is the active one. *)
Theorem delete_clears_selection_only :
  (forall cafeId e e',
      CafeStore.deleteCafe cafeApi cafeId e = (e', Js.Normal true) ->
      Forall (fun c => CafeDto.id c <> cafeId) (CafeStore.cafes (store e'))
      /\ (length (CafeStore.cafes (store e'))
          + occurrences CafeDto.id cafeId (CafeStore.cafes (store e))
          = length (CafeStore.cafes (store e)))%nat
      /\ CafeStore.selectedCafe (store e')
         = unlessDeleted CafeDto.id cafeId (CafeStore.selectedCafe (store e)))
  /\ (forall cafeId menuId e e',
      MenuStore.deleteMenu menuApi cafeId menuId e = (e', Js.Normal true) ->
      Forall (fun m => MenuSummaryDto.menuId m <> menuId) (MenuStore.menus (store e'))
      /\ (length (MenuStore.menus (store e'))
          + occurrences MenuSummaryDto.menuId menuId (MenuStore.menus (store e))
          = length (MenuStore.menus (store e)))%nat
      /\ MenuStore.selectedMenu (store e')
         = unlessDeleted MenuDto.id menuId (MenuStore.selectedMenu (store e))
      /\ MenuStore.activeMenu (store e') = MenuStore.activeMenu (store e)
      /\ MenuStore.currentCafeId (store e') = MenuStore.currentCafeId (store e)).
Proof.
  assert (Hfilter : forall A (id_of : A -> string) id (l : list A),
             Forall (fun x => id_of x <> id)
               (List.filter (fun x => negb (String.eqb (id_of x) id)) l)
             /\ (length (List.filter (fun x => negb (String.eqb (id_of x) id)) l)
                 + occurrences id_of id l = length l)%nat).
  { intros A id_of id l. unfold occurrences.
    induction l as [|x l [IH1 IH2]]; simpl; [split; [constructor|reflexivity]|].
    destruct (String.eqb_spec (id_of x) id); simpl.
    - split; [exact IH1|lia].
    - split; [constructor; assumption|lia]. }
  split.
  - intros cafeId e e' H. unfold CafeStore.deleteCafe in H. on_success H.
    destruct (Hfilter _ CafeDto.id cafeId (CafeStore.cafes (store e))) as [H1 H2].
    repeat split; try assumption.
    unfold unlessDeleted. destruct (CafeStore.selectedCafe (store e)) as [sel|]; [|reflexivity].
    destruct (String.eqb _ _); reflexivity.
  - intros cafeId menuId e e' H. unfold MenuStore.deleteMenu in H. on_success H.
    destruct (Hfilter _ MenuSummaryDto.menuId menuId (MenuStore.menus (store e))) as [H1 H2].
    repeat split; try assumption.
    unfold unlessDeleted. destruct (MenuStore.selectedMenu (store e)) as [sel|]; [|reflexivity].
    destruct (String.eqb _ _); reflexivity.
Qed.

(** X4. [loadMenus] records the cafe it was called for before it
    sends the request: [currentCafeId] is that cafe whatever the
    outcome, and when the request is rejected the menus of the store
    are still the ones it held, those of the cafe loaded before. When
    the request is fulfilled the menus are the ones of the response. *)
Theorem loadMenus_sets_cafe_first (cafeId : string)
    (e : env MenuStore.MenuStoreState W) :
  let e' := fst (MenuStore.loadMenus menuApi cafeId e) in
  MenuStore.currentCafeId (store e') = Some cafeId
  /\ sent e e' = [(ListMenus cafeId,
                   fulfilled (settlement (snd (MenuApiService.listMenus menuApi cafeId (server e)))))]
  /\ match answer (MenuApiService.listMenus menuApi cafeId) (server e) with
     | Some response => MenuStore.menus (store e') = ListMenusResponse.menus response
     | None => MenuStore.menus (store e') = MenuStore.menus (store e)
     end
  /\ MenuStore.selectedMenu (store e') = MenuStore.selectedMenu (store e)
  /\ MenuStore.activeMenu (store e') = MenuStore.activeMenu (store e).
Proof.
  unfold MenuStore.loadMenus, answer. run_async. split_calls; sent_simpl; repeat split.
Qed.

End StoreRequests.

Section StoreLoads.
Context {W : Type} (cafeApi : CafeApiService.t W) (menuApi : MenuApiService.t W).

(** X6. A load replaces its own slice of the state and no other:
    with the request fulfilled the slice is the response, and with the
    request rejected [loadCafes], [selectCafe] and [selectMenu] keep
    the data the store held, while [loadActiveMenu] forgets the active
    menu it held. *)
Theorem loads_replace_their_slice :
  (forall e,
      let e' := fst (CafeStore.loadCafes cafeApi e) in
      match answer (CafeApiService.listCafes cafeApi) (server e) with
      | Some response => CafeStore.cafes (store e') = ListCafesResponse.cafes response
      | None => CafeStore.cafes (store e') = CafeStore.cafes (store e)
      end
      /\ CafeStore.selectedCafe (store e') = CafeStore.selectedCafe (store e))
  /\ (forall cafeId e,
      let e' := fst (CafeStore.selectCafe cafeApi cafeId e) in
      match answer (CafeApiService.getCafe cafeApi cafeId) (server e) with
      | Some cafe => CafeStore.selectedCafe (store e') = Some cafe
      | None => CafeStore.selectedCafe (store e') = CafeStore.selectedCafe (store e)
      end
      /\ CafeStore.cafes (store e') = CafeStore.cafes (store e))
  /\ (forall cafeId menuId e,
      let e' := fst (MenuStore.selectMenu menuApi cafeId menuId e) in
      match answer (MenuApiService.getMenu menuApi cafeId menuId) (server e) with
      | Some menu => MenuStore.selectedMenu (store e') = Some menu
      | None => MenuStore.selectedMenu (store e') = MenuStore.selectedMenu (store e)
      end
      /\ MenuStore.menus (store e') = MenuStore.menus (store e)
      /\ MenuStore.activeMenu (store e') = MenuStore.activeMenu (store e)
      /\ MenuStore.currentCafeId (store e') = MenuStore.currentCafeId (store e))
  /\ (forall cafeId e,
      let e' := fst (MenuStore.loadActiveMenu menuApi cafeId e) in
      MenuStore.activeMenu (store e')
      = answer (MenuApiService.getActiveMenu menuApi cafeId) (server e)
      /\ MenuStore.menus (store e') = MenuStore.menus (store e)
      /\ MenuStore.selectedMenu (store e') = MenuStore.selectedMenu (store e)
      /\ MenuStore.currentCafeId (store e') = MenuStore.currentCafeId (store e)
      /\ MenuStore.error (store e') = None).
Proof.
  repeat apply conj; intros.
  all: subst e'.
  all: unfold CafeStore.loadCafes, CafeStore.selectCafe, MenuStore.selectMenu,
         MenuStore.loadActiveMenu, answer.
  all: run_async; split_calls; repeat split.
Qed.

End StoreLoads.

(** X3, at the deletion of the selected cafe "a", and of the menu
    "m1" that the store holds as the active one. *)
Lemma delete_clears_selection_only_witness :
  let e0 := Examples.start Examples.cafeState in
  let m0 := Examples.start Examples.menuState in
  (let e' := fst (CafeStore.deleteCafe Examples.cafeApi "a" e0) in
   Forall (fun c => CafeDto.id c <> "a") (CafeStore.cafes (store e'))
   /\ (length (CafeStore.cafes (store e'))
       + occurrences CafeDto.id "a" (CafeStore.cafes (store e0))
       = length (CafeStore.cafes (store e0)))%nat
   /\ CafeStore.selectedCafe (store e')
      = unlessDeleted CafeDto.id "a" (CafeStore.selectedCafe (store e0)))
  /\ (let m' := fst (MenuStore.deleteMenu Examples.menuApi "a" "m1" m0) in
      Forall (fun m => MenuSummaryDto.menuId m <> "m1") (MenuStore.menus (store m'))
      /\ (length (MenuStore.menus (store m'))
          + occurrences MenuSummaryDto.menuId "m1" (MenuStore.menus (store m0))
          = length (MenuStore.menus (store m0)))%nat
      /\ MenuStore.selectedMenu (store m')
         = unlessDeleted MenuDto.id "m1" (MenuStore.selectedMenu (store m0))
      /\ MenuStore.activeMenu (store m') = Some (Examples.menu "m1" "Lunch" Active)
      /\ MenuStore.currentCafeId (store m') = Some "a").
Proof.
  cbv zeta.
  destruct (delete_clears_selection_only Examples.cafeApi Examples.menuApi)
    as (Hcafe & Hmenu).
  split.
  - apply Hcafe. reflexivity.
  - apply (Hmenu "a" "m1" (Examples.start Examples.menuState)). reflexivity.
Defined.

(* ================================================================== *)
(** ** Further properties of the submission handlers *)

Section MenuSubmit.
Context {W : Type} (menuApi : MenuApiService.t W).
Context (menuData : Forms.AbstractControl -> MenuRequest).

(** X7. The menu form page sends nothing when a submission is
    already running, as when the form is invalid: it marks every
    control touched and returns, leaving the flag, the store and the
    server as they are. Without a cafe id in the route it does nothing
    at all. *)
Theorem menu_onSubmit_blocked
    (e : env (MenuFormPageComponent.t * MenuStore.MenuStoreState) W) :
  let this := fst (store e) in
  let run := MenuFormPageComponent.onSubmit menuApi menuData e in
  (Forms.invalid (MenuFormPageComponent.menuFormStatus this)
   || MenuFormPageComponent.isSubmitting this = true ->
   snd run = Js.Normal tt
   /\ MenuFormPageComponent.menuForm (fst (store (fst run)))
      = Forms.markAllAsTouched (MenuFormPageComponent.menuForm this)
   /\ MenuFormPageComponent.isSubmitting (fst (store (fst run)))
      = MenuFormPageComponent.isSubmitting this
   /\ MenuFormPageComponent.navigations (fst (store (fst run)))
      = MenuFormPageComponent.navigations this
   /\ requests (fst run) = requests e /\ server (fst run) = server e
   /\ snd (store (fst run)) = snd (store e))
  /\ (Forms.invalid (MenuFormPageComponent.menuFormStatus this)
      || MenuFormPageComponent.isSubmitting this = false ->
      Js.truthyString (MenuFormPageComponent.cafeId this) = false ->
      run = (e, Js.Normal tt)).
Proof.
  cbv zeta. unfold MenuFormPageComponent.onSubmit. run_async. split.
  - intros ->. simpl. repeat split.
  - intros -> Hcafe. destruct (MenuFormPageComponent.cafeId (fst (store e))) as [id|];
      [|reflexivity].
    simpl in Hcafe. simpl. rewrite Hcafe. reflexivity.
Qed.

(** X8. A submission that passes the guard never throws and always
    lowers [isSubmitting] again. It sends one mutation, [updateMenu]
    when the route has a menu id and [createMenu] otherwise, with the
    payload built from the form, followed by that method's refresh
    requests. It then navigates to the menu list of the cafe exactly
    when the store's error is null or empty, which it is whenever no
    request was rejected. *)
Theorem menu_onSubmit_submits
    (e : env (MenuFormPageComponent.t * MenuStore.MenuStoreState) W)
    (cafeId : string) :
  Forms.invalid (MenuFormPageComponent.menuFormStatus (fst (store e))) = false ->
  MenuFormPageComponent.isSubmitting (fst (store e)) = false ->
  MenuFormPageComponent.cafeId (fst (store e)) = Some cafeId ->
  cafeId <> "" ->
  let this := fst (store e) in
  let run := MenuFormPageComponent.onSubmit menuApi menuData e in
  let this' := fst (store (fst run)) in
  let data := menuData (MenuFormPageComponent.menuForm this) in
  snd run = Js.Normal tt
  /\ MenuFormPageComponent.isSubmitting this' = false
  /\ MenuFormPageComponent.menuForm this' = MenuFormPageComponent.menuForm this
  /\ match MenuFormPageComponent.menuId this with
     | Some menuId =>
         if String.eqb menuId "" then
           sendsThenRefreshes (CreateMenu cafeId data) [ListMenus cafeId]
             (sent e (fst run))
         else
           sendsThenRefreshes (UpdateMenu cafeId menuId data)
             [GetMenu cafeId menuId; ListMenus cafeId] (sent e (fst run))
     | None =>
         sendsThenRefreshes (CreateMenu cafeId data) [ListMenus cafeId]
           (sent e (fst run))
     end
  /\ MenuFormPageComponent.navigations this'
     = (if Js.truthyString (MenuStore.error (snd (store (fst run))))
        then MenuFormPageComponent.navigations this
        else MenuFormPageComponent.navigations this ++ [["/cafes"; cafeId; "menus"]])%list
  /\ (anyRejected (sent e (fst run)) = false ->
      MenuFormPageComponent.navigations this'
      = (MenuFormPageComponent.navigations this ++ [["/cafes"; cafeId; "menus"]])%list).
Proof.
  intros Hvalid Hidle Hcafe Hid. cbv zeta.
  unfold MenuFormPageComponent.onSubmit, MenuFormPageComponent.isEditMode.
  run_async. rewrite Hvalid, Hidle, Hcafe. simpl.
  destruct (String.eqb_spec cafeId ""); [contradiction|]. simpl.
  destruct (MenuFormPageComponent.menuId (fst (store e))) as [menuId|]; simpl.
  - destruct (String.eqb_spec menuId ""); simpl.
    + unfold MenuStore.createMenu, sendsThenRefreshes. run_async. split_calls.
      all: repeat match goal with
             | |- context [String.eqb (errorMessage ?c ?f) ""] =>
                 let E := fresh "E" in
                 destruct (String.eqb (errorMessage c f) "") eqn:E; simpl;
                 rewrite ?E; simpl
             end.
      all: sent_simpl.
      all: repeat split; try (intros H; discriminate H).
      all: first [left; reflexivity | right; eexists [_]; split; reflexivity].
    + unfold MenuStore.updateMenu, sendsThenRefreshes. run_async. split_calls.
      all: repeat match goal with
             | |- context [String.eqb (errorMessage ?c ?f) ""] =>
                 let E := fresh "E" in
                 destruct (String.eqb (errorMessage c f) "") eqn:E; simpl;
                 rewrite ?E; simpl
             end.
      all: sent_simpl.
      all: repeat split; try (intros H; discriminate H).
      all: first [left; reflexivity | right; eexists [_; _]; split; reflexivity].
  - unfold MenuStore.createMenu, sendsThenRefreshes. run_async. split_calls.
    all: repeat match goal with
           | |- context [String.eqb (errorMessage ?c ?f) ""] =>
               let E := fresh "E" in
               destruct (String.eqb (errorMessage c f) "") eqn:E; simpl;
               rewrite ?E; simpl
           end.
    all: sent_simpl.
    all: repeat split; try (intros H; discriminate H).
    all: first [left; reflexivity | right; eexists [_]; split; reflexivity].
Qed.

End MenuSubmit.

(** X8, at the edit page of menu "m1" with the example server. *)
Lemma menu_onSubmit_submits_witness :
  let e := Examples.start (MoreExamples.editPage, MenuStore.initialState) in
  let run := MenuFormPageComponent.onSubmit Examples.menuApi Examples.menuData e in
  snd run = Js.Normal tt
  /\ MenuFormPageComponent.isSubmitting (fst (store (fst run))) = false
  /\ MenuFormPageComponent.navigations (fst (store (fst run))) = [["/cafes"; "a"; "menus"]].
Proof.
  cbv zeta.
  destruct (menu_onSubmit_submits Examples.menuApi Examples.menuData
              (Examples.start (MoreExamples.editPage, MenuStore.initialState)) "a"
              eq_refl eq_refl eq_refl ltac:(discriminate))
    as (Hrun & Hflag & _ & _ & _ & Hnav).
  split; [exact Hrun|]. split; [exact Hflag|].
  apply Hnav. reflexivity.
Defined.

Section CafeSubmit.
Context {W : Type} (cafeApi : CafeApiService.t W).

(** X9. The cafe dialog sends nothing and stays open, its state
    unchanged, when the form is not valid and also when the form is
    valid but the name it holds is null or empty. *)
Theorem cafe_onSubmit_blocked
    (e : env (CafeFormDialogComponent.t * CafeStore.CafeState) W) :
  Forms.valid (CafeFormDialogComponent.cafeFormStatus (fst (store e))) = false
  \/ Js.truthyString (CafeFormDialogComponent.nameValue (fst (store e))) = false ->
  CafeFormDialogComponent.onSubmit cafeApi e = (e, Js.Normal tt).
Proof.
  unfold CafeFormDialogComponent.onSubmit. run_async.
  intros [-> | Hname]; [reflexivity|].
  destruct (Forms.valid _); [|reflexivity].
  destruct (CafeFormDialogComponent.nameValue (fst (store e))) as [name|]; [|reflexivity].
  simpl in Hname. rewrite Hname. reflexivity.
Qed.

(** X10. On a valid form with a name the cafe dialog never throws,
    leaves the form as it is, and sends [createCafe] with the name and
    with a null contact when the contact is empty, followed by the
    refresh of the list when the creation is fulfilled. It closes with
    the new id exactly when no request was rejected and the id is not
    empty; after a rejected request it stays open. *)
Theorem cafe_onSubmit_submits
    (e : env (CafeFormDialogComponent.t * CafeStore.CafeState) W) (name : string) :
  Forms.valid (CafeFormDialogComponent.cafeFormStatus (fst (store e))) = true ->
  CafeFormDialogComponent.nameValue (fst (store e)) = Some name ->
  name <> "" ->
  let this := fst (store e) in
  let run := CafeFormDialogComponent.onSubmit cafeApi e in
  let this' := fst (store (fst run)) in
  let request :=
    {| cafeName := name;
       cafeContactInfo :=
         if Js.truthyString (CafeFormDialogComponent.contactInfoValue this)
         then CafeFormDialogComponent.contactInfoValue this else None |} in
  snd run = Js.Normal tt
  /\ CafeFormDialogComponent.cafeForm this' = CafeFormDialogComponent.cafeForm this
  /\ sendsThenRefreshes (CreateCafe request) [ListCafes] (sent e (fst run))
  /\ (anyRejected (sent e (fst run)) = true ->
      CafeFormDialogComponent.closedWith this' = CafeFormDialogComponent.closedWith this)
  /\ (anyRejected (sent e (fst run)) = false ->
      exists response,
        answer (CafeApiService.createCafe cafeApi request) (server e) = Some response
        /\ CafeFormDialogComponent.closedWith this'
           = if String.eqb (CreateCafeResponse.cafeId response) ""
             then CafeFormDialogComponent.closedWith this
             else (CafeFormDialogComponent.closedWith this
                   ++ [CreateCafeResponse.cafeId response])%list).
Proof.
  intros Hvalid Hname Hne. cbv zeta.
  unfold CafeFormDialogComponent.onSubmit, CafeStore.createCafe, sendsThenRefreshes, answer.
  run_async. rewrite Hvalid, Hname. simpl.
  destruct (String.eqb_spec name ""); [contradiction|]. simpl.
  split_calls.
  all: repeat match goal with
         | |- context [String.eqb (CreateCafeResponse.cafeId ?c) ""] =>
             let E := fresh "E" in
             destruct (String.eqb (CreateCafeResponse.cafeId c) "") eqn:E; simpl;
             rewrite ?E; simpl
         end.
  all: sent_simpl.
  all: repeat split; try (intros H; discriminate H).
  all: try (first [left; reflexivity | right; eexists [_]; split; reflexivity]).
  all: intros _; eexists; split; [reflexivity|]; simpl; rewrite ?E; reflexivity.
Qed.

End CafeSubmit.

(** X9, at the dialog as it opens. *)
Lemma cafe_onSubmit_blocked_witness :
  CafeFormDialogComponent.onSubmit Examples.cafeApi
    (Examples.start (Examples.cafeDialog, CafeStore.initialState))
  = (Examples.start (Examples.cafeDialog, CafeStore.initialState), Js.Normal tt).
Proof.
  apply (cafe_onSubmit_blocked Examples.cafeApi). left. reflexivity.
Defined.

(** X10, at the dialog filled in with the name "Corner". *)
Lemma cafe_onSubmit_submits_witness :
  let e := Examples.start (MoreExamples.filledDialog, CafeStore.initialState) in
  let run := CafeFormDialogComponent.onSubmit Examples.cafeApi e in
  snd run = Js.Normal tt
  /\ sendsThenRefreshes
       (CreateCafe {| cafeName := "Corner"; cafeContactInfo := None |}) [ListCafes]
       (sent e (fst run))
  /\ CafeFormDialogComponent.closedWith (fst (store (fst run))) = ["c"].
Proof.
  cbv zeta.
  destruct (cafe_onSubmit_submits Examples.cafeApi
              (Examples.start (MoreExamples.filledDialog, CafeStore.initialState))
              "Corner" eq_refl eq_refl ltac:(discriminate))
    as (Hrun & _ & Hsent & _ & Hclose).
  split; [exact Hrun|]. split; [exact Hsent|].
  destruct (Hclose eq_refl) as (response & Hanswer & ->).
  injection Hanswer as <-. reflexivity.
Defined.

(** X7, at the menu form page with its form invalid. *)
Lemma menu_onSubmit_blocked_witness :
  let e := Examples.start (Examples.menuPage, MenuStore.initialState) in
  let run := MenuFormPageComponent.onSubmit Examples.menuApi Examples.menuData e in
  snd run = Js.Normal tt
  /\ MenuFormPageComponent.menuForm (fst (store (fst run)))
     = Forms.markAllAsTouched Examples.menuForm
  /\ requests (fst run) = [].
Proof.
  cbv zeta.
  pose proof (menu_onSubmit_blocked Examples.menuApi Examples.menuData
                (Examples.start (Examples.menuPage, MenuStore.initialState)))
    as Hblocked.
  cbv zeta in Hblocked. destruct Hblocked as (Hblocked & _).
  destruct (Hblocked eq_refl) as (Hrun & Hform & _ & _ & Hreq & _).
  split; [exact Hrun|]. split; [exact Hform|exact Hreq].
Defined.
(* ================================================================== *)
(** ** The sections of the menu form *)

Section JsSetFacts.
Import JsSet.

Lemma has_app (s1 s2 : JsSet.t) (y : nat) :
  JsSet.has (s1 ++ s2)%list y = JsSet.has s1 y || JsSet.has s2 y.
Proof. unfold JsSet.has. apply existsb_app. Qed.

Lemma has_add (s : JsSet.t) (x y : nat) :
  JsSet.has (JsSet.add s x) y = JsSet.has s y || (y =? x)%nat.
Proof.
  unfold JsSet.add. destruct (JsSet.has s x) eqn:Hx.
  - destruct (Nat.eqb_spec y x) as [->|_].
    + rewrite Hx. reflexivity.
    + rewrite orb_false_r. reflexivity.
  - rewrite has_app. simpl. rewrite orb_false_r. reflexivity.
Qed.

Lemma has_delete (s : JsSet.t) (x y : nat) :
  JsSet.has (JsSet.delete s x) y = JsSet.has s y && negb (y =? x)%nat.
Proof.
  unfold JsSet.has, JsSet.delete. induction s as [|z s IH]; simpl; [reflexivity|].
  destruct (Nat.eqb_spec z x) as [Hzx|Hzx]; simpl; rewrite IH.
  - subst z. destruct (y =? x)%nat, (existsb (Nat.eqb y) s); reflexivity.
  - destruct (Nat.eqb_spec y z) as [Hyz|Hyz]; simpl; [|reflexivity].
    subst z. destruct (Nat.eqb_spec y x); [contradiction|]. reflexivity.
Qed.

(** The set [removeSection] builds holds the index [j] exactly when
    the old set held the index that moves to [j]. *)
Lemma has_reindexed (index : nat) (s acc : JsSet.t) (j : nat) :
  JsSet.has
    (fold_left
       (fun newSet i =>
          if (index <? i)%nat then JsSet.add newSet (i - 1)
          else if (i <? index)%nat then JsSet.add newSet i
          else newSet) s acc) j
  = JsSet.has acc j || JsSet.has s (if (j <? index)%nat then j else S j).
Proof.
  revert acc. induction s as [|i s IH]; intros acc; simpl.
  - rewrite orb_false_r. reflexivity.
  - rewrite IH. clear IH.
    destruct (Nat.ltb_spec index i).
    + rewrite has_add.
      destruct (Nat.ltb_spec j index).
      * destruct (Nat.eqb_spec j (i - 1)); [lia|].
        destruct (Nat.eqb_spec j i); [lia|].
        rewrite orb_false_r. reflexivity.
      * destruct (Nat.eqb_spec j (i - 1)), (Nat.eqb_spec (S j) i); try lia;
          simpl; rewrite ?orb_false_r, ?orb_true_r; reflexivity.
    + destruct (Nat.ltb_spec i index).
      * rewrite has_add.
        destruct (Nat.ltb_spec j index).
        -- destruct (Nat.eqb_spec j i); simpl;
             rewrite ?orb_false_r, ?orb_true_r; reflexivity.
        -- destruct (Nat.eqb_spec j i); [lia|].
           destruct (Nat.eqb_spec (S j) i); [lia|].
           rewrite orb_false_r. reflexivity.
      * assert (i = index) by lia. subst i.
        destruct (Nat.ltb_spec j index).
        -- destruct (Nat.eqb_spec j index); [lia|]. reflexivity.
        -- destruct (Nat.eqb_spec (S j) index); [lia|]. reflexivity.
Qed.

Lemma has_Forall (s : JsSet.t) (P : nat -> Prop) :
  Forall P s <-> forall j, JsSet.has s j = true -> P j.
Proof.
  unfold JsSet.has. rewrite Forall_forall. split; intros H j Hj.
  - apply existsb_exists in Hj as (x & Hx & Heq).
    apply Nat.eqb_eq in Heq. subst x. apply H. apply list_elem_of_In. exact Hx.
  - apply H. apply existsb_exists. exists j. split.
    + apply list_elem_of_In. exact Hj.
    + apply Nat.eqb_refl.
Qed.

End JsSetFacts.

Section MoveItem.
Context {A : Type}.

Lemma moveItemInArray_length (array : list A) (fromIndex toIndex : nat) :
  length (moveItemInArray array fromIndex toIndex) = length array.
Proof.
  unfold moveItemInArray.
  destruct (_ =? _)%nat; [reflexivity|].
  destruct (array !! _) as [target|] eqn:Hfrom; [|reflexivity].
  apply lookup_lt_Some in Hfrom.
  rewrite length_app. simpl. rewrite length_take, length_drop, length_delete by
    (apply lookup_lt_is_Some_2; exact Hfrom).
  lia.
Qed.

Lemma moveItemInArray_Permutation (array : list A) (fromIndex toIndex : nat) :
  moveItemInArray array fromIndex toIndex ≡ₚ array.
Proof.
  unfold moveItemInArray.
  destruct (_ =? _)%nat; [reflexivity|].
  destruct (array !! _) as [target|] eqn:Hfrom; [|reflexivity].
  rewrite <- Permutation_middle, take_drop.
  symmetry. apply delete_Permutation. exact Hfrom.
Qed.

Lemma moveItemInArray_lands (array : list A) (fromIndex toIndex : nat) :
  moveItemInArray array fromIndex toIndex !! Nat.min toIndex (length array - 1)
  = array !! Nat.min fromIndex (length array - 1).
Proof.
  unfold moveItemInArray.
  destruct (Nat.eqb_spec (Nat.min fromIndex (length array - 1))
              (Nat.min toIndex (length array - 1))) as [Heq|Hne].
  - rewrite Heq. reflexivity.
  - destruct (array !! Nat.min fromIndex _) as [target|] eqn:Hfrom.
    + pose proof (lookup_lt_Some _ _ _ Hfrom) as Hlt.
      rewrite lookup_app_r; rewrite length_take, length_delete by
        (apply lookup_lt_is_Some_2; exact Hlt).
      * replace (_ - _)%nat with 0%nat by lia. reflexivity.
      * lia.
    + apply lookup_ge_None in Hfrom. apply lookup_ge_None. lia.
Qed.

End MoveItem.

Section SectionFacts.
Import MenuFormSections.
Context {A : Type}.
Implicit Types (c : MenuFormSections.t A) (section : A).

Lemma isSectionExpanded_toggleSection c (index j : nat) :
  isSectionExpanded j (toggleSection index c)
  = (if (j =? index)%nat then negb (isSectionExpanded index c)
     else isSectionExpanded j c).
Proof.
  unfold isSectionExpanded, toggleSection. simpl.
  destruct (JsSet.has (expandedSectionsSet c) index) eqn:Hi.
  - rewrite has_delete. destruct (Nat.eqb_spec j index) as [Heq|_]; simpl.
    + rewrite andb_false_r. reflexivity.
    + rewrite andb_true_r. reflexivity.
  - rewrite has_add. destruct (Nat.eqb_spec j index) as [Heq|_]; simpl.
    + rewrite orb_true_r. reflexivity.
    + rewrite orb_false_r. reflexivity.
Qed.

Lemma isSectionExpanded_addSection c section (j : nat) :
  isSectionExpanded j (addSection section c)
  = isSectionExpanded j c || (j =? length (sections c))%nat.
Proof.
  unfold isSectionExpanded, addSection. simpl. rewrite has_add.
  rewrite length_app. simpl.
  replace (length (sections c) + 1 - 1)%nat with (length (sections c)) by lia.
  reflexivity.
Qed.

(** X11. After [removeSection index], position [j] holds the section
    that was at [j] before when [j] is below [index] and the one that
    was at [j + 1] otherwise, and it is expanded exactly when that
    section was: the sections that stay keep their expansion. *)
Theorem removeSection_keeps_expansion c (index j : nat) :
  let before := if (j <? index)%nat then j else S j in
  sections (removeSection index c) !! j = sections c !! before
  /\ isSectionExpanded j (removeSection index c) = isSectionExpanded before c.
Proof.
  simpl. split.
  - destruct (Nat.ltb_spec j index).
    + apply list_lookup_delete_lt. assumption.
    + apply list_lookup_delete_ge. assumption.
  - unfold isSectionExpanded. simpl. rewrite has_reindexed. reflexivity.
Qed.

(** X12. [toggleSection index] flips the expansion of [index] and of
    no other index, leaves the sections alone, and toggling the same
    index twice gives every index its first expansion back. *)
Theorem toggleSection_flips_one c (index j : nat) :
  isSectionExpanded j (toggleSection index c)
  = (if (j =? index)%nat then negb (isSectionExpanded index c)
     else isSectionExpanded j c)
  /\ sections (toggleSection index c) = sections c
  /\ isSectionExpanded j (toggleSection index (toggleSection index c))
     = isSectionExpanded j c.
Proof.
  pose proof isSectionExpanded_toggleSection as Hone.
  split; [apply Hone|]. split; [reflexivity|].
  rewrite Hone. destruct (Nat.eqb_spec j index) as [->|Hne].
  - rewrite Hone, Nat.eqb_refl, negb_involutive. reflexivity.
  - rewrite Hone. destruct (Nat.eqb_spec j index); [contradiction|]. reflexivity.
Qed.

(** X13. [addSection] puts the new section after the ones there are
    and expands it; the other sections and the expansion of every
    other index stay as they were. *)
Theorem addSection_expands_new_last c section (j : nat) :
  let newIndex := length (sections c) in
  sections (addSection section c) = (sections c ++ [section])%list
  /\ sections (addSection section c) !! newIndex = Some section
  /\ isSectionExpanded newIndex (addSection section c) = true
  /\ isSectionExpanded j (addSection section c)
     = isSectionExpanded j c || (j =? newIndex)%nat.
Proof.
  simpl. split; [reflexivity|]. split.
  - simpl. rewrite lookup_app_r by lia. rewrite Nat.sub_diag. reflexivity.
  - rewrite !isSectionExpanded_addSection.
    rewrite Nat.eqb_refl, orb_true_r. split; reflexivity.
Qed.

(** X14. [dropSection] keeps the sections, up to their order, and
    puts the dragged one at the index it was dropped at; the expansion
    of every index stays as it was, so it goes with the position and
    not with the section. *)
Theorem dropSection_moves_section_only c (previousIndex currentIndex j : nat) :
  let last := (length (sections c) - 1)%nat in
  sections (dropSection previousIndex currentIndex c) ≡ₚ sections c
  /\ sections (dropSection previousIndex currentIndex c) !! Nat.min currentIndex last
     = sections c !! Nat.min previousIndex last
  /\ isSectionExpanded j (dropSection previousIndex currentIndex c)
     = isSectionExpanded j c.
Proof.
  simpl. split; [apply moveItemInArray_Permutation|].
  split; [apply moveItemInArray_lands|reflexivity].
Qed.

Lemma perform_keeps_expanded_in_range (a : action A) c :
  offered a c = true ->
  Forall (fun i => (i < length (sections c))%nat) (expandedSectionsSet c) ->
  Forall (fun i => (i < length (sections (perform a c)))%nat)
    (expandedSectionsSet (perform a c)).
Proof.
  intros Hoff Hin. rewrite has_Forall in Hin. apply has_Forall. intros j Hj.
  destruct a as [section|index|index|previousIndex currentIndex]; simpl in *.
  - change (isSectionExpanded j (addSection section c) = true) in Hj.
    rewrite isSectionExpanded_addSection in Hj. rewrite length_app. simpl.
    apply orb_true_iff in Hj as [Hj|Hj].
    + apply Hin in Hj. lia.
    + apply Nat.eqb_eq in Hj. lia.
  - apply Nat.ltb_lt in Hoff.
    rewrite has_reindexed in Hj. simpl in Hj.
    rewrite length_delete by (apply lookup_lt_is_Some_2; exact Hoff).
    destruct (Nat.ltb_spec j index); [lia|].
    apply Hin in Hj. lia.
  - apply Nat.ltb_lt in Hoff.
    change (isSectionExpanded j (toggleSection index c) = true) in Hj.
    rewrite isSectionExpanded_toggleSection in Hj. destruct (Nat.eqb_spec j index) as [Heq|_].
    + rewrite Heq. exact Hoff.
    + apply Hin. exact Hj.
  - rewrite moveItemInArray_length. apply Hin. exact Hj.
Qed.

(** X15. Whatever sections are added, removed, toggled and dragged,
    each at an index the form has when it is asked for, the expanded
    indices stay indices of sections of the form. *)
Theorem expanded_indices_stay_in_range (actions : list (action A)) c c' :
  Forall (fun i => (i < length (sections c))%nat) (expandedSectionsSet c) ->
  performAll actions c = Some c' ->
  Forall (fun i => (i < length (sections c'))%nat) (expandedSectionsSet c').
Proof.
  revert c. induction actions as [|a actions IH]; intros c Hin Hrun; simpl in Hrun.
  - injection Hrun as <-. exact Hin.
  - destruct (offered a c) eqn:Hoff; [|discriminate].
    apply (IH (perform a c)); [|exact Hrun].
    apply perform_keeps_expanded_in_range; assumption.
Qed.

End SectionFacts.

Lemma expanded_indices_stay_in_range_witness :
  let c := {| MenuFormSections.sections := ["Starters"; "Mains"];
              MenuFormSections.expandedSectionsSet := [1%nat] |} in
  let actions :=
    [MenuFormSections.AddSection "Desserts"; MenuFormSections.RemoveSection 0%nat;
     MenuFormSections.ToggleSection 0%nat; MenuFormSections.DropSection 1%nat 0%nat] in
  let c' := {| MenuFormSections.sections := ["Desserts"; "Mains"];
               MenuFormSections.expandedSectionsSet := [1%nat] |} in
  MenuFormSections.performAll actions c = Some c'
  /\ Forall (fun i => (i < length (MenuFormSections.sections c'))%nat)
       (MenuFormSections.expandedSectionsSet c').
Proof.
  split; [reflexivity|].
  apply (expanded_indices_stay_in_range
           [MenuFormSections.AddSection "Desserts"; MenuFormSections.RemoveSection 0%nat;
            MenuFormSections.ToggleSection 0%nat; MenuFormSections.DropSection 1%nat 0%nat]
           {| MenuFormSections.sections := ["Starters"; "Mains"];
              MenuFormSections.expandedSectionsSet := [1%nat] |}).
  - repeat constructor.
  - reflexivity.
Defined.
(* ================================================================== *)
(** ** The loading indicator *)

Section LoadingFacts.
Import LoadingService.

Lemma perform_keeps_flag (c : call) (s : LoadingService.t) :
  0 <= loadingCount s ->
  0 <= loadingCount (perform c s)
  /\ isLoading (perform c s) = (0 <? loadingCount (perform c s)).
Proof.
  intros Hs. destruct c; simpl; split; try reflexivity; lia.
Qed.

Lemma performAll_keeps_flag (calls : list call) (s : LoadingService.t) :
  0 <= loadingCount s ->
  isLoading s = (0 <? loadingCount s) ->
  0 <= loadingCount (performAll calls s)
  /\ isLoading (performAll calls s) = (0 <? loadingCount (performAll calls s)).
Proof.
  unfold performAll. revert s.
  induction calls as [|c calls IH]; intros s Hs Hflag; simpl.
  - split; assumption.
  - destruct (perform_keeps_flag c s Hs) as (Hs' & Hflag').
    apply IH; assumption.
Qed.


(** X16. Whatever calls of [show] and [hide] the service has had,
    its count is not negative and [isLoading] says whether it is
    positive; a [show] then turns [isLoading] on, and a [hide] of a
    service that is not loading changes nothing. *)
Theorem loading_flag_follows_count (calls : list call) :
  let s := performAll calls initial in
  0 <= loadingCount s
  /\ isLoading s = (0 <? loadingCount s)
  /\ isLoading (show s) = true
  /\ (isLoading s = false -> hide s = s).
Proof.
  simpl.
  destruct (performAll_keeps_flag calls initial) as (Hs & Hflag);
    [simpl; lia|reflexivity|].
  split; [exact Hs|]. split; [exact Hflag|]. split.
  - simpl. apply Z.ltb_lt. lia.
  - intros Hoff. rewrite Hflag in Hoff. apply Z.ltb_ge in Hoff.
    assert (Hzero : loadingCount (performAll calls initial) = 0) by lia.
    destruct (performAll calls initial) as [count flag]. simpl in *. subst.
    reflexivity.
Qed.


End LoadingFacts.


(* ================================================================== *)
(** ** The retry interceptor *)

Section RetryFacts.
Import RetryInterceptor.
Context {A : Type}.
Implicit Types (next : nat -> attempt A).

(** X18. The interceptor sends a request at most three times; all
    the attempts but the last failed with status 0 or a status from
    500 on; the caller gets what the last attempt ended with; and the
    interceptor waited 1000 ms before the second attempt and 2000 ms
    before the third. *)
Theorem retry_sends_at_most_three url next :
  let o := retryInterceptor url next in
  (1 <= attempts o <= 3)%nat
  /\ result o = next (attempts o - 1)%nat
  /\ (forall i, (i < attempts o - 1)%nat ->
        exists status, next i = Failed status /\ retryable status = true)
  /\ waited o = 500 * Z.of_nat (attempts o - 1) * Z.of_nat (attempts o).
Proof.
  unfold retryInterceptor. destruct (includes "/i18n/" url).
  { simpl. repeat apply conj; try reflexivity; lia. }
  unfold MAX_RETRIES. simpl.
  destruct (next 0%nat) as [a0|s0] eqn:H0; simpl.
  { rewrite H0. repeat apply conj; try reflexivity; lia. }
  destruct (retryable s0) eqn:R0; simpl.
  2: { rewrite H0. repeat apply conj; try reflexivity; lia. }
  destruct (next 1%nat) as [a1|s1] eqn:H1; simpl.
  { rewrite H1. repeat apply conj; try reflexivity; try lia;
      intros i Hi; assert (i = 0%nat) by lia; subst i; eauto. }
  destruct (retryable s1) eqn:R1; simpl.
  2: { rewrite H1. repeat apply conj; try reflexivity; try lia;
         intros i Hi; assert (i = 0%nat) by lia; subst i; eauto. }
  assert (Hprev : forall i, (i < 2)%nat ->
            exists status, next i = Failed status /\ retryable status = true).
  { intros i Hi. destruct i as [|[|i]]; [eauto|eauto|lia]. }
  destruct (next 2%nat) as [a2|s2] eqn:H2; simpl; rewrite H2;
    repeat apply conj; try reflexivity; try lia; exact Hprev.
Qed.

(** X19. The interceptor stops before the third attempt only when
    the request is for a translation file, when the last attempt got a
    response, or when it failed with a status that is neither 0 nor
    500 or more. *)
Theorem retry_gives_up_only_on_client_errors url next :
  let o := retryInterceptor url next in
  (attempts o < 3)%nat ->
  includes "/i18n/" url = true
  \/ (exists a, result o = Responded a)
  \/ (exists status, result o = Failed status /\ retryable status = false).
Proof.
  unfold retryInterceptor. destruct (includes "/i18n/" url); [left; reflexivity|].
  unfold MAX_RETRIES. simpl. intros Hfew. right.
  destruct (next 0%nat) as [a0|s0]; simpl in *; [left; eauto|].
  destruct (retryable s0) eqn:R0; simpl in *; [|right; eauto].
  destruct (next 1%nat) as [a1|s1]; simpl in *; [left; eauto|].
  destruct (retryable s1) eqn:R1; simpl in *; [|right; eauto].
  destruct (next 2%nat) as [a2|s2]; simpl in *; lia.
Qed.

End RetryFacts.

Lemma retry_gives_up_only_on_client_errors_witness :
  let next := fun n : nat =>
    match n with
    | O => RetryInterceptor.Failed 503
    | _ => RetryInterceptor.Failed (A := string) 404
    end in
  let o := RetryInterceptor.retryInterceptor "/api/cafes" next in
  (RetryInterceptor.attempts o < 3)%nat
  /\ (RetryInterceptor.includes "/i18n/" "/api/cafes" = true
      \/ (exists a, RetryInterceptor.result o = RetryInterceptor.Responded a)
      \/ (exists status, RetryInterceptor.result o = RetryInterceptor.Failed status
                         /\ RetryInterceptor.retryable status = false)).
Proof.
  split; [vm_compute; lia|].
  apply (retry_gives_up_only_on_client_errors "/api/cafes"
           (fun n : nat =>
              match n with
              | O => RetryInterceptor.Failed 503
              | _ => RetryInterceptor.Failed (A := string) 404
              end)).
  vm_compute. lia.
Defined.
(* ================================================================== *)
(** ** Further properties of the error mapper *)

(** *** When grouping throws *)

Lemma get_inherited_None {A} (acc : Js.object A) (f : string) :
  plainKeys acc = true -> Js.inherited f = true -> Js.get acc f = None.
Proof.
  unfold plainKeys. intros Hacc Hf.
  induction acc as [|[k v] acc IH]; simpl in *; [reflexivity|].
  apply andb_prop in Hacc as [Hk Hacc].
  destruct (String.eqb_spec k f) as [Heq|_]; [|apply IH; exact Hacc].
  subst k. rewrite Hf in Hk. discriminate.
Qed.

Lemma plainKeys_set {A} (acc : Js.object A) (f : string) (v : A) :
  plainKeys acc = true -> Js.inherited f = false -> plainKeys (Js.set acc f v) = true.
Proof.
  unfold plainKeys. intros Hacc Hf.
  induction acc as [|[k w] acc IH]; simpl in *.
  - rewrite Hf. reflexivity.
  - apply andb_prop in Hacc as [Hk Hacc].
    destruct (String.eqb k f); simpl; rewrite Hk; simpl; [exact Hacc|].
    apply IH. exact Hacc.
Qed.

Lemma groupStep_plain acc error :
  plainField error = true -> groupStep acc error = Js.Normal (groupStepPlain acc error).
Proof.
  unfold groupStep, groupStepPlain, plainField.
  destruct (field error) as [f|]; [|reflexivity].
  destruct (Js.truthyString (Some f)); [|reflexivity].
  destruct (Js.get acc f); [reflexivity|].
  destruct (Js.inherited f); [discriminate|reflexivity].
Qed.

Lemma plainKeys_groupStepPlain acc error :
  plainKeys acc = true -> plainField error = true ->
  plainKeys (groupStepPlain acc error) = true.
Proof.
  unfold groupStepPlain, plainField. intros Hacc Hplain.
  destruct (field error) as [f|]; [|exact Hacc].
  destruct (Js.truthyString (Some f)); [|exact Hacc].
  apply negb_true_iff in Hplain.
  destruct (Js.get acc f); apply plainKeys_set; assumption.
Qed.

Lemma groupFrom_throws (errors : list ValidationError) acc :
  plainKeys acc = true ->
  forallb plainField errors = false ->
  groupFrom acc errors
  = Js.Throw (Js.ErrorInstance "TypeError" "acc[error.field].push is not a function").
Proof.
  revert acc. induction errors as [|error errors IH]; intros acc Hacc Hsome;
    simpl in *; [discriminate|].
  destruct (plainField error) eqn:Hplain; simpl in Hsome.
  - rewrite groupStep_plain by exact Hplain.
    apply IH; [|exact Hsome]. apply plainKeys_groupStepPlain; assumption.
  - unfold plainField in Hplain. unfold groupStep.
    destruct (field error) as [f|]; [|discriminate].
    apply negb_false_iff in Hplain.
    assert (Hf : f <> "") by (intros ->; discriminate Hplain).
    rewrite (truthyString_nonempty f Hf), (get_inherited_None acc f Hacc Hplain), Hplain.
    reflexivity.
Qed.

(** X20. [applyToForm] returns normally exactly when no error of the
    list has the name of a member of [Object.prototype] as its field;
    otherwise it throws a [TypeError] out of the grouping, and the
    form is left with its earlier backend errors cleared and none of
    the new ones applied. *)
Theorem applyToForm_throws_on_inherited_names
    (form : AbstractControl) (errors : list ValidationError) :
  applyToForm form errors
  = if forallb plainField errors
    then (fst (applyToForm form errors), Js.Normal tt)
    else (clearFormErrors form,
          Js.Throw (Js.ErrorInstance "TypeError"
                      "acc[error.field].push is not a function")).
Proof.
  destruct (forallb plainField errors) eqn:Hplain;
    unfold applyToForm, groupErrorsByField.
  - rewrite groupFrom_plain by exact Hplain.
    destruct (_ <? _)%nat; reflexivity.
  - rewrite groupFrom_throws by (reflexivity || exact Hplain). reflexivity.
Qed.

(** *** Errors that address no control *)

Lemma applyToForm_ignores_from (form : AbstractControl)
    (rest before : list ValidationError) :
  forallb plainField (before ++ rest) = true ->
  applyToForm form (before ++ rest)
  = applyToForm form (before ++ List.filter (addressesControl form) rest).
Proof.
  revert before. induction rest as [|error rest IH]; intros before Hplain;
    [reflexivity|].
  simpl. destruct (addressesControl form error) eqn:Hkeep.
  - change (before ++ error :: rest)%list with (before ++ [error] ++ rest)%list.
    change (before ++ error :: List.filter (addressesControl form) rest)%list
      with (before ++ [error] ++ List.filter (addressesControl form) rest)%list.
    rewrite !app_assoc. apply IH. rewrite <- app_assoc. exact Hplain.
  - unfold addressesControl in Hkeep.
    destruct (field error) as [f|] eqn:Hfield; [|discriminate].
    destruct (Js.truthyString (Some f)) eqn:Htruthy; [|discriminate].
    assert (Hf : f <> "") by (intros ->; discriminate Htruthy).
    assert (Hnone : getControl form (toFormFieldName f) = None).
    { unfold resolves in Hkeep. destruct (getControl form _); [discriminate|reflexivity]. }
    destruct (applyToForm_drops_unresolved form before rest error f
                Hfield Hf Hnone Hplain) as (Hdrop & _).
    rewrite Hdrop. apply IH.
    rewrite forallb_app in Hplain |- *. simpl in Hplain.
    apply andb_prop in Hplain as [H1 H2]. apply andb_prop in H2 as [_ H2].
    rewrite H1, H2. reflexivity.
Qed.

(** X21. Where no field is the name of a member of
    [Object.prototype], the errors whose field names no control of the
    form count for nothing: [applyToForm] leaves the form, and ends,
    as it does on the list without them. *)
Theorem applyToForm_ignores_unresolved
    (form : AbstractControl) (errors : list ValidationError) :
  forallb plainField errors = true ->
  applyToForm form errors
  = applyToForm form (List.filter (addressesControl form) errors).
Proof.
  intros Hplain. exact (applyToForm_ignores_from form errors [] Hplain).
Qed.

Lemma applyToForm_ignores_unresolved_witness :
  let errors :=
    [Examples.fieldError "Sections[0].Name" "Section name required";
     Examples.fieldError "Name" "Name is required";
     Examples.fieldError "Price" "Price is required"] in
  forallb plainField errors = true
  /\ List.filter (addressesControl Examples.menuForm) errors
     = [Examples.fieldError "Name" "Name is required"]
  /\ applyToForm Examples.menuForm errors
     = applyToForm Examples.menuForm
         (List.filter (addressesControl Examples.menuForm) errors).
Proof.
  split; [reflexivity|]. split; [reflexivity|].
  apply (applyToForm_ignores_unresolved Examples.menuForm
           [Examples.fieldError "Sections[0].Name" "Section name required";
            Examples.fieldError "Name" "Name is required";
            Examples.fieldError "Price" "Price is required"]).
  reflexivity.
Defined.

(** *** Errors of the form itself *)

Lemma splitDots_nonempty (s cur : string) : Js.splitDots cur s <> [].
Proof.
  revert cur. induction s as [|c s IH]; intros cur; simpl; [discriminate|].
  destruct (Ascii.eqb c "."); [discriminate|apply IH].
Qed.

Lemma errors_writeAt target up parts c c' :
  parts <> [] -> (forall x, errors (up x) = errors x) ->
  writeAt target up parts c = Some c' -> errors c' = errors c.
Proof.
  intros Hparts Hup. destruct parts as [|part rest]; [contradiction|]. simpl.
  destruct c as [e t|e t cs|e t cs]; [discriminate| |].
  - destruct (find cs part) as [child|]; [|discriminate].
    destruct (writeAt target up rest child); [|discriminate].
    intros [= <-]. rewrite Hup. reflexivity.
  - destruct (slot cs _) as [i|]; [|discriminate].
    destruct (cs !! i) as [child|]; [|discriminate].
    destruct (writeAt target up rest child); [|discriminate].
    intros [= <-]. rewrite Hup. reflexivity.
Qed.

Lemma errors_setTouched c : errors (setTouched c) = errors c.
Proof. destruct c; reflexivity. Qed.

Lemma errors_applyFieldErrors form entry :
  errors (applyFieldErrors form entry) = errors form.
Proof.
  destruct entry as [backendField fieldErrors]. unfold applyFieldErrors.
  destruct (getControl form _); [|reflexivity].
  unfold markAsTouchedAt, setErrorsAt.
  set (parts := Js.split (toFormFieldName backendField)).
  assert (Hparts : parts <> []) by apply splitDots_nonempty.
  destruct (writeAt (setErrors _) id parts form) as [form2|] eqn:Hw2.
  - apply (errors_writeAt _ _ _ _ _ Hparts (fun x => eq_refl)) in Hw2.
    destruct (writeAt setTouched setTouched parts form2) as [form3|] eqn:Hw3;
      [|exact Hw2].
    apply (errors_writeAt _ _ _ _ _ Hparts errors_setTouched) in Hw3.
    congruence.
  - destruct (writeAt setTouched setTouched parts form) as [form3|] eqn:Hw3;
      [|reflexivity].
    exact (errors_writeAt _ _ _ _ _ Hparts errors_setTouched Hw3).
Qed.

Lemma errors_fold_applyFieldErrors entries form :
  errors (fold_left applyFieldErrors entries form) = errors form.
Proof.
  revert form. induction entries as [|entry entries IH]; intros form; [reflexivity|].
  simpl. rewrite IH. apply errors_applyFieldErrors.
Qed.

Lemma errors_setErrors errs c : errors (setErrors errs c) = errs.
Proof. destruct c; reflexivity. Qed.

(** X22. When [applyToForm] returns, the errors of the form itself
    are these: with errors without a field in the list, their
    messages in the order of the list, as an array under [backend]
    and in place of every error the form had; without such errors,
    what the clearing left of the form's own errors. *)
Theorem applyToForm_form_level_errors
    (form : AbstractControl) (errors : list ValidationError) :
  snd (applyToForm form errors) = Js.Normal tt ->
  Forms.errors (fst (applyToForm form errors))
  = match generalErrors errors with
    | [] => Forms.errors (clearFormErrors form)
    | general => Some [("backend", Js.VArr (map message general))]
    end.
Proof.
  unfold applyToForm, generalErrors.
  destruct (groupErrorsByField errors) as [errorsByField|e]; [|discriminate].
  intros _.
  destruct (List.filter _ errors) as [|g general]; simpl.
  - apply errors_fold_applyFieldErrors.
  - apply errors_setErrors.
Qed.

Lemma applyToForm_form_level_errors_witness :
  let form :=
    FormGroup (Some [("dateRange", Js.VBool true)]) false
      [("name", FormControl None false)] in
  let errors :=
    [{| message := "Cafe limit reached"; code := None; field := None |};
     Examples.fieldError "Name" "Name is required";
     {| message := "Try again later"; code := None; field := Some "" |}] in
  snd (applyToForm form errors) = Js.Normal tt
  /\ Forms.errors (fst (applyToForm form errors))
     = Some [("backend", Js.VArr ["Cafe limit reached"; "Try again later"])].
Proof.
  split; [reflexivity|].
  apply (applyToForm_form_level_errors
           (FormGroup (Some [("dateRange", Js.VBool true)]) false
              [("name", FormControl None false)])
           [{| message := "Cafe limit reached"; code := None; field := None |};
            Examples.fieldError "Name" "Name is required";
            {| message := "Try again later"; code := None; field := Some "" |}]).
  reflexivity.
Defined.

(** *** Clearing twice, and clearing what was applied *)

Lemma withoutBackend_idempotent (errs : option ValidationErrors) :
  withoutBackend (withoutBackend errs) = withoutBackend errs.
Proof.
  destruct errs as [e|]; [|reflexivity]. simpl.
  destruct (Js.get e "backend") as [v|] eqn:Hget; simpl; [|rewrite Hget; reflexivity].
  destruct (Js.truthy v) eqn:Hv; simpl; [|rewrite Hget, Hv; reflexivity].
  pose proof (get_delete_same e "backend") as Hgone.
  destruct (Js.delete e "backend") as [|p rest]; simpl; [reflexivity|].
  simpl in Hgone. rewrite Hgone. reflexivity.
Qed.

Lemma clearNode_idempotent (c : AbstractControl) :
  clearNode (clearNode c) = clearNode c.
Proof.
  induction c as [e t|e t cs IH|e t cs IH] using AbstractControl_tree_ind.
  - simpl. rewrite withoutBackend_idempotent. reflexivity.
  - change (clearNode (FormGroup e t cs)) with (clearFormErrors (FormGroup e t cs)).
    rewrite clearFormErrors_group.
    change (clearNode (FormGroup ?e ?t ?cs)) with (clearFormErrors (FormGroup e t cs)).
    rewrite clearFormErrors_group, withoutBackend_idempotent, map_map. simpl.
    f_equal. induction IH as [|[k c] cs Hc _ IHcs]; simpl in *; [reflexivity|].
    rewrite Hc, IHcs. reflexivity.
  - change (clearNode (FormArray e t cs)) with (clearFormErrors (FormArray e t cs)).
    rewrite clearFormErrors_array.
    change (clearNode (FormArray ?e ?t ?cs)) with (clearFormErrors (FormArray e t cs)).
    rewrite clearFormErrors_array, withoutBackend_idempotent, map_map.
    f_equal. induction IH as [|c cs Hc _ IHcs]; simpl in *; [reflexivity|].
    rewrite Hc, IHcs. reflexivity.
Qed.

(** X23. Clearing the mapped errors a second time changes nothing. *)
Theorem clearFormErrors_idempotent (form : AbstractControl) :
  clearFormErrors (clearFormErrors form) = clearFormErrors form.
Proof.
  destruct form as [e t|e t cs|e t cs]; [reflexivity| |].
  - exact (clearNode_idempotent (FormGroup e t cs)).
  - exact (clearNode_idempotent (FormArray e t cs)).
Qed.

Lemma find_clearNode (cs : list (string * AbstractControl)) (name : string) :
  find (map (fun kc => (fst kc, clearNode (snd kc))) cs) name
  = clearNode <$> find cs name.
Proof.
  unfold find. induction cs as [|[k c] cs IH]; simpl; [reflexivity|].
  destruct (String.eqb k name); [reflexivity|exact IH].
Qed.

Lemma at_clearNode (cs : list AbstractControl) (index : option Z) :
  at_ (map clearNode cs) index = clearNode <$> at_ cs index.
Proof.
  unfold at_. destruct index as [i|]; [|reflexivity].
  rewrite length_map. destruct (_ <? 0); [reflexivity|].
  apply list_lookup_fmap.
Qed.

Lemma walk_clearNode (parts : list string) (c : AbstractControl) :
  walk (Some (clearNode c)) parts = clearNode <$> walk (Some c) parts.
Proof.
  revert c. induction parts as [|part rest IH]; intros c; [reflexivity|].
  destruct c as [e t|e t cs|e t cs].
  - reflexivity.
  - change (clearNode (FormGroup e t cs)) with (clearFormErrors (FormGroup e t cs)).
    rewrite clearFormErrors_group. simpl. rewrite find_clearNode.
    destruct (find cs part) as [child|]; simpl; [apply IH|].
    rewrite walk_None. reflexivity.
  - change (clearNode (FormArray e t cs)) with (clearFormErrors (FormArray e t cs)).
    rewrite clearFormErrors_array. simpl. rewrite at_clearNode.
    destruct (at_ cs _) as [child|]; simpl; [apply IH|].
    rewrite walk_None. reflexivity.
Qed.

Lemma getControl_clearFormErrors (form : AbstractControl) (path : string) :
  getControl (clearFormErrors form) path = clearNode <$> getControl form path.
Proof.
  unfold getControl.
  destruct (Js.split path) as [|part rest] eqn:Hsplit;
    [exfalso; exact (splitDots_nonempty _ _ Hsplit)|].
  destruct form as [e t|e t cs|e t cs]; [reflexivity| |].
  - exact (walk_clearNode (part :: rest) (FormGroup e t cs)).
  - exact (walk_clearNode (part :: rest) (FormArray e t cs)).
Qed.

(** X24. A single error whose field names a control, and is no name
    of a member of [Object.prototype], is put on that control, which
    is touched; clearing the mapped errors afterwards takes it away
    again and leaves the control touched. An error with the empty
    message is the exception: [clearFormErrors] tests the entry for
    truth and so leaves it on the control. *)
Theorem applied_error_is_cleared_again (form : AbstractControl)
    (error : ValidationError) (f : string) (c : AbstractControl) :
  field error = Some f -> f <> "" -> Js.inherited f = false ->
  getControl form (toFormFieldName f) = Some c ->
  let applied := fst (applyToForm form [error]) in
  exists c' c'',
    getControl applied (toFormFieldName f) = Some c'
    /\ errors c' = Some [("backend", Js.VStr (message error))]
    /\ touched c' = true
    /\ getControl (clearFormErrors applied) (toFormFieldName f) = Some c''
    /\ errors c''
       = (if String.eqb (message error) ""
          then Some [("backend", Js.VStr "")] else None)
    /\ touched c'' = true.
Proof.
  intros Hfield Hf Hinherited Hc. simpl.
  destruct (applied_error_reaches_control form error f c Hfield Hf Hinherited Hc)
    as (_ & c' & Hc' & Herrors & Htouched).
  exists c', (clearNode c').
  split; [exact Hc'|]. split; [exact Herrors|]. split; [exact Htouched|].
  split; [rewrite getControl_clearFormErrors, Hc'; reflexivity|].
  rewrite clearNode_errors, clearNode_touched, Herrors. split; [|exact Htouched].
  simpl. destruct (String.eqb_spec (message error) "") as [Hm|Hm].
  - rewrite Hm. reflexivity.
  - reflexivity.
Qed.

Lemma applied_error_is_cleared_again_witness :
  let error := Examples.fieldError "Sections[0].name" "Section name required" in
  let applied := fst (applyToForm Examples.menuForm [error]) in
  getControl Examples.menuForm "sections.0.name"
  = Some (FormControl (Some [("required", Js.VBool true)]) false)
  /\ exists c' c'',
       getControl applied "sections.0.name" = Some c'
       /\ errors c' = Some [("backend", Js.VStr "Section name required")]
       /\ touched c' = true
       /\ getControl (clearFormErrors applied) "sections.0.name" = Some c''
       /\ errors c'' = None
       /\ touched c'' = true.
Proof.
  split; [reflexivity|].
  apply (applied_error_is_cleared_again Examples.menuForm
           (Examples.fieldError "Sections[0].name" "Section name required")
           "Sections[0].name"
           (FormControl (Some [("required", Js.VBool true)]) false));
    [reflexivity|discriminate|reflexivity|reflexivity].
Defined.
(* ================================================================== *)
(** ** Loading a menu into the form and sending it back *)

Section FormValueFacts.
Import MenuFormValue.

Lemma pushSections_sections (l : list SectionDto.t) (index : nat)
    (c : MenuFormSections.t FormSection.t) :
  MenuFormSections.sections (pushSections index l c)
  = (MenuFormSections.sections c ++ map sectionGroup l)%list.
Proof.
  revert index c. induction l as [|section l IH]; intros index c; simpl.
  - rewrite app_nil_r. reflexivity.
  - rewrite IH. simpl. rewrite <- app_assoc. reflexivity.
Qed.

Lemma pushSections_expanded (l : list SectionDto.t) (index : nat)
    (c : MenuFormSections.t FormSection.t) (j : nat) :
  MenuFormSections.isSectionExpanded j (pushSections index l c)
  = MenuFormSections.isSectionExpanded j c
    || ((index <=? j)%nat && (j <? index + length l)%nat).
Proof.
  unfold MenuFormSections.isSectionExpanded.
  revert index c. induction l as [|section l IH]; intros index c; simpl.
  - replace (j <? index + 0)%nat with (j <? index)%nat by (f_equal; lia).
    destruct (Nat.leb_spec index j), (Nat.ltb_spec j index); try lia;
      rewrite orb_false_r; reflexivity.
  - rewrite IH. cbn -[Nat.leb Nat.ltb Nat.add JsSet.has JsSet.add]. rewrite has_add, <- orb_assoc. f_equal.
    apply eq_true_iff_eq.
    rewrite orb_true_iff, !andb_true_iff, Nat.eqb_eq, !Nat.leb_le, !Nat.ltb_lt. lia.
Qed.

Lemma ingredients_round_trip (l : list IngredientDto.t) :
  map (fun ing =>
         {| IngredientDto.name := FormIngredient.name ing;
            IngredientDto.isExcludable := FormIngredient.isExcludable ing |})
    (map (fun ingredient =>
            {| FormIngredient.name := IngredientDto.name ingredient;
               FormIngredient.isExcludable := IngredientDto.isExcludable ingredient |})
       l)
  = l.
Proof.
  induction l as [|[name isExcludable] l IH]; simpl; [reflexivity|].
  rewrite IH. reflexivity.
Qed.

(** X25. A menu that is loaded into the form and submitted as it is
    goes back to the server with its name and, section by section and
    item by item in the same order, with the names, times, prices and
    ingredients it had; but every section and item is sent without
    its [id], every item with [image: null], and an empty description
    or time as [null]. *)
Theorem loaded_menu_is_sent_without_ids_and_images (menu : MenuDto.t)
    (c : MenuFormValue.t) :
  let request := menuData (populate menu c) in
  menuName request = MenuDto.name menu
  /\ Forall2 sentAs_section (MenuDto.sections menu) (menuSections request).
Proof.
  simpl. split; [reflexivity|].
  rewrite pushSections_sections. simpl.
  induction (MenuDto.sections menu) as [|section l IH]; simpl; constructor;
    [|exact IH].
  unfold sentAs_section. simpl. repeat apply conj; try reflexivity.
  clear. induction (SectionDto.items section) as [|item items IH]; simpl;
    constructor; [|exact IH].
  unfold sentAs_item. simpl. repeat apply conj; try reflexivity.
  - apply orZero_eq.
  - apply ingredients_round_trip.
Qed.

(** X26. After a menu was loaded into the form, the form has one
    section for each section of the menu and all of them are
    expanded, whatever sections and expansions it had before. *)
Theorem populate_expands_every_section (menu : MenuDto.t) (c : MenuFormValue.t)
    (j : nat) :
  let form := sections (populate menu c) in
  length (MenuFormSections.sections form) = length (MenuDto.sections menu)
  /\ MenuFormSections.isSectionExpanded j form
     = (j <? length (MenuDto.sections menu))%nat.
Proof.
  simpl. split.
  - rewrite pushSections_sections. simpl. apply length_map.
  - rewrite pushSections_expanded. reflexivity.
Qed.

Section LoadMenuFacts.
Context {W : Type} (menuApi : MenuApiService.t W).

(** X27. [loadMenu] of the form page never throws and fills the form
    from the menu the store has selected once the request is over.
    When the request succeeded that is the menu the server answered
    with; when it was rejected, the store reports the error and keeps
    the menu it had selected before, and it is that menu, if there is
    one, that the form is filled from. *)
Theorem loadMenu_fills_form_from_selection (cafeId menuId : string)
    (e : env (MenuFormValue.t * MenuStore.MenuStoreState) W) :
  let e' := fst (loadMenu menuApi cafeId menuId e) in
  let selectedMenu := MenuStore.selectedMenu (snd (store e')) in
  snd (loadMenu menuApi cafeId menuId e) = Js.Normal tt
  /\ fst (store e')
     = match selectedMenu with
       | Some menu => populate menu (fst (store e))
       | None => fst (store e)
       end
  /\ selectedMenu
     = (if anyRejected (sent e e')
        then MenuStore.selectedMenu (snd (store e))
        else answer (MenuApiService.getMenu menuApi cafeId menuId) (server e))
  /\ (MenuStore.error (snd (store e')) = None <-> anyRejected (sent e e') = false).
Proof.
  unfold loadMenu, MenuStore.loadMenu, MenuStore.selectMenu, answer.
  run_async. split_calls; sent_simpl.
  - repeat apply conj; reflexivity.
  - destruct (MenuStore.selectedMenu (snd (store e))) as [old|] eqn:Hold; simpl;
      sent_simpl; rewrite ?Hold;
      repeat apply conj; try reflexivity; intros H; discriminate H.
Qed.

End LoadMenuFacts.
End FormValueFacts.
(* ================================================================== *)
(** ** The theme, saved and restored *)

Lemma get_set_same {A} (o : Js.object A) (k : string) (v : A) :
  Js.get (Js.set o k v) k = Some v.
Proof.
  induction o as [|[k' v'] o IH]; simpl.
  - rewrite String.eqb_refl. reflexivity.
  - destruct (String.eqb k' k) eqn:Hk; simpl; rewrite Hk; [reflexivity|exact IH].
Qed.

Lemma get_set_other {A} (o : Js.object A) (k key : string) (v : A) :
  key <> k -> Js.get (Js.set o k v) key = Js.get o key.
Proof.
  intros Hne. induction o as [|[k' v'] o IH]; simpl.
  - destruct (String.eqb_spec k key) as [Heq|_]; [|reflexivity].
    symmetry in Heq. contradiction.
  - destruct (String.eqb_spec k' k) as [Heq|Hk]; simpl.
    + subst k'. destruct (String.eqb_spec k key) as [Heq|_]; [|reflexivity].
      symmetry in Heq. contradiction.
    + destruct (String.eqb k' key); [reflexivity|exact IH].
Qed.

Section ThemeFacts.
Import ThemeService.

Lemma performAll_browser (calls : list call) (s : ThemeService.t) :
  browser (performAll calls s) = browser s.
Proof.
  unfold performAll. revert s.
  induction calls as [|c calls IH]; intros s; simpl; [reflexivity|].
  rewrite IH. destruct c; reflexivity.
Qed.

Lemma loadTheme_saved (theme : Theme) (b : Browser) :
  loadTheme (saveTheme theme b) = theme.
Proof.
  unfold loadTheme, saveTheme. simpl. rewrite get_set_same.
  destruct theme; reflexivity.
Qed.

(** X28. Once the effect has run after any calls of [toggleTheme] and
    [setTheme], the root element has the dark class exactly when the
    theme is dark, and the theme is in the local storage: a service
    created anew on that storage starts with the same theme, whatever
    the system prefers; the other keys of the storage are as the
    service found them. *)
Theorem theme_survives_reload (calls : list call) (b : Browser)
    (prefers : bool) (key : string) :
  let s := runEffect (performAll calls (create b)) in
  let reloaded :=
    {| localStorage := localStorage (browser s); darkClass := false;
       prefersDark := prefers |} in
  darkClass (browser s) = match currentTheme s with dark => true | light => false end
  /\ loadTheme (browser s) = currentTheme s
  /\ currentTheme (create reloaded) = currentTheme s
  /\ (key <> STORAGE_KEY ->
      Js.get (localStorage (browser s)) key = Js.get (localStorage b) key).
Proof.
  simpl. split; [reflexivity|]. split; [apply loadTheme_saved|]. split.
  - unfold loadTheme. simpl. rewrite get_set_same.
    destruct (currentTheme _); reflexivity.
  - intros Hkey. rewrite performAll_browser. simpl.
    rewrite !get_set_other by exact Hkey. reflexivity.
Qed.

End ThemeFacts.

(* ================================================================== *)
(** ** The discounted price *)

Lemma discount_factor_bounds (discount : Q) :
  (0 <= discount)%Q -> (discount <= 100)%Q ->
  (0 <= 1 - discount / 100)%Q /\ (1 - discount / 100 <= 1)%Q.
Proof.
  intros Hlow Hhigh. unfold Qle, Qminus, Qdiv, Qplus, Qopp, Qmult, Qinv in *.
  simpl in *. split; lia.
Qed.

(** X29. For an amount that is not negative and a discount between 0
    and 100, in exact arithmetic, the price the preview page formats
    and the price of the menu item component lie between 0 and the
    amount. *)
Theorem final_price_within_bounds (price : PriceDto.t) :
  (0 <= PriceDto.amount price)%Q ->
  (0 <= PriceDto.discount price)%Q ->
  (PriceDto.discount price <= 100)%Q ->
  let amount := PriceDto.amount price in
  let discount := PriceDto.discount price in
  (0 <= MenuPreviewPageComponent.finalPrice price)%Q
  /\ (MenuPreviewPageComponent.finalPrice price <= amount)%Q
  /\ (0 <= MenuItemComponent.finalPrice (Some amount) (Some discount))%Q
  /\ (MenuItemComponent.finalPrice (Some amount) (Some discount) <= amount)%Q.
Proof.
  intros Hamount Hlow Hhigh amount discount.
  destruct (discount_factor_bounds discount Hlow Hhigh) as (Hf0 & Hf1).
  assert (Hpreview : (0 <= MenuPreviewPageComponent.finalPrice price)%Q
                     /\ (MenuPreviewPageComponent.finalPrice price <= amount)%Q).
  { unfold MenuPreviewPageComponent.finalPrice. fold amount discount. split.
    - apply Qmult_le_0_compat; assumption.
    - rewrite <- (Qmult_1_r amount) at 2.
      rewrite !(Qmult_comm amount). apply Qmult_le_compat_r; assumption. }
  assert (Hitem : (MenuItemComponent.finalPrice (Some amount) (Some discount)
                   == MenuPreviewPageComponent.finalPrice price)%Q).
  { unfold MenuItemComponent.finalPrice, MenuPreviewPageComponent.finalPrice.
    cbv zeta. rewrite !orZero_eq. fold amount discount. field. }
  destruct Hpreview as (H0 & H1).
  split; [exact H0|]. split; [exact H1|].
  rewrite Hitem. split; assumption.
Qed.

Lemma final_price_within_bounds_witness :
  let price := {| PriceDto.amount := 25 # 2; PriceDto.currency := "EUR";
                  PriceDto.unit := PerItem; PriceDto.discount := 20 |} in
  (0 <= MenuPreviewPageComponent.finalPrice price)%Q
  /\ (MenuPreviewPageComponent.finalPrice price <= 25 # 2)%Q
  /\ (0 <= MenuItemComponent.finalPrice (Some (25 # 2)) (Some 20))%Q
  /\ (MenuItemComponent.finalPrice (Some (25 # 2)) (Some 20) <= 25 # 2)%Q.
Proof.
  cbv zeta.
  apply (final_price_within_bounds
           {| PriceDto.amount := 25 # 2; PriceDto.currency := "EUR";
              PriceDto.unit := PerItem; PriceDto.discount := 20 |});
    unfold Qle; simpl; lia.
Defined.
